(** * planet-dump-ng: the streaming XML serializer ([src/xml_writer.cpp])

    A shallow embedding of the XML writer of planet-dump-ng and the
    properties of its format primitives, its merge-join cursors and its
    four entity passes.

    Conventions of the embedding

    - a [std::string] is a [string] (a sequence of bytes, its length
      explicit); [c_str] is its prefix up to the first NUL byte, which is
      what libxml2 reads from the [const char *] it is handed;
    - signed and unsigned machine integers are [Z]; the only arithmetic the
      writer does on them is comparison and a counter bounded by the length
      of a vector, so no wrap-around is reachable;
    - a [const_iterator] into a [std::vector] together with the vector's
      [end()] is the suffix of the vector that starts at the iterator;
    - the document is the trace of calls made on the [xmlTextWriter]. *)

From Stdlib Require Import ZArith List String Ascii Bool Lia Sorted.
From Stdlib Require Import Floats.SpecFloat Numbers.DecimalString.
From stdpp Require Import base option list strings gmap.

Local Open Scope string_scope.
Local Open Scope list_scope.
Local Open Scope Z_scope.

Infix "+s+" := String.append (at level 60, right associativity).

(* ===================================================================== *)
(** * Strings and characters *)
(* ===================================================================== *)

Module Str.

Definition NUL : ascii := Ascii.zero.

(** [std::string::c_str()] as read by a consumer of C strings. *)
Fixpoint c_str (s : string) : string :=
  match s with
  | EmptyString => EmptyString
  | String a s' =>
      if Ascii.eqb a NUL then EmptyString else String a (c_str s')
  end.

(** ['0' + d] computed in [char]. *)
Definition char_plus (base : ascii) (d : Z) : ascii :=
  ascii_of_N (Z.to_N ((Z.of_N (N_of_ascii base) + d) mod 256)).

Definition of_list (l : list ascii) : string := string_of_list_ascii l.
Definition to_list (s : string) : list ascii := list_ascii_of_string s.

(** printf's [%d] and [%ld]. *)
Definition fmt_int (z : Z) : string := NilZero.string_of_int (Z.to_int z).

Definition is_digit (a : ascii) : bool :=
  let n := N_of_ascii a in ((48 <=? n) && (n <=? 57))%N.

End Str.

(* ===================================================================== *)
(** * boost::posix_time, as far as the writer uses it *)
(* ===================================================================== *)

(** Library model.  In boost's default configuration a [ptime] is a signed
    64-bit count of microseconds whose largest two values and smallest
    value are the special values, and comparison compares the counts.  A
    proper time is given by the calendar fields that [year_month_day()]
    and [time_of_day()] return. *)
Module pt.

Inductive special_values := not_a_date_time | neg_infin | pos_infin.

Record greg_year_month_day := { year : Z; month : Z; day : Z }.

Record time_duration :=
  { hours : Z; minutes : Z; seconds : Z; fractional_seconds : Z }.

Inductive ptime :=
| special (sv : special_values)
| time (ymd : greg_year_month_day) (tod : time_duration).

Definition is_special (t : ptime) : bool :=
  match t with special _ => true | time _ _ => false end.

(** [gregorian_calendar::day_number]. *)
Definition day_number (ymd : greg_year_month_day) : Z :=
  let a := (14 - month ymd) / 12 in
  let y := year ymd + 4800 - a in
  let m := month ymd + 12 * a - 3 in
  day ymd + (153 * m + 2) / 5 + 365 * y + y / 4 - y / 100 + y / 400 - 32045.

Definition int64_max : Z := 2 ^ 63 - 1.
Definition int64_min : Z := - 2 ^ 63.

Definition time_count (t : ptime) : Z :=
  match t with
  | special pos_infin => int64_max
  | special not_a_date_time => int64_max - 1
  | special neg_infin => int64_min
  | time ymd tod =>
      ((day_number ymd * 86400
        + hours tod * 3600 + minutes tod * 60 + seconds tod) * 1000000)
      + fractional_seconds tod
  end.

(** [operator<] and the derived [operator>]. *)
Definition lt (a b : ptime) : bool := time_count a <? time_count b.
Definition gt (a b : ptime) : bool := lt b a.

(** Calendar fields boost can hand out for a proper time. *)
Definition valid_fields (t : ptime) : Prop :=
  match t with
  | special _ => True
  | time ymd tod =>
      1400 <= year ymd <= 9999 /\ 1 <= month ymd <= 12 /\
      1 <= day ymd <= 31 /\ 0 <= hours tod <= 23 /\
      0 <= minutes tod <= 59 /\ 0 <= seconds tod <= 59 /\
      0 <= fractional_seconds tod < 1000000
  end.

End pt.

(* ===================================================================== *)
(** * Format primitives *)
(* ===================================================================== *)

Section Sanitize.

(** Whether plain [char] is signed is the platform's choice. *)
Variable char_is_signed : bool.

Definition char_value (a : ascii) : Z :=
  let n := Z.of_N (N_of_ascii a) in
  if char_is_signed && (128 <=? n) then n - 256 else n.

(** The body of the loop of [replace_xml_bad_chars] for one index. *)
Definition replace_at (s : list ascii) (output : list ascii) (i : nat)
  : list ascii :=
  let c := nth i s Str.NUL in
  let c :=
    if (char_value c >=? 0) && (char_value c <? 32)
       && negb (char_value c =? 9) && negb (char_value c =? 10)
       && negb (char_value c =? 13)
    then "?"%char else c in
  <[ i := c ]> output.

Definition replace_xml_bad_chars_bytes (s : list ascii) : list ascii :=
  let size := length s in
  let output := repeat Str.NUL size in
  fold_left (replace_at s) (seq 0 size) output.

Definition replace_xml_bad_chars (s : string) : string :=
  Str.of_list (replace_xml_bad_chars_bytes (Str.to_list s)).

End Sanitize.

(** [fmt_iso_time]: the string is resized to 21 bytes and all 21 are
    assigned, the last one with NUL. *)
Definition fmt_iso_time (t : pt.ptime) : string :=
  match t with
  | pt.special _ => EmptyString
  | pt.time ymd tod =>
      let hour := pt.hours tod in
      let minute := pt.minutes tod in
      let second := pt.seconds tod in
      let z := "0"%char in
      Str.of_list
        [ Str.char_plus z ((pt.year ymd / 1000) mod 10);
          Str.char_plus z ((pt.year ymd / 100) mod 10);
          Str.char_plus z ((pt.year ymd / 10) mod 10);
          Str.char_plus z (pt.year ymd mod 10);
          "-"%char;
          (if pt.month ymd >=? 10 then "1" else "0")%char;
          Str.char_plus z (pt.month ymd mod 10);
          "-"%char;
          Str.char_plus z ((pt.day ymd / 10) mod 10);
          Str.char_plus z (pt.day ymd mod 10);
          "T"%char;
          Str.char_plus z ((hour / 10) mod 10);
          Str.char_plus z (hour mod 10);
          ":"%char;
          Str.char_plus z ((minute / 10) mod 10);
          Str.char_plus z (minute mod 10);
          ":"%char;
          Str.char_plus z ((second / 10) mod 10);
          Str.char_plus z (second mod 10);
          "Z"%char;
          Str.NUL ]
  end.

(* ===================================================================== *)
(** * IEEE doubles and [%.7f] *)
(* ===================================================================== *)

Module Dbl.

Definition prec : Z := 53.
Definition emax : Z := 1024.

(** [double(i)] for an integer [i]. *)
Definition of_int (i : Z) : spec_float := binary_normalize prec emax i 0 false.

Definition div (x y : spec_float) : spec_float := SFdiv prec emax x y.

(** The integer nearest to [m * 2^e * 10^7], ties to even. *)
Definition scaled7 (m : positive) (e : Z) : Z :=
  if 0 <=? e then Z.pos m * 2 ^ e * 10 ^ 7
  else
    let num := Z.pos m * 10 ^ 7 in
    let den := 2 ^ (- e) in
    let q := num / den in
    let r := num mod den in
    match 2 * r ?= den with
    | Lt => q
    | Gt => q + 1
    | Eq => if Z.even q then q else q + 1
    end.

Definition frac7 (n : Z) : string :=
  Str.of_list
    (map (fun k => Str.char_plus "0"%char ((n / 10 ^ k) mod 10))
         [6; 5; 4; 3; 2; 1; 0]).

Definition fixed7 (s : bool) (n : Z) : string :=
  (if s then "-" else "") +s+ Str.fmt_int (n / 10 ^ 7) +s+ "." +s+ frac7 (n mod 10 ^ 7).

(** Library model of printf's [%.7f]: a finite double is printed as its
    exact value rounded to seven decimals, ties to even. *)
Definition fmt_7f (d : spec_float) : string :=
  match d with
  | S754_zero s => fixed7 s 0
  | S754_finite s m e => fixed7 s (scaled7 m e)
  | S754_infinity s => if s then "-inf" else "inf"
  | S754_nan => "nan"
  end.

End Dbl.

Definition SCALE : Z := 10000000.

(** [double(x) / SCALE] printed with [%.7f]. *)
Definition format_coordinate (x : Z) : string :=
  Dbl.fmt_7f (Dbl.div (Dbl.of_int x) (Dbl.of_int SCALE)).

(* ===================================================================== *)
(** * Data model *)
(* ===================================================================== *)

(** The enumerations and record types below are declared in headers that
    are not among the sources at hand; each is given with the fields and
    values the writer uses, with the meaning the data model gives them. *)

(** Modelled from the spec: the redaction policy, SUMMARY or FULL. *)
Module user_info_level.
Inductive t := SUMMARY | FULL.
Definition eqb (a b : t) : bool :=
  match a, b with SUMMARY, SUMMARY | FULL, FULL => true | _, _ => false end.
End user_info_level.

(** Modelled from the spec: the history mode, CURRENT or FULL. *)
Module historical_versions.
Inductive t := CURRENT | FULL.
Definition eqb (a b : t) : bool :=
  match a, b with CURRENT, CURRENT | FULL, FULL => true | _, _ => false end.
End historical_versions.

(** Modelled from the spec: whether discussions are included. *)
Module changeset_discussions.
Inductive t := NONE | FULL.
Definition eqb (a b : t) : bool :=
  match a, b with NONE, NONE | FULL, FULL => true | _, _ => false end.
End changeset_discussions.

(** Modelled from the spec: a changeset; the four bounds are optional. *)
Module changeset.
Record t := {
  id : Z;
  uid : Z;
  created_at : pt.ptime;
  min_lat : option Z; max_lat : option Z;
  min_lon : option Z; max_lon : option Z;
  closed_at : pt.ptime;
  num_changes : Z }.
End changeset.

(** Modelled from the spec: a tag of a changeset (no version). *)
Module current_tag.
Record t := { element_id : Z; key : string; value : string }.
End current_tag.

(** Modelled from the spec: a tag of a version of a node, way or relation. *)
Module old_tag.
Record t := { element_id : Z; version : Z; key : string; value : string }.
End old_tag.

(** Modelled from the spec: a node version, with scaled coordinates. *)
Module node.
Record t := {
  id : Z; version : Z; changeset_id : Z; visible : bool;
  timestamp : pt.ptime; latitude : Z; longitude : Z }.
End node.

(** Modelled from the spec: a way version. *)
Module way.
Record t := {
  id : Z; version : Z; changeset_id : Z; visible : bool;
  timestamp : pt.ptime }.
End way.

(** Modelled from the spec: a node reference of a way version. *)
Module way_node.
Record t := { way_id : Z; version : Z; sequence_id : Z; node_id : Z }.
End way_node.

(** Modelled from the spec: a relation version. *)
Module relation.
Record t := {
  id : Z; version : Z; changeset_id : Z; visible : bool;
  timestamp : pt.ptime }.
End relation.

(** Modelled from the spec: the kind of a relation member. *)
Inductive nwr_enum := nwr_node | nwr_way | nwr_relation.

(** Modelled from the spec: a member of a relation version. *)
Module relation_member.
Record t := {
  relation_id : Z; version : Z; sequence_id : Z;
  member_type : nwr_enum; member_id : Z; member_role : string }.
End relation_member.

(** Modelled from the spec: a comment in the discussion of a changeset. *)
Module changeset_comment.
Record t := {
  changeset_id : Z; author_id : Z; body : string;
  created_at : pt.ptime; visible : bool }.
End changeset_comment.

(** What [write_common_attributes<T>] asks of its template argument. *)
Class Versioned (T : Type) := {
  v_id : T -> Z;
  v_version : T -> Z;
  v_changeset_id : T -> Z;
  v_visible : T -> bool;
  v_timestamp : T -> pt.ptime }.

#[global] Instance node_versioned : Versioned node.t :=
  {| v_id := node.id; v_version := node.version;
     v_changeset_id := node.changeset_id; v_visible := node.visible;
     v_timestamp := node.timestamp |}.

#[global] Instance way_versioned : Versioned way.t :=
  {| v_id := way.id; v_version := way.version;
     v_changeset_id := way.changeset_id; v_visible := way.visible;
     v_timestamp := way.timestamp |}.

#[global] Instance relation_versioned : Versioned relation.t :=
  {| v_id := relation.id; v_version := relation.version;
     v_changeset_id := relation.changeset_id; v_visible := relation.visible;
     v_timestamp := relation.timestamp |}.

(** Modelled from the spec: [user_map_t] maps a user id to a display name
    and [changeset_map_t] a changeset id to the id of its author; the
    entry found for a changeset dereferences to that author id. *)
Abbreviation user_map_t := (gmap Z string).
Abbreviation changeset_map_t := (gmap Z Z).

(** [std::map::insert] keeps an entry that is already there. *)
Definition map_insert {V} (k : Z) (v : V) (m : gmap Z V) : gmap Z V :=
  match m !! k with
  | Some _ => m
  | None => <[ k := v ]> m
  end.

(* ===================================================================== *)
(** * The emission surface *)
(* ===================================================================== *)

(** One call on the [xmlTextWriter]; strings are the C strings handed over. *)
Inductive xml_call :=
| StartElement (name : string)
| WriteAttribute (name value : string)
| WriteString (content : string)
| EndElement.

(** Text macros of the build and the signedness of [char]. *)
Record build := {
  char_is_signed : bool;
  OSM_LICENSE_TEXT : string;
  OSM_COPYRIGHT_TEXT : string;
  OSM_VERSION_TEXT : string;
  OSM_ATTRIBUTION_TEXT : string;
  OSM_API_ORIGIN : string }.

Section Emission.

Variable B : build.

Definition sanitize (s : string) : string :=
  replace_xml_bad_chars (char_is_signed B) s.

Definition begin (name : string) : list xml_call := [StartElement name].

Definition attribute_bool (name : string) (b : bool) : list xml_call :=
  [WriteAttribute name (if b then "true" else "false")].

(** The [int32_t] and [int64_t] overloads print with [%d] and [%ld]. *)
Definition attribute_int (name : string) (i : Z) : list xml_call :=
  [WriteAttribute name (Str.fmt_int i)].

Definition attribute_double (name : string) (d : spec_float) : list xml_call :=
  [WriteAttribute name (Dbl.fmt_7f d)].

Definition attribute_time (name : string) (t : pt.ptime) : list xml_call :=
  [WriteAttribute name (Str.c_str (fmt_iso_time t))].

Definition attribute (name : string) (s : string) : list xml_call :=
  [WriteAttribute name (Str.c_str (sanitize s))].

Definition end_ : list xml_call := [EndElement].

Definition text (t : string) : list xml_call :=
  [WriteString (Str.c_str (sanitize t))].

Definition add_tag (k v : string) : list xml_call :=
  begin "tag" ++ attribute "k" k ++ attribute "v" v ++ end_.

Definition start_discussion : list xml_call := begin "discussion".
Definition end_discussion : list xml_call := end_.

Definition add_comment (c : changeset_comment.t) (display_name : string)
           (uil : user_info_level.t) : list xml_call :=
  begin "comment"
  ++ (if user_info_level.eqb uil user_info_level.FULL
      then attribute_int "uid" (changeset_comment.author_id c)
           ++ attribute "user" display_name
      else [])
  ++ attribute_time "date" (changeset_comment.created_at c)
  ++ begin "text"
  ++ text (changeset_comment.body c)
  ++ end_
  ++ end_.

Definition scaled (x : Z) : spec_float := Dbl.div (Dbl.of_int x) (Dbl.of_int SCALE).

End Emission.

(* ===================================================================== *)
(** * Merge-join cursors *)
(* ===================================================================== *)

(** An iterator paired with the [end()] of its vector is the suffix that
    is still to be read; its position in the vector [v] is the number of
    rows before it. *)
Definition position {A} (v itr : list A) : nat := (length v - length itr)%nat.

Section Cursors.

Variable B : build.

(** [write_tags]: returns the calls made and the iterator it leaves. *)
Fixpoint write_tags (id version : Z) (tag_itr : list old_tag.t)
  : list xml_call * list old_tag.t :=
  match tag_itr with
  | [] => ([], [])
  | t :: next =>
      if (old_tag.element_id t <? id)
         || ((old_tag.element_id t =? id) && (old_tag.version t <=? version))
      then
        let here :=
          if (old_tag.element_id t =? id) && (old_tag.version t =? version)
          then add_tag B (old_tag.key t) (old_tag.value t) else [] in
        let '(out, itr) := write_tags id version next in
        (here ++ out, itr)
      else ([], tag_itr)
  end.

(** The way-node loop of [xml_writer::ways]. *)
Fixpoint write_nds (id version : Z) (nd_itr : list way_node.t)
  : list xml_call * list way_node.t :=
  match nd_itr with
  | [] => ([], [])
  | nd :: next =>
      if (way_node.way_id nd <? id)
         || ((way_node.way_id nd =? id) && (way_node.version nd <=? version))
      then
        let here :=
          if (way_node.way_id nd =? id) && (way_node.version nd =? version)
          then begin "nd" ++ attribute_int "ref" (way_node.node_id nd) ++ end_
          else [] in
        let '(out, itr) := write_nds id version next in
        (here ++ out, itr)
      else ([], nd_itr)
  end.

Definition member_type_name (t : nwr_enum) : string :=
  match t with
  | nwr_node => "node"
  | nwr_way => "way"
  | nwr_relation => "relation"
  end.

(** The member loop of [xml_writer::relations]. *)
Fixpoint write_members (id version : Z) (rm_itr : list relation_member.t)
  : list xml_call * list relation_member.t :=
  match rm_itr with
  | [] => ([], [])
  | rm :: next =>
      if (relation_member.relation_id rm <? id)
         || ((relation_member.relation_id rm =? id)
             && (relation_member.version rm <=? version))
      then
        let here :=
          if (relation_member.relation_id rm =? id)
             && (relation_member.version rm =? version)
          then begin "member"
               ++ attribute B "type" (member_type_name (relation_member.member_type rm))
               ++ attribute_int "ref" (relation_member.member_id rm)
               ++ attribute B "role" (relation_member.member_role rm)
               ++ end_
          else [] in
        let '(out, itr) := write_members id version next in
        (here ++ out, itr)
      else ([], rm_itr)
  end.

(** The tag loop of [xml_writer::changesets] (tags without a version). *)
Fixpoint write_changeset_tags (id : Z) (tag_itr : list current_tag.t)
  : list xml_call * list current_tag.t :=
  match tag_itr with
  | [] => ([], [])
  | t :: next =>
      if current_tag.element_id t <=? id then
        let here :=
          if current_tag.element_id t =? id
          then add_tag B (current_tag.key t) (current_tag.value t) else [] in
        let '(out, itr) := write_changeset_tags id next in
        (here ++ out, itr)
      else ([], tag_itr)
  end.

(** The lookahead of [xml_writer::changesets]: from [comment_count_itr] and
    the count so far to the final count and iterator. *)
Fixpoint count_comments (id : Z) (comment_count : Z)
         (comment_count_itr : list changeset_comment.t)
  : Z * list changeset_comment.t :=
  match comment_count_itr with
  | [] => (comment_count, [])
  | c :: next =>
      if changeset_comment.changeset_id c <=? id then
        count_comments id
          (if (changeset_comment.changeset_id c =? id)
              && changeset_comment.visible c
           then comment_count + 1 else comment_count)
          next
      else (comment_count, comment_count_itr)
  end.

End Cursors.

(* ===================================================================== *)
(** * The writer and its passes *)
(* ===================================================================== *)

(** The members of [xml_writer] and of its [pimpl], the calls made on the
    [xmlTextWriter] so far and the lines written to [std::cerr]. *)
Record xml_writer := {
  m_now : pt.ptime;
  m_has_history : bool;
  m_users : user_map_t;
  m_changeset_discussions : changeset_discussions.t;
  m_user_info_level : user_info_level.t;
  m_generator_name : string;
  m_changesets : changeset_map_t;
  written : list xml_call;
  cerr : list string }.

Definition emit (w : xml_writer) (calls : list xml_call) (diag : list string)
           (cm : changeset_map_t) : xml_writer :=
  {| m_now := m_now w; m_has_history := m_has_history w;
     m_users := m_users w;
     m_changeset_discussions := m_changeset_discussions w;
     m_user_info_level := m_user_info_level w;
     m_generator_name := m_generator_name w;
     m_changesets := cm;
     written := written w ++ calls;
     cerr := cerr w ++ diag |}.

Section Passes.

Variable B : build.

(** The constructor: the root element and the [bound] element. *)
Definition xml_writer_new (generator : string) (users : user_map_t)
           (max_time : pt.ptime) (uil : user_info_level.t)
           (hv : historical_versions.t) (cd : changeset_discussions.t)
  : xml_writer :=
  {| m_now := max_time;
     m_has_history := historical_versions.eqb hv historical_versions.FULL;
     m_users := users;
     m_changeset_discussions := cd;
     m_user_info_level := uil;
     m_generator_name := generator;
     m_changesets := ∅;
     written :=
       begin "osm"
       ++ attribute B "license" (OSM_LICENSE_TEXT B)
       ++ attribute B "copyright" (OSM_COPYRIGHT_TEXT B)
       ++ attribute B "version" (OSM_VERSION_TEXT B)
       ++ attribute B "generator" generator
       ++ attribute B "attribution" (OSM_ATTRIBUTION_TEXT B)
       ++ attribute_time "timestamp" max_time
       ++ begin "bound"
       ++ attribute B "box" "-90,-180,90,180"
       ++ attribute B "origin" (OSM_API_ORIGIN B)
       ++ end_;
     cerr := [] |}.

(** [write_common_attributes]. *)
Definition write_common_attributes {T} `{Versioned T} (t : T)
           (has_history : bool) (changesets : changeset_map_t)
           (users : user_map_t) (uil : user_info_level.t) : list xml_call :=
  attribute_time "timestamp" (v_timestamp t)
  ++ attribute_int "version" (v_version t)
  ++ attribute_int "changeset" (v_changeset_id t)
  ++ (if has_history then attribute_bool "visible" (v_visible t) else [])
  ++ (let cs_itr :=
        if user_info_level.eqb uil user_info_level.FULL
        then changesets !! v_changeset_id t else None in
      match cs_itr with
      | Some author =>
          match users !! author with
          | Some name => attribute B "user" name ++ attribute_int "uid" author
          | None => []
          end
      | None => []
      end).

(** The diagnostic for a comment whose author is not in the user table. *)
Definition comment_diagnostic (c : changeset_comment.t) : string :=
  "User " +s+ Str.fmt_int (changeset_comment.author_id c) +s+ " with "
  +s+ "data_public=false made a comment on changeset "
  +s+ Str.fmt_int (changeset_comment.changeset_id c) +s+ "? Ignoring."
  +s+ String (ascii_of_nat 10) EmptyString.

(** The body of the discussion loop for one comment. *)
Definition write_comment (users : user_map_t) (uil : user_info_level.t)
           (id : Z) (c : changeset_comment.t) : list xml_call * list string :=
  if (changeset_comment.changeset_id c =? id) && changeset_comment.visible c
  then
    match users !! changeset_comment.author_id c with
    | None => ([], [comment_diagnostic c])
    | Some name => (add_comment B c name uil, [])
    end
  else ([], []).

(** [for (; comment_itr != comment_count_itr; ++comment_itr)]: two
    iterators into one vector are equal when they are at one position. *)
Fixpoint write_comments (users : user_map_t) (uil : user_info_level.t)
         (id : Z) (comment_itr comment_count_itr : list changeset_comment.t)
  : list xml_call * list string * list changeset_comment.t :=
  match comment_itr with
  | [] => ([], [], [])
  | c :: next =>
      if (length comment_itr =? length comment_count_itr)%nat
      then ([], [], comment_itr)
      else
        let '(here, diag) := write_comment users uil id c in
        let '(out, err, itr) :=
          write_comments users uil id next comment_count_itr in
        (here ++ out, diag ++ err, itr)
  end.

(** What one iteration of the loop of [changesets] hands on. *)
Record changeset_iteration := {
  cs_calls : list xml_call;
  cs_diag : list string;
  cs_map : changeset_map_t;
  cs_tag_itr : list current_tag.t;
  cs_comment_itr : list changeset_comment.t }.

(** The first statements of the body of the loop of
    [xml_writer::changesets]: the element is opened and its attributes up
    to [num_changes] are written. *)
Definition changeset_attributes (now : pt.ptime) (users : user_map_t)
           (uil : user_info_level.t) (cs : changeset.t) : list xml_call :=
  let open := pt.gt (changeset.closed_at cs) now in
  let user_itr :=
    if user_info_level.eqb uil user_info_level.FULL
    then users !! changeset.uid cs else None in
  begin "changeset"
  ++ attribute_int "id" (changeset.id cs)
  ++ attribute_time "created_at" (changeset.created_at cs)
  ++ (if negb open
      then attribute_time "closed_at" (changeset.closed_at cs) else [])
  ++ attribute_bool "open" open
  ++ match user_itr with
     | Some name =>
         attribute B "user" name ++ attribute_int "uid" (changeset.uid cs)
     | None => []
     end
  ++ match changeset.min_lat cs, changeset.max_lat cs,
           changeset.min_lon cs, changeset.max_lon cs with
     | Some min_lat, Some max_lat, Some min_lon, Some max_lon =>
         attribute_double "min_lat" (scaled min_lat)
         ++ attribute_double "min_lon" (scaled min_lon)
         ++ attribute_double "max_lat" (scaled max_lat)
         ++ attribute_double "max_lon" (scaled max_lon)
     | _, _, _, _ => []
     end
  ++ attribute_int "num_changes" (changeset.num_changes cs).

(** The body of the loop of [xml_writer::changesets]. *)
Definition changeset_body (w : xml_writer) (cs : changeset.t)
           (tag_itr : list current_tag.t)
           (comment_itr : list changeset_comment.t) : changeset_iteration :=
  let user_itr :=
    if user_info_level.eqb (m_user_info_level w) user_info_level.FULL
    then m_users w !! changeset.uid cs else None in
  let '(count, comment_count_itr) :=
    count_comments (changeset.id cs) 0 comment_itr in
  let '(tags, tag_itr') := write_changeset_tags B (changeset.id cs) tag_itr in
  let '(discussion, diag, comment_itr') :=
    if (count >? 0)
       && changeset_discussions.eqb (m_changeset_discussions w)
                                    changeset_discussions.FULL
    then
      let '(out, err, itr) :=
        write_comments (m_users w) (m_user_info_level w) (changeset.id cs)
                       comment_itr comment_count_itr in
      (start_discussion ++ out ++ end_discussion, err, itr)
    else ([], [], comment_count_itr) in
  {| cs_calls :=
       changeset_attributes (m_now w) (m_users w) (m_user_info_level w) cs
       ++ attribute_int "comments_count" count
       ++ tags
       ++ discussion
       ++ end_;
     cs_diag := diag;
     cs_map :=
       match user_itr with
       | Some _ => map_insert (changeset.id cs) (changeset.uid cs) (m_changesets w)
       | None => m_changesets w
       end;
     cs_tag_itr := tag_itr';
     cs_comment_itr := comment_itr' |}.

Fixpoint changesets_loop (w : xml_writer) (css : list changeset.t)
         (tag_itr : list current_tag.t)
         (comment_itr : list changeset_comment.t) : xml_writer :=
  match css with
  | [] => w
  | cs :: rest =>
      let it := changeset_body w cs tag_itr comment_itr in
      changesets_loop (emit w (cs_calls it) (cs_diag it) (cs_map it)) rest
                      (cs_tag_itr it) (cs_comment_itr it)
  end.

(** [xml_writer::changesets]. *)
Definition changesets (w : xml_writer) (css : list changeset.t)
           (ts : list current_tag.t) (ccs : list changeset_comment.t)
  : xml_writer :=
  changesets_loop w css ts ccs.

(** The body of the loop of [xml_writer::nodes]: the calls made for one
    node and the tag iterator afterwards. *)
Definition node_body (w : xml_writer) (n : node.t) (tag_itr : list old_tag.t)
  : list xml_call * list old_tag.t :=
  let '(tags, tag_itr') :=
    if node.visible n
    then write_tags B (node.id n) (node.version n) tag_itr
    else ([], tag_itr) in
  (begin "node"
   ++ attribute_int "id" (node.id n)
   ++ (if node.visible n
       then attribute_double "lat" (scaled (node.latitude n))
            ++ attribute_double "lon" (scaled (node.longitude n))
       else [])
   ++ write_common_attributes n (m_has_history w) (m_changesets w)
                              (m_users w) (m_user_info_level w)
   ++ tags
   ++ end_,
   tag_itr').

Fixpoint nodes_loop (w : xml_writer) (ns : list node.t)
         (tag_itr : list old_tag.t) : xml_writer :=
  match ns with
  | [] => w
  | n :: rest =>
      let '(calls, tag_itr') := node_body w n tag_itr in
      nodes_loop (emit w calls [] (m_changesets w)) rest tag_itr'
  end.

(** [xml_writer::nodes]. *)
Definition nodes (w : xml_writer) (ns : list node.t) (ts : list old_tag.t)
  : xml_writer :=
  nodes_loop w ns ts.

(** The body of the loop of [xml_writer::ways]. *)
Definition way_body (w : xml_writer) (x : way.t)
           (nd_itr : list way_node.t) (tag_itr : list old_tag.t)
  : list xml_call * list way_node.t * list old_tag.t :=
  let '(children, nd_itr', tag_itr') :=
    if way.visible x
    then
      let '(nds, nd_itr') := write_nds (way.id x) (way.version x) nd_itr in
      let '(tags, tag_itr') := write_tags B (way.id x) (way.version x) tag_itr in
      (nds ++ tags, nd_itr', tag_itr')
    else ([], nd_itr, tag_itr) in
  (begin "way"
   ++ attribute_int "id" (way.id x)
   ++ write_common_attributes x (m_has_history w) (m_changesets w)
                              (m_users w) (m_user_info_level w)
   ++ children
   ++ end_,
   nd_itr', tag_itr').

Fixpoint ways_loop (w : xml_writer) (ws : list way.t)
         (nd_itr : list way_node.t) (tag_itr : list old_tag.t) : xml_writer :=
  match ws with
  | [] => w
  | x :: rest =>
      let '(calls, nd_itr', tag_itr') := way_body w x nd_itr tag_itr in
      ways_loop (emit w calls [] (m_changesets w)) rest nd_itr' tag_itr'
  end.

(** [xml_writer::ways]. *)
Definition ways (w : xml_writer) (ws : list way.t) (wns : list way_node.t)
           (ts : list old_tag.t) : xml_writer :=
  ways_loop w ws wns ts.

(** The body of the loop of [xml_writer::relations]. *)
Definition relation_body (w : xml_writer) (r : relation.t)
           (rm_itr : list relation_member.t) (tag_itr : list old_tag.t)
  : list xml_call * list relation_member.t * list old_tag.t :=
  let '(children, rm_itr', tag_itr') :=
    if relation.visible r
    then
      let '(members, rm_itr') :=
        write_members B (relation.id r) (relation.version r) rm_itr in
      let '(tags, tag_itr') :=
        write_tags B (relation.id r) (relation.version r) tag_itr in
      (members ++ tags, rm_itr', tag_itr')
    else ([], rm_itr, tag_itr) in
  (begin "relation"
   ++ attribute_int "id" (relation.id r)
   ++ write_common_attributes r (m_has_history w) (m_changesets w)
                              (m_users w) (m_user_info_level w)
   ++ children
   ++ end_,
   rm_itr', tag_itr').

Fixpoint relations_loop (w : xml_writer) (rs : list relation.t)
         (rm_itr : list relation_member.t) (tag_itr : list old_tag.t)
  : xml_writer :=
  match rs with
  | [] => w
  | r :: rest =>
      let '(calls, rm_itr', tag_itr') := relation_body w r rm_itr tag_itr in
      relations_loop (emit w calls [] (m_changesets w)) rest rm_itr' tag_itr'
  end.

(** [xml_writer::relations]. *)
Definition relations (w : xml_writer) (rs : list relation.t)
           (rms : list relation_member.t) (ts : list old_tag.t) : xml_writer :=
  relations_loop w rs rms ts.

(** [xml_writer::finish]: the root element is closed. *)
Definition finish (w : xml_writer) : xml_writer :=
  emit w end_ [] (m_changesets w).

(** A call of one of the four passes with its arguments. *)
Inductive pass :=
| Changesets (css : list changeset.t) (ts : list current_tag.t)
             (ccs : list changeset_comment.t)
| Nodes (ns : list node.t) (ts : list old_tag.t)
| Ways (ws : list way.t) (wns : list way_node.t) (ts : list old_tag.t)
| Relations (rs : list relation.t) (rms : list relation_member.t)
            (ts : list old_tag.t).

Definition run_pass (w : xml_writer) (p : pass) : xml_writer :=
  match p with
  | Changesets css ts ccs => changesets w css ts ccs
  | Nodes ns ts => nodes w ns ts
  | Ways ws wns ts => ways w ws wns ts
  | Relations rs rms ts => relations w rs rms ts
  end.

(** The passes the driver calls on a writer, in order. *)
Definition run (w : xml_writer) (ps : list pass) : xml_writer :=
  fold_left run_pass ps w.

(** A whole document: construction, passes, [finish]. *)
Definition document (generator : string) (users : user_map_t)
           (max_time : pt.ptime) (uil : user_info_level.t)
           (hv : historical_versions.t) (cd : changeset_discussions.t)
           (ps : list pass) : list xml_call :=
  written (finish (run (xml_writer_new generator users max_time uil hv cd) ps)).

End Passes.

(* ===================================================================== *)
(** * Structural validity of a trace *)
(* ===================================================================== *)

(** Library model of the nesting discipline of the [xmlTextWriter]: open
    elements form a stack; an attribute is accepted only while the start
    tag of the innermost element is still open; closing needs an open
    element.  A rejected call makes the writer throw. *)
Inductive element_state := InStartTag | InContent.

Definition writer_step (st : list element_state) (c : xml_call)
  : option (list element_state) :=
  match c with
  | StartElement _ =>
      Some (InStartTag :: match st with [] => [] | _ :: up => InContent :: up end)
  | WriteAttribute _ _ =>
      match st with InStartTag :: _ => Some st | _ => None end
  | WriteString _ =>
      Some (match st with [] => [] | _ :: up => InContent :: up end)
  | EndElement =>
      match st with [] => None | _ :: up => Some up end
  end.

Fixpoint writer_run (st : list element_state) (calls : list xml_call)
  : option (list element_state) :=
  match calls with
  | [] => Some st
  | c :: rest =>
      match writer_step st c with
      | Some st' => writer_run st' rest
      | None => None
      end
  end.

(** The calls are those a pass makes when none of them throws; a trace
    that [writer_run] rejects is one on which the writer throws at the
    first rejected call. *)

(* ===================================================================== *)
(** * Reading a trace *)
(* ===================================================================== *)

(** The values written for attribute [name], in order. *)
Definition attribute_values (name : string) (calls : list xml_call)
  : list string :=
  flat_map (fun c =>
              match c with
              | WriteAttribute n v => if String.eqb n name then [v] else []
              | _ => []
              end) calls.

(** The names of the elements opened in a trace, in order. *)
Definition started (calls : list xml_call) : list string :=
  flat_map (fun c => match c with StartElement n => [n] | _ => [] end) calls.

(** How many elements called [name] are opened. *)
Definition count_elements (name : string) (calls : list xml_call) : nat :=
  length (List.filter (String.eqb name) (started calls)).

(** The text nodes written, in order. *)
Definition text_nodes (calls : list xml_call) : list string :=
  flat_map (fun c => match c with WriteString s => [s] | _ => [] end) calls.

(** The rows an iterator has passed when it moved from [before] to
    [after]. *)
Definition consumed {A} (before after : list A) : list A :=
  take (length before - length after) before.

(* ===================================================================== *)
(** * Sanitization *)
(* ===================================================================== *)

(** A control byte below 0x20 other than tab, line feed, carriage return. *)
Definition replaced_control (a : ascii) : bool :=
  let n := N_of_ascii a in
  ((n <? 32) && negb (n =? 9) && negb (n =? 10) && negb (n =? 13))%N.

Definition sanitize_byte (a : ascii) : ascii :=
  if replaced_control a then "?"%char else a.

Lemma char_test_replaced_control (signed : bool) (a : ascii) :
  ((char_value signed a >=? 0) && (char_value signed a <? 32)
   && negb (char_value signed a =? 9) && negb (char_value signed a =? 10)
   && negb (char_value signed a =? 13)) = replaced_control a.
Proof.
  destruct signed;
    destruct a as [[] [] [] [] [] [] [] []]; vm_compute; reflexivity.
Qed.

Lemma replace_at_prefix (signed : bool) (s : list ascii) (k n : nat) :
  length s = (k + S n)%nat ->
  replace_at signed s (map sanitize_byte (take k s) ++ repeat Str.NUL (S n)) k
  = map sanitize_byte (take (S k) s) ++ repeat Str.NUL n.
Proof.
  intros Hlen. unfold replace_at.
  rewrite char_test_replaced_control.
  fold (sanitize_byte (nth k s Str.NUL)).
  assert (Hk : (k < length s)%nat) by lia.
  destruct (lookup_lt_is_Some_2 s k Hk) as [a Ha].
  rewrite (take_S_r s k a Ha), map_app. simpl map.
  rewrite (nth_lookup_Some s k Str.NUL a Ha).
  rewrite insert_app_r_alt; rewrite length_map, length_take; [|lia].
  replace (k - k `min` length s)%nat with 0%nat by lia.
  simpl. rewrite <- app_assoc. reflexivity.
Qed.

Lemma replace_loop (signed : bool) (s : list ascii) (n k : nat) :
  length s = (k + n)%nat ->
  fold_left (replace_at signed s) (seq k n)
            (map sanitize_byte (take k s) ++ repeat Str.NUL n)
  = map sanitize_byte s.
Proof.
  revert k. induction n as [|n IH]; intros k Hlen.
  - simpl. rewrite app_nil_r, take_ge by lia. reflexivity.
  - cbn [seq fold_left]. rewrite replace_at_prefix by exact Hlen.
    apply IH. lia.
Qed.

Lemma replace_xml_bad_chars_bytes_map (signed : bool) (s : list ascii) :
  replace_xml_bad_chars_bytes signed s = map sanitize_byte s.
Proof.
  unfold replace_xml_bad_chars_bytes.
  apply (replace_loop signed s (length s) 0). reflexivity.
Qed.

Lemma length_of_list (l : list ascii) : String.length (Str.of_list l) = length l.
Proof. induction l as [|a l IH]; simpl; [reflexivity | now rewrite IH]. Qed.

Lemma length_to_list (s : string) : length (Str.to_list s) = String.length s.
Proof. induction s as [|a s IH]; simpl; [reflexivity | now rewrite IH]. Qed.

Lemma to_list_of_list (l : list ascii) : Str.to_list (Str.of_list l) = l.
Proof. apply list_ascii_of_string_of_list_ascii. Qed.

(** C5: [replace_xml_bad_chars] keeps the length of its input and maps it
    byte by byte: a control byte below 0x20 other than 0x09, 0x0a and 0x0d
    becomes ['?'], every other byte (0x80 and above included) is kept,
    whatever the signedness of [char]. *)
Theorem C5_sanitize_bytewise (signed : bool) (s : string) :
  String.length (replace_xml_bad_chars signed s) = String.length s
  /\ Str.to_list (replace_xml_bad_chars signed s)
     = map (fun a => if replaced_control a then "?"%char else a) (Str.to_list s)
  /\ (forall a : ascii,
        replaced_control a = true
        <-> (N_of_ascii a < 32 /\ N_of_ascii a <> 9 /\ N_of_ascii a <> 10
             /\ N_of_ascii a <> 13)%N).
Proof.
  unfold replace_xml_bad_chars.
  rewrite replace_xml_bad_chars_bytes_map.
  split; [|split].
  - rewrite length_of_list, length_map. apply length_to_list.
  - apply to_list_of_list.
  - intros a. unfold replaced_control. cbv zeta.
    rewrite !andb_true_iff, !negb_true_iff, N.ltb_lt, !N.eqb_neq. tauto.
Qed.

(* ===================================================================== *)
(** * Timestamps *)
(* ===================================================================== *)

(** The twenty characters [YYYY-mm-ddTHH:MM:SSZ] of a proper time. *)
Definition iso_chars (ymd : pt.greg_year_month_day) (tod : pt.time_duration)
  : list ascii :=
  let z := "0"%char in
  [ Str.char_plus z ((pt.year ymd / 1000) mod 10);
    Str.char_plus z ((pt.year ymd / 100) mod 10);
    Str.char_plus z ((pt.year ymd / 10) mod 10);
    Str.char_plus z (pt.year ymd mod 10);
    "-"%char;
    (if pt.month ymd >=? 10 then "1" else "0")%char;
    Str.char_plus z (pt.month ymd mod 10);
    "-"%char;
    Str.char_plus z ((pt.day ymd / 10) mod 10);
    Str.char_plus z (pt.day ymd mod 10);
    "T"%char;
    Str.char_plus z ((pt.hours tod / 10) mod 10);
    Str.char_plus z (pt.hours tod mod 10);
    ":"%char;
    Str.char_plus z ((pt.minutes tod / 10) mod 10);
    Str.char_plus z (pt.minutes tod mod 10);
    ":"%char;
    Str.char_plus z ((pt.seconds tod / 10) mod 10);
    Str.char_plus z (pt.seconds tod mod 10);
    "Z"%char ].

Definition t_2023_01_05 : pt.ptime :=
  pt.time {| pt.year := 2023; pt.month := 1; pt.day := 5 |}
          {| pt.hours := 3; pt.minutes := 4; pt.seconds := 5;
             pt.fractional_seconds := 0 |}.

Lemma fmt_iso_time_chars ymd tod :
  fmt_iso_time (pt.time ymd tod) = Str.of_list (iso_chars ymd tod ++ [Str.NUL]).
Proof. reflexivity. Qed.

Lemma digit_char_not_nul (d : Z) :
  Ascii.eqb (Str.char_plus "0" (d mod 10)) Str.NUL = false.
Proof.
  assert (H : 0 <= d mod 10 < 10) by (apply Z.mod_pos_bound; lia).
  assert (E : d mod 10 = 0 \/ d mod 10 = 1 \/ d mod 10 = 2 \/ d mod 10 = 3
              \/ d mod 10 = 4 \/ d mod 10 = 5 \/ d mod 10 = 6
              \/ d mod 10 = 7 \/ d mod 10 = 8 \/ d mod 10 = 9) by lia.
  repeat (destruct E as [E|E]; [rewrite E; reflexivity|]).
  rewrite E; reflexivity.
Qed.

Lemma digit_char_is_digit (d : Z) :
  Str.is_digit (Str.char_plus "0" (d mod 10)) = true.
Proof.
  assert (H : 0 <= d mod 10 < 10) by (apply Z.mod_pos_bound; lia).
  assert (E : d mod 10 = 0 \/ d mod 10 = 1 \/ d mod 10 = 2 \/ d mod 10 = 3
              \/ d mod 10 = 4 \/ d mod 10 = 5 \/ d mod 10 = 6
              \/ d mod 10 = 7 \/ d mod 10 = 8 \/ d mod 10 = 9) by lia.
  repeat (destruct E as [E|E]; [rewrite E; reflexivity|]).
  rewrite E; reflexivity.
Qed.

Lemma c_str_stops_at_nul (l : list ascii) :
  forallb (fun a => negb (Ascii.eqb a Str.NUL)) l = true ->
  Str.c_str (Str.of_list (l ++ [Str.NUL])) = Str.of_list l.
Proof.
  induction l as [|a l IH]; simpl; intros H.
  - reflexivity.
  - apply andb_true_iff in H as [Ha Hl].
    apply negb_true_iff in Ha. rewrite Ha, (IH Hl). reflexivity.
Qed.

(** What reaches the document for a timestamp attribute: the C string of
    the result, which is the twenty characters without the NUL. *)
Lemma c_str_fmt_iso_time ymd tod :
  Str.c_str (fmt_iso_time (pt.time ymd tod)) = Str.of_list (iso_chars ymd tod)
  /\ String.length (Str.c_str (fmt_iso_time (pt.time ymd tod))) = 20%nat.
Proof.
  rewrite fmt_iso_time_chars, c_str_stops_at_nul.
  - split; reflexivity.
  - unfold iso_chars. cbn [forallb].
    rewrite !digit_char_not_nul. destruct (pt.month ymd >=? 10); reflexivity.
Qed.

(** C4: evaluating [fmt_iso_time] at 2023-01-05T03:04:05.  The result has
    21 bytes, the twenty of [2023-01-05T03:04:05Z] followed by a NUL byte,
    so it is not the 20-character string; every proper time gives 21
    bytes, and a special (unset) time gives the empty string. *)
Theorem C4_fmt_iso_time_has_trailing_nul :
  fmt_iso_time t_2023_01_05
  = "2023-01-05T03:04:05Z" +s+ String Str.NUL EmptyString
  /\ String.length (fmt_iso_time t_2023_01_05) = 21%nat
  /\ fmt_iso_time t_2023_01_05 <> "2023-01-05T03:04:05Z"
  /\ (forall ymd tod,
         String.length (fmt_iso_time (pt.time ymd tod)) = 21%nat
         /\ String.get 20 (fmt_iso_time (pt.time ymd tod)) = Some Str.NUL)
  /\ (forall sv, fmt_iso_time (pt.special sv) = "").
Proof.
  split; [reflexivity|]. split; [reflexivity|].
  split; [intros H; discriminate H|].
  split; [intros ymd tod; split; reflexivity | reflexivity].
Qed.

(* ===================================================================== *)
(** * Attribute names of the generated calls *)
(* ===================================================================== *)

(** Every attribute written in [calls] has its name in [allowed]. *)
Definition attr_names_in (allowed : list string) (calls : list xml_call) : bool :=
  forallb (fun c => match c with
                    | WriteAttribute n _ => existsb (String.eqb n) allowed
                    | _ => true
                    end) calls.

Lemma attribute_values_app name a b :
  attribute_values name (a ++ b) = attribute_values name a ++ attribute_values name b.
Proof. apply flat_map_app. Qed.

Lemma attr_names_in_app allowed a b :
  attr_names_in allowed (a ++ b) = attr_names_in allowed a && attr_names_in allowed b.
Proof. apply forallb_app. Qed.

Lemma attribute_values_absent allowed name calls :
  attr_names_in allowed calls = true ->
  existsb (String.eqb name) allowed = false ->
  attribute_values name calls = [].
Proof.
  intros Hin Hname. induction calls as [|c calls IH]; [reflexivity|].
  simpl in Hin. apply andb_true_iff in Hin as [Hc Hrest].
  unfold attribute_values. simpl. fold (attribute_values name calls).
  rewrite (IH Hrest), app_nil_r.
  destruct c as [n|n v|s|]; try reflexivity.
  destruct (String.eqb n name) eqn:E; [|reflexivity].
  apply String.eqb_eq in E. subst n. congruence.
Qed.

Lemma attr_names_in_weaken allowed allowed' calls :
  (forall n, existsb (String.eqb n) allowed = true ->
             existsb (String.eqb n) allowed' = true) ->
  attr_names_in allowed calls = true -> attr_names_in allowed' calls = true.
Proof.
  intros Hsub. unfold attr_names_in. rewrite !forallb_forall.
  intros H c Hc. specialize (H c Hc). destruct c; auto.
Qed.

Section AttributeNames.

Variable B : build.

Lemma write_tags_names id version tag_itr :
  attr_names_in ["k"; "v"] (fst (write_tags B id version tag_itr)) = true.
Proof.
  induction tag_itr as [|t next IH]; [reflexivity|]. simpl.
  destruct (_ || _); [|reflexivity].
  destruct (write_tags B id version next) as [out itr]. simpl in *.
  rewrite attr_names_in_app, IH, andb_true_r.
  destruct (_ && _); reflexivity.
Qed.

Lemma write_changeset_tags_names id tag_itr :
  attr_names_in ["k"; "v"] (fst (write_changeset_tags B id tag_itr)) = true.
Proof.
  induction tag_itr as [|t next IH]; [reflexivity|]. simpl.
  destruct (_ <=? _); [|reflexivity].
  destruct (write_changeset_tags B id next) as [out itr]. simpl in *.
  rewrite attr_names_in_app, IH, andb_true_r.
  destruct (_ =? _); reflexivity.
Qed.

Lemma write_nds_names id version nd_itr :
  attr_names_in ["ref"] (fst (write_nds id version nd_itr)) = true.
Proof.
  induction nd_itr as [|t next IH]; [reflexivity|]. simpl.
  destruct (_ || _); [|reflexivity].
  destruct (write_nds id version next) as [out itr]. simpl in *.
  rewrite attr_names_in_app, IH, andb_true_r.
  destruct (_ && _); reflexivity.
Qed.

Lemma write_members_names id version rm_itr :
  attr_names_in ["type"; "ref"; "role"]
                (fst (write_members B id version rm_itr)) = true.
Proof.
  induction rm_itr as [|t next IH]; [reflexivity|]. simpl.
  destruct (_ || _); [|reflexivity].
  destruct (write_members B id version next) as [out itr]. simpl in *.
  rewrite attr_names_in_app, IH, andb_true_r.
  destruct (_ && _); reflexivity.
Qed.

Lemma add_comment_names c name uil :
  attr_names_in
    (if user_info_level.eqb uil user_info_level.FULL
     then ["uid"; "user"; "date"] else ["date"])
    (add_comment B c name uil) = true.
Proof. destruct uil; reflexivity. Qed.

Lemma write_comments_names users uil id comment_itr comment_count_itr :
  attr_names_in
    (if user_info_level.eqb uil user_info_level.FULL
     then ["uid"; "user"; "date"] else ["date"])
    (fst (fst (write_comments B users uil id comment_itr comment_count_itr)))
  = true.
Proof.
  induction comment_itr as [|c next IH]; [reflexivity|].
  cbn [write_comments].
  destruct (_ =? _)%nat; [reflexivity|].
  destruct (write_comment B users uil id c) as [here diag] eqn:Hc.
  destruct (write_comments B users uil id next comment_count_itr)
    as [[out err] itr].
  cbn [fst] in *. rewrite attr_names_in_app, IH, andb_true_r.
  unfold write_comment in Hc.
  destruct (_ && _); [|inversion Hc; reflexivity].
  destruct (users !! _); inversion Hc; subst; [|reflexivity].
  apply add_comment_names.
Qed.

(** The discussion part of one changeset element. *)
Definition discussion_calls (w : xml_writer) (cs : changeset.t)
           (comment_itr : list changeset_comment.t) : list xml_call :=
  let '(count, comment_count_itr) :=
    count_comments (changeset.id cs) 0 comment_itr in
  if (count >? 0)
     && changeset_discussions.eqb (m_changeset_discussions w)
                                  changeset_discussions.FULL
  then start_discussion
       ++ fst (fst (write_comments B (m_users w) (m_user_info_level w)
                                   (changeset.id cs) comment_itr
                                   comment_count_itr))
       ++ end_discussion
  else [].

Lemma cs_calls_eq w cs tag_itr comment_itr :
  cs_calls (changeset_body B w cs tag_itr comment_itr)
  = changeset_attributes B (m_now w) (m_users w) (m_user_info_level w) cs
    ++ attribute_int "comments_count"
                     (fst (count_comments (changeset.id cs) 0 comment_itr))
    ++ fst (write_changeset_tags B (changeset.id cs) tag_itr)
    ++ discussion_calls w cs comment_itr
    ++ end_.
Proof.
  unfold changeset_body, discussion_calls.
  destruct (count_comments (changeset.id cs) 0 comment_itr) as [count cci].
  destruct (write_changeset_tags B (changeset.id cs) tag_itr) as [tags ti].
  destruct ((count >? 0) && _).
  - destruct (write_comments B (m_users w) (m_user_info_level w)
                             (changeset.id cs) comment_itr cci)
      as [[out err] itr].
    reflexivity.
  - reflexivity.
Qed.

Lemma discussion_calls_names w cs comment_itr :
  attr_names_in ["uid"; "user"; "date"] (discussion_calls w cs comment_itr)
  = true.
Proof.
  unfold discussion_calls.
  destruct (count_comments _ _ _) as [count cci].
  destruct (_ && _); [|reflexivity].
  unfold start_discussion, end_discussion, begin, end_.
  rewrite !attr_names_in_app. cbn [attr_names_in forallb andb].
  rewrite andb_true_r.
  eapply attr_names_in_weaken; [|apply write_comments_names].
  intros n. destruct (user_info_level.eqb _ _); cbn [existsb];
    intros H; rewrite ?orb_false_r in *; rewrite ?H, ?orb_true_r; reflexivity.
Qed.

End AttributeNames.

(* ===================================================================== *)
(** * Open and closed changesets *)
(* ===================================================================== *)

Lemma proper_time_count_bounds ymd tod :
  pt.valid_fields (pt.time ymd tod) ->
  pt.int64_min < pt.time_count (pt.time ymd tod) < pt.int64_max - 1.
Proof.
  destruct ymd as [y m d], tod as [h mi s f].
  unfold pt.valid_fields, pt.time_count, pt.day_number, pt.int64_min,
    pt.int64_max. cbn [pt.year pt.month pt.day pt.hours pt.minutes pt.seconds
                       pt.fractional_seconds].
  intros (Hy & Hm & Hd & Hh & Hmi & Hs & Hf).
  change (2 ^ 63) with 9223372036854775808.
  Z.div_mod_to_equations. lia.
Qed.

Section OpenClosed.

Variable B : build.

Lemma changeset_attributes_open now users uil cs :
  attribute_values "open" (changeset_attributes B now users uil cs)
  = [if pt.gt (changeset.closed_at cs) now then "true" else "false"].
Proof.
  unfold changeset_attributes. rewrite !attribute_values_app.
  destruct (pt.gt _ _), (if user_info_level.eqb uil _ then _ else _),
    (changeset.min_lat cs), (changeset.max_lat cs), (changeset.min_lon cs),
    (changeset.max_lon cs); reflexivity.
Qed.

Lemma changeset_attributes_closed_at now users uil cs :
  attribute_values "closed_at" (changeset_attributes B now users uil cs)
  = if pt.gt (changeset.closed_at cs) now then []
    else [Str.c_str (fmt_iso_time (changeset.closed_at cs))].
Proof.
  unfold changeset_attributes. rewrite !attribute_values_app.
  destruct (pt.gt _ _), (if user_info_level.eqb uil _ then _ else _),
    (changeset.min_lat cs), (changeset.max_lat cs), (changeset.min_lon cs),
    (changeset.max_lon cs); reflexivity.
Qed.

(** An attribute that only the changeset element itself can carry has, in
    the calls of the whole element, the values its own attributes give. *)
Lemma cs_calls_own_attribute name w cs tag_itr comment_itr :
  existsb (String.eqb name) ["comments_count"; "k"; "v"; "uid"; "user"; "date"]
  = false ->
  attribute_values name (cs_calls (changeset_body B w cs tag_itr comment_itr))
  = attribute_values name
      (changeset_attributes B (m_now w) (m_users w) (m_user_info_level w) cs).
Proof.
  intros Hname. cbn [existsb] in Hname. rewrite !orb_false_iff in Hname.
  destruct Hname as (Hcc & Hk & Hv & Huid & Huser & Hdate & _).
  rewrite cs_calls_eq, !attribute_values_app.
  rewrite (attribute_values_absent ["k"; "v"] name
             (fst (write_changeset_tags _ _ _)));
    [|apply write_changeset_tags_names
     |cbn [existsb]; rewrite Hk, Hv; reflexivity].
  rewrite (attribute_values_absent ["uid"; "user"; "date"] name
             (discussion_calls _ _ _ _));
    [|apply discussion_calls_names
     |cbn [existsb]; rewrite Huid, Huser, Hdate; reflexivity].
  unfold attribute_int, end_.
  change (attribute_values name [WriteAttribute "comments_count" ?v])
    with ((if String.eqb "comments_count" name then [v] else []) ++ []).
  rewrite (String.eqb_sym "comments_count" name), Hcc.
  change (attribute_values name [EndElement]) with (@nil string).
  rewrite !app_nil_r. reflexivity.
Qed.

(** C3: with a proper snapshot time, the changeset element carries
    [open="true"] and no [closed_at] exactly when [closed_at] is unset
    (not-a-date-time) or strictly later than the snapshot time; when
    [closed_at] is set and at or before the snapshot time it carries
    [open="false"] and [closed_at] with the formatted value. *)
Theorem C3_open_iff_unset_or_later
        (w : xml_writer) (cs : changeset.t)
        (tag_itr : list current_tag.t)
        (comment_itr : list changeset_comment.t) :
  pt.is_special (m_now w) = false ->
  pt.valid_fields (m_now w) ->
  let calls := cs_calls (changeset_body B w cs tag_itr comment_itr) in
  let closed := changeset.closed_at cs in
  let unset_or_later :=
    closed = pt.special pt.not_a_date_time
    \/ pt.time_count (m_now w) < pt.time_count closed in
  ((attribute_values "open" calls = ["true"]
    /\ attribute_values "closed_at" calls = []) <-> unset_or_later)
  /\ (~ unset_or_later ->
      attribute_values "open" calls = ["false"]
      /\ attribute_values "closed_at" calls = [Str.c_str (fmt_iso_time closed)]).
Proof.
  intros Hproper Hvalid calls closed unset_or_later.
  subst calls.
  rewrite !cs_calls_own_attribute by reflexivity.
  rewrite changeset_attributes_open, changeset_attributes_closed_at.
  fold closed.
  assert (Hgt : pt.gt closed (m_now w) = true <-> unset_or_later).
  { unfold pt.gt, pt.lt, unset_or_later. rewrite Z.ltb_lt.
    split; [tauto|]. intros [Hu|Hl]; [|exact Hl].
    rewrite Hu. destruct (m_now w) as [sv|ymd tod]; [discriminate|].
    apply proper_time_count_bounds in Hvalid.
    change (pt.time_count (pt.special pt.not_a_date_time))
      with (pt.int64_max - 1).
    lia. }
  destruct (pt.gt closed (m_now w)).
  - split; [|intros Hn; exfalso; apply Hn, Hgt; reflexivity].
    split; [intros _; apply Hgt; reflexivity | intros _; split; reflexivity].
  - split; [|intros _; split; reflexivity].
    split; [intros [H _]; discriminate H|].
    intros H. apply Hgt in H. discriminate H.
Qed.

End OpenClosed.

(* ===================================================================== *)
(** * The merge-join step *)
(* ===================================================================== *)

(** Keys are pairs (parent id, version), ordered lexicographically. *)
Definition key_leb (a b : Z * Z) : bool :=
  (a.1 <? b.1) || ((a.1 =? b.1) && (a.2 <=? b.2)).

Definition key_eqb (a b : Z * Z) : bool := (a.1 =? b.1) && (a.2 =? b.2).

Definition key_ltb (a b : Z * Z) : bool := key_leb a b && negb (key_eqb a b).

Lemma key_leb_trans a b c :
  key_leb a b = true -> key_leb b c = true -> key_leb a c = true.
Proof.
  unfold key_leb. destruct a as [a1 a2], b as [b1 b2], c as [c1 c2]. simpl.
  rewrite !orb_true_iff, !andb_true_iff, !Z.ltb_lt, !Z.eqb_eq, !Z.leb_le. lia.
Qed.

Lemma key_eqb_leb a b : key_eqb a b = true -> key_leb a b = true.
Proof.
  unfold key_eqb, key_leb. destruct a as [a1 a2], b as [b1 b2]. simpl.
  rewrite !orb_true_iff, !andb_true_iff, !Z.ltb_lt, !Z.eqb_eq, !Z.leb_le. lia.
Qed.

Lemma key_leb_false_trans a b c :
  key_leb a c = false -> key_leb a b = true -> key_leb b c = false.
Proof.
  intros Hac Hab. destruct (key_leb b c) eqn:Hbc; [|reflexivity].
  rewrite (key_leb_trans a b c Hab Hbc) in Hac. discriminate.
Qed.

Section MergeJoin.

Context {A : Type}.
Variable key : A -> Z * Z.
Variable child : A -> list xml_call.

(** The loop of [write_tags], which the way-node and member loops repeat,
    over any row type with a key and a child element. *)
Fixpoint advance_to (id version : Z) (itr : list A) : list xml_call * list A :=
  match itr with
  | [] => ([], [])
  | r :: next =>
      if ((key r).1 <? id) || (((key r).1 =? id) && ((key r).2 <=? version))
      then
        let here :=
          if ((key r).1 =? id) && ((key r).2 =? version) then child r else [] in
        let '(out, itr') := advance_to id version next in
        (here ++ out, itr')
      else ([], itr)
  end.

(** Rows in the sort order of the sequence. *)
Definition sorted_rows (rows : list A) : Prop :=
  StronglySorted (fun a b => key_leb (key a) (key b) = true) rows.

Lemma advance_to_suffix id version itr :
  itr = consumed itr (snd (advance_to id version itr))
        ++ snd (advance_to id version itr)
  /\ (length (snd (advance_to id version itr)) <= length itr)%nat.
Proof.
  unfold consumed. induction itr as [|r next [IH1 IH2]]; [split; reflexivity|].
  cbn [advance_to]. destruct (_ || _).
  - destruct (advance_to id version next) as [out itr']. cbn [snd] in *.
    cbn [length]. split; [|lia].
    replace (S (length next) - length itr')%nat
      with (S (length next - length itr')) by lia.
    cbn [take]. rewrite <- app_comm_cons, <- IH1. reflexivity.
  - cbn [snd]. split; [|lia]. rewrite Nat.sub_diag. reflexivity.
Qed.

Lemma advance_to_consumed_le id version itr :
  forallb (fun r => key_leb (key r) (id, version))
          (consumed itr (snd (advance_to id version itr))) = true.
Proof.
  unfold consumed. induction itr as [|r next IH]; [reflexivity|].
  cbn [advance_to]. destruct (_ || _) eqn:Hle.
  - pose proof (advance_to_suffix id version next) as [_ Hlen].
    destruct (advance_to id version next) as [out itr']. cbn [snd] in *.
    cbn [length].
    replace (S (length next) - length itr')%nat
      with (S (length next - length itr')) by lia.
    cbn [take forallb]. rewrite IH, andb_true_r. exact Hle.
  - cbn [snd]. rewrite Nat.sub_diag. reflexivity.
Qed.

Lemma filter_none_above id version rows :
  Forall (fun r => key_leb (key r) (id, version) = false) rows ->
  List.filter (fun r => key_leb (key r) (id, version)) rows = []
  /\ List.filter (fun r => key_eqb (key r) (id, version)) rows = [].
Proof.
  induction 1 as [|r rows Hr _ [IH1 IH2]]; [split; reflexivity|].
  cbn [List.filter]. rewrite Hr, IH1, IH2.
  destruct (key_eqb (key r) (id, version)) eqn:E; [|split; reflexivity].
  apply key_eqb_leb in E. congruence.
Qed.

(** On sorted rows the step consumes the rows with a key up to the
    parent's and emits those with the parent's key. *)
Lemma advance_to_sorted id version itr :
  sorted_rows itr ->
  consumed itr (snd (advance_to id version itr))
  = List.filter (fun r => key_leb (key r) (id, version)) itr
  /\ fst (advance_to id version itr)
     = flat_map child (List.filter (fun r => key_eqb (key r) (id, version)) itr)
  /\ snd (advance_to id version itr)
     = List.filter (fun r => negb (key_leb (key r) (id, version))) itr.
Proof.
  unfold consumed.
  induction 1 as [|r next Hnext IH Hr]; [repeat split; reflexivity|].
  destruct IH as (IH1 & IH2 & IH3).
  cbn [advance_to List.filter].
  change (((key r).1 <? id) || (((key r).1 =? id) && ((key r).2 <=? version)))
    with (key_leb (key r) (id, version)).
  change (((key r).1 =? id) && ((key r).2 =? version))
    with (key_eqb (key r) (id, version)).
  destruct (key_leb (key r) (id, version)) eqn:Hle.
  - pose proof (advance_to_suffix id version next) as [_ Hlen].
    destruct (advance_to id version next) as [out itr']. cbn [fst snd] in *.
    cbn [length negb].
    replace (S (length next) - length itr')%nat
      with (S (length next - length itr')) by lia.
    cbn [take]. rewrite IH1, IH2, IH3.
    destruct (key_eqb (key r) (id, version)); repeat split; reflexivity.
  - cbn [fst snd negb]. rewrite Nat.sub_diag. cbn [take].
    assert (Habove : Forall (fun r' => key_leb (key r') (id, version) = false)
                            next).
    { eapply Forall_impl; [exact Hr|]. cbn beta. intros r' Hrr'.
      eapply key_leb_false_trans; eassumption. }
    destruct (filter_none_above id version next Habove) as [F1 F2].
    rewrite F1, F2.
    destruct (key_eqb (key r) (id, version)) eqn:E;
      [apply key_eqb_leb in E; congruence|].
    repeat split; try reflexivity.
    f_equal. clear -Habove. induction Habove as [|r' rows Hr' _ IH];
      [reflexivity|].
    cbn [List.filter]. rewrite Hr'. cbn [negb]. f_equal. exact IH.
Qed.

(** Successive steps of one pass: the result of each call, the iterator
    being handed from one call to the next. *)
Fixpoint advance_pass (parents : list (Z * Z)) (itr : list A)
  : list (list xml_call * list A) :=
  match parents with
  | [] => []
  | p :: rest =>
      let r := advance_to p.1 p.2 itr in
      r :: advance_pass rest (snd r)
  end.

(** The rows each call of the pass consumes, call by call. *)
Fixpoint pass_segments (itr : list A) (trace : list (list xml_call * list A))
  : list (list A) :=
  match trace with
  | [] => []
  | r :: rest => consumed itr (snd r) :: pass_segments (snd r) rest
  end.

Lemma advance_pass_partition parents itr :
  itr = concat (pass_segments itr (advance_pass parents itr))
        ++ List.last (map snd (advance_pass parents itr)) itr.
Proof.
  revert itr. induction parents as [|p rest IH]; intros itr; [reflexivity|].
  cbn [advance_pass pass_segments concat map].
  pose proof (advance_to_suffix p.1 p.2 itr) as [Hsplit _].
  set (r := advance_to p.1 p.2 itr) in *.
  rewrite <- app_assoc.
  replace (List.last (snd r :: map snd (advance_pass rest (snd r))) itr)
    with (List.last (map snd (advance_pass rest (snd r))) (snd r)).
  - rewrite <- IH. exact Hsplit.
  - destruct (map snd (advance_pass rest (snd r))) as [|x l]; [reflexivity|].
    cbn [List.last]. clear. revert x. induction l as [|y l IHl]; intros x;
      [reflexivity|]. cbn [List.last] in *. apply IHl.
Qed.

Lemma advance_pass_positions v parents itr :
  (length itr <= length v)%nat ->
  StronglySorted le (position v itr
                     :: map (fun r => position v (snd r))
                            (advance_pass parents itr)).
Proof.
  revert itr. induction parents as [|p rest IH]; intros itr Hv.
  - constructor; constructor.
  - cbn [advance_pass map].
    pose proof (advance_to_suffix p.1 p.2 itr) as [_ Hlen].
    specialize (IH (snd (advance_to p.1 p.2 itr)) ltac:(lia)).
    constructor; [exact IH|].
    inversion IH as [|x l Hs Hall]; subst.
    constructor; [unfold position; lia|].
    eapply Forall_impl; [exact Hall|]. cbn beta. unfold position. intros; lia.
Qed.

End MergeJoin.

(* ===================================================================== *)
(** * The three versioned joins as instances of the merge-join step *)
(* ===================================================================== *)

Definition tag_key (t : old_tag.t) : Z * Z :=
  (old_tag.element_id t, old_tag.version t).

Definition nd_key (nd : way_node.t) : Z * Z :=
  (way_node.way_id nd, way_node.version nd).

Definition member_key (rm : relation_member.t) : Z * Z :=
  (relation_member.relation_id rm, relation_member.version rm).

Section Joins.

Variable B : build.

Definition tag_child (t : old_tag.t) : list xml_call :=
  add_tag B (old_tag.key t) (old_tag.value t).

Definition nd_child (nd : way_node.t) : list xml_call :=
  begin "nd" ++ attribute_int "ref" (way_node.node_id nd) ++ end_.

Definition member_child (rm : relation_member.t) : list xml_call :=
  begin "member"
  ++ attribute B "type" (member_type_name (relation_member.member_type rm))
  ++ attribute_int "ref" (relation_member.member_id rm)
  ++ attribute B "role" (relation_member.member_role rm)
  ++ end_.

Lemma write_tags_advance id version tag_itr :
  write_tags B id version tag_itr
  = advance_to tag_key tag_child id version tag_itr.
Proof.
  induction tag_itr as [|t next IH]; [reflexivity|].
  cbn [write_tags advance_to]. rewrite IH. reflexivity.
Qed.

Lemma write_nds_advance id version nd_itr :
  write_nds id version nd_itr = advance_to nd_key nd_child id version nd_itr.
Proof.
  induction nd_itr as [|t next IH]; [reflexivity|].
  cbn [write_nds advance_to]. rewrite IH. reflexivity.
Qed.

Lemma write_members_advance id version rm_itr :
  write_members B id version rm_itr
  = advance_to member_key member_child id version rm_itr.
Proof.
  induction rm_itr as [|t next IH]; [reflexivity|].
  cbn [write_members advance_to]. rewrite IH. reflexivity.
Qed.

(** The calls of [write_tags] a pass makes for the parents [parents], all
    of them visible, the iterator being shared by the calls. *)
Fixpoint write_tags_pass (parents : list (Z * Z)) (tag_itr : list old_tag.t)
  : list (list xml_call * list old_tag.t) :=
  match parents with
  | [] => []
  | p :: rest =>
      let r := write_tags B p.1 p.2 tag_itr in
      r :: write_tags_pass rest (snd r)
  end.

Lemma write_tags_pass_advance parents tag_itr :
  write_tags_pass parents tag_itr
  = advance_pass tag_key tag_child parents tag_itr.
Proof.
  revert tag_itr. induction parents as [|p rest IH]; intros tag_itr;
    [reflexivity|].
  cbn [write_tags_pass advance_pass]. rewrite IH, write_tags_advance.
  reflexivity.
Qed.

Definition row (id version : Z) (label : string) : old_tag.t :=
  {| old_tag.element_id := id; old_tag.version := version;
     old_tag.key := label; old_tag.value := label |}.

(** C6: on rows sorted by (parent id, version), one call of [write_tags]
    for the parent key consumes exactly the rows whose key is at most the
    parent's, emits exactly those whose key is the parent's and leaves
    the others it passed unemitted; over a pass the position of the
    shared iterator never decreases and the rows consumed by the calls are
    consecutive disjoint segments of the vector; for parents (1,1), (2,1),
    (3,1) and rows (1,1,a), (1,2,b), (3,1,c) the first call emits a, the
    second nothing, the third c. *)
Theorem C6_merge_join_step :
  (forall id version tag_itr,
      sorted_rows tag_key tag_itr ->
      let r := write_tags B id version tag_itr in
      consumed tag_itr (snd r)
      = List.filter (fun t => key_leb (tag_key t) (id, version)) tag_itr
      /\ fst r
         = flat_map tag_child
             (List.filter (fun t => key_eqb (tag_key t) (id, version)) tag_itr)
      /\ tag_itr = consumed tag_itr (snd r) ++ snd r)
  /\ (forall parents ts,
         let trace := write_tags_pass parents ts in
         StronglySorted le (position ts ts
                            :: map (fun r => position ts (snd r)) trace)
         /\ ts = concat (pass_segments ts trace)
                 ++ List.last (map snd trace) ts)
  /\ write_tags_pass [(1, 1); (2, 1); (3, 1)]
                     [row 1 1 "a"; row 1 2 "b"; row 3 1 "c"]
     = [ (tag_child (row 1 1 "a"), [row 1 2 "b"; row 3 1 "c"]);
         ([], [row 3 1 "c"]);
         (tag_child (row 3 1 "c"), []) ].
Proof.
  split; [|split].
  - intros id version tag_itr Hsorted r. subst r.
    rewrite write_tags_advance.
    destruct (advance_to_sorted tag_key tag_child id version tag_itr Hsorted)
      as (H1 & H2 & _).
    split; [exact H1|]. split; [exact H2|].
    apply advance_to_suffix.
  - intros parents ts trace. subst trace.
    rewrite write_tags_pass_advance. split.
    + apply advance_pass_positions. lia.
    + apply advance_pass_partition.
  - reflexivity.
Qed.

End Joins.

(* ===================================================================== *)
(** * Invisible parents *)
(* ===================================================================== *)

Lemma started_app a b : started (a ++ b) = started a ++ started b.
Proof. apply flat_map_app. Qed.

Section Stale.

Context {A : Type}.
Variable key : A -> Z * Z.
Variable child : A -> list xml_call.

Lemma filter_filter_none (p q : A -> bool) (l : list A) :
  (forall r, p r = true -> q r = false) ->
  List.filter p (List.filter q l) = [].
Proof.
  intros H. induction l as [|r l IH]; [reflexivity|].
  cbn [List.filter]. destruct (q r) eqn:Hq; [|exact IH].
  cbn [List.filter]. destruct (p r) eqn:Hp; [|exact IH].
  rewrite (H r Hp) in Hq. discriminate.
Qed.

(** The rows of an earlier key are passed, and not emitted, by the step of
    a later key. *)
Lemma advance_to_discards_stale id version id' version' itr :
  sorted_rows key itr ->
  key_ltb (id, version) (id', version') = true ->
  List.filter (fun r => key_eqb (key r) (id, version))
              (snd (advance_to key child id' version' itr)) = []
  /\ fst (advance_to key child id' version' itr)
     = flat_map child
         (List.filter (fun r => key_eqb (key r) (id', version')) itr)
  /\ List.filter (fun r => key_eqb (key r) (id, version))
                 (List.filter (fun r => key_eqb (key r) (id', version')) itr)
     = [].
Proof.
  intros Hsorted Hlt.
  destruct (advance_to_sorted key child id' version' itr Hsorted)
    as (_ & H2 & H3).
  unfold key_ltb, key_leb, key_eqb in Hlt. cbn [fst snd] in Hlt.
  apply andb_true_iff in Hlt as [Hle Hne].
  apply negb_true_iff in Hne.
  split; [|split; [exact H2|]].
  - rewrite H3. apply filter_filter_none. intros r Hr.
    apply negb_false_iff.
    unfold key_eqb, key_leb in *. destruct (key r) as [k1 k2]. cbn [fst snd] in *.
    apply andb_true_iff in Hr as [E1 E2].
    apply Z.eqb_eq in E1, E2. subst k1 k2. exact Hle.
  - apply filter_filter_none. intros r Hr.
    unfold key_eqb in *. destruct (key r) as [k1 k2]. cbn [fst snd] in *.
    apply andb_true_iff in Hr as [E1 E2].
    apply Z.eqb_eq in E1, E2. subst k1 k2. exact Hne.
Qed.

End Stale.

Section Invisible.

Variable B : build.

Lemma started_common_attributes {T} `{Versioned T} (t : T) has_history
      changesets users uil :
  started (write_common_attributes B t has_history changesets users uil) = [].
Proof.
  unfold write_common_attributes. rewrite !started_app.
  destruct has_history, (user_info_level.eqb uil _); cbn;
    repeat (match goal with
            | |- context [match ?x with _ => _ end] => destruct x
            end; cbn); reflexivity.
Qed.

(** The calls for a parent that is not visible: the element, its own
    attributes, nothing else. *)
Definition bare_element {T} `{Versioned T} (name : string) (w : xml_writer)
           (t : T) : list xml_call :=
  begin name
  ++ attribute_int "id" (v_id t)
  ++ write_common_attributes B t (m_has_history w) (m_changesets w)
                             (m_users w) (m_user_info_level w)
  ++ end_.

Lemma started_bare_element {T} `{Versioned T} name w (t : T) :
  started (bare_element name w t) = [name].
Proof.
  unfold bare_element. rewrite !started_app, started_common_attributes.
  reflexivity.
Qed.

End Invisible.

(* ===================================================================== *)
(** * Concrete data used by the examples *)
(* ===================================================================== *)

Module Demo.

Definition B : build :=
  {| char_is_signed := true;
     OSM_LICENSE_TEXT := "http://opendatacommons.org/licenses/odbl/1-0/";
     OSM_COPYRIGHT_TEXT := "OpenStreetMap and contributors";
     OSM_VERSION_TEXT := "0.6";
     OSM_ATTRIBUTION_TEXT := "http://www.openstreetmap.org/copyright";
     OSM_API_ORIGIN := "http://www.openstreetmap.org/api/0.6" |}.

Definition now : pt.ptime := t_2023_01_05.

Definition earlier : pt.ptime :=
  pt.time {| pt.year := 2022; pt.month := 12; pt.day := 31 |}
          {| pt.hours := 23; pt.minutes := 59; pt.seconds := 58;
             pt.fractional_seconds := 0 |}.

Definition later : pt.ptime :=
  pt.time {| pt.year := 2023; pt.month := 1; pt.day := 5 |}
          {| pt.hours := 3; pt.minutes := 4; pt.seconds := 6;
             pt.fractional_seconds := 0 |}.

Definition alice : user_map_t := {[ 7 := "alice" ]}.

Definition writer (users : user_map_t) (uil : user_info_level.t)
           (cd : changeset_discussions.t) : xml_writer :=
  xml_writer_new B "planet-dump-ng" users now uil historical_versions.FULL cd.

Definition a_node (id version changeset_id : Z) (visible : bool) : node.t :=
  {| node.id := id; node.version := version;
     node.changeset_id := changeset_id; node.visible := visible;
     node.timestamp := earlier;
     node.latitude := 123456789; node.longitude := -1800000000 |}.

Definition a_way (id version : Z) (visible : bool) : way.t :=
  {| way.id := id; way.version := version; way.changeset_id := 5;
     way.visible := visible; way.timestamp := earlier |}.

Definition a_relation (id version : Z) (visible : bool) : relation.t :=
  {| relation.id := id; relation.version := version;
     relation.changeset_id := 5; relation.visible := visible;
     relation.timestamp := earlier |}.

Definition a_way_node (id version node_id : Z) : way_node.t :=
  {| way_node.way_id := id; way_node.version := version;
     way_node.sequence_id := 0; way_node.node_id := node_id |}.

Definition a_member (id version member_id : Z) : relation_member.t :=
  {| relation_member.relation_id := id; relation_member.version := version;
     relation_member.sequence_id := 0; relation_member.member_type := nwr_way;
     relation_member.member_id := member_id;
     relation_member.member_role := "outer" |}.

Definition a_changeset (id uid : Z) (closed_at : pt.ptime) : changeset.t :=
  {| changeset.id := id; changeset.uid := uid;
     changeset.created_at := earlier;
     changeset.min_lat := None; changeset.max_lat := None;
     changeset.min_lon := None; changeset.max_lon := None;
     changeset.closed_at := closed_at; changeset.num_changes := 2 |}.

Definition a_comment (changeset_id author_id : Z) (body : string)
           (visible : bool) : changeset_comment.t :=
  {| changeset_comment.changeset_id := changeset_id;
     changeset_comment.author_id := author_id;
     changeset_comment.body := body;
     changeset_comment.created_at := earlier;
     changeset_comment.visible := visible |}.

Definition a_tag (id : Z) (k v : string) : current_tag.t :=
  {| current_tag.element_id := id; current_tag.key := k;
     current_tag.value := v |}.

End Demo.

Section InvisibleParents.

Variable B : build.

(** C1, as the code has it: for a node, way or relation that is not
    visible the body of the loop writes the element with its own
    attributes and no child element, and leaves every iterator where it
    was: the rows keyed to that parent are still ahead of the cursor after
    the step.  On sorted rows they are passed, without being emitted, by
    the merge-join step of any later parent of greater key, which emits
    only the rows of its own key. *)
Theorem C1_invisible_parent_keeps_cursor :
  (forall w n tag_itr,
      node.visible n = false ->
      node_body B w n tag_itr = (bare_element B "node" w n, tag_itr)
      /\ started (fst (node_body B w n tag_itr)) = ["node"])
  /\ (forall w x nd_itr tag_itr,
         way.visible x = false ->
         way_body B w x nd_itr tag_itr
         = (bare_element B "way" w x, nd_itr, tag_itr)
         /\ started (fst (fst (way_body B w x nd_itr tag_itr))) = ["way"])
  /\ (forall w r rm_itr tag_itr,
         relation.visible r = false ->
         relation_body B w r rm_itr tag_itr
         = (bare_element B "relation" w r, rm_itr, tag_itr)
         /\ started (fst (fst (relation_body B w r rm_itr tag_itr)))
            = ["relation"])
  /\ (forall id version id' version' tag_itr,
         sorted_rows tag_key tag_itr ->
         key_ltb (id, version) (id', version') = true ->
         let r := write_tags B id' version' tag_itr in
         List.filter (fun t => key_eqb (tag_key t) (id, version)) (snd r) = []
         /\ fst r
            = flat_map (tag_child B)
                (List.filter (fun t => key_eqb (tag_key t) (id', version'))
                             tag_itr))
  /\ (forall id version id' version' nd_itr,
         sorted_rows nd_key nd_itr ->
         key_ltb (id, version) (id', version') = true ->
         let r := write_nds id' version' nd_itr in
         List.filter (fun t => key_eqb (nd_key t) (id, version)) (snd r) = []
         /\ fst r
            = flat_map nd_child
                (List.filter (fun t => key_eqb (nd_key t) (id', version'))
                             nd_itr))
  /\ (forall id version id' version' rm_itr,
         sorted_rows member_key rm_itr ->
         key_ltb (id, version) (id', version') = true ->
         let r := write_members B id' version' rm_itr in
         List.filter (fun t => key_eqb (member_key t) (id, version)) (snd r) = []
         /\ fst r
            = flat_map (member_child B)
                (List.filter (fun t => key_eqb (member_key t) (id', version'))
                             rm_itr)).
Proof.
  split; [|split; [|split; [|split; [|split]]]].
  - intros w n tag_itr H. unfold node_body. rewrite H.
    split; [reflexivity|]. apply (started_bare_element B "node" w n).
  - intros w x nd_itr tag_itr H. unfold way_body. rewrite H.
    split; [reflexivity|]. apply (started_bare_element B "way" w x).
  - intros w r rm_itr tag_itr H. unfold relation_body. rewrite H.
    split; [reflexivity|]. apply (started_bare_element B "relation" w r).
  - intros id version id' version' tag_itr Hs Hlt r. subst r.
    rewrite write_tags_advance.
    destruct (advance_to_discards_stale tag_key (tag_child B)
                id version id' version' tag_itr Hs Hlt) as (H1 & H2 & _).
    split; assumption.
  - intros id version id' version' nd_itr Hs Hlt r. subst r.
    rewrite write_nds_advance.
    destruct (advance_to_discards_stale nd_key nd_child
                id version id' version' nd_itr Hs Hlt) as (H1 & H2 & _).
    split; assumption.
  - intros id version id' version' rm_itr Hs Hlt r. subst r.
    rewrite write_members_advance.
    destruct (advance_to_discards_stale member_key (member_child B)
                id version id' version' rm_itr Hs Hlt) as (H1 & H2 & _).
    split; assumption.
Qed.

End InvisibleParents.

(** C1, as stated, at an invisible node (1, version 1) with one tag row
    keyed to it: no [tag] element is written, but the iterator has not
    moved and the row keyed to the node is still ahead of it after the
    step. *)
Lemma C1_cursor_not_advanced_counterexample :
  let w := Demo.writer Demo.alice user_info_level.FULL
                       changeset_discussions.FULL in
  let n := Demo.a_node 1 1 5 false in
  let tag_itr := [row 1 1 "a"] in
  node.visible n = false
  /\ tag_key (row 1 1 "a") = (node.id n, node.version n)
  /\ count_elements "tag" (fst (node_body Demo.B w n tag_itr)) = 0%nat
  /\ snd (node_body Demo.B w n tag_itr) = tag_itr
  /\ position tag_itr (snd (node_body Demo.B w n tag_itr)) = 0%nat
  /\ List.filter (fun t => key_eqb (tag_key t) (node.id n, node.version n))
                 (snd (node_body Demo.B w n tag_itr)) <> [].
Proof.
  cbv zeta.
  split; [reflexivity|]. split; [reflexivity|].
  split; [vm_compute; reflexivity|].
  split; [vm_compute; reflexivity|].
  split; [vm_compute; reflexivity|].
  intros H. vm_compute in H. discriminate H.
Qed.

Lemma C1_invisible_parent_keeps_cursor_witness :
  let w := Demo.writer Demo.alice user_info_level.FULL
                       changeset_discussions.FULL in
  let rows := [row 1 1 "a"; row 1 2 "b"; row 3 1 "c"] in
  let nds := [Demo.a_way_node 1 1 10; Demo.a_way_node 2 1 11] in
  let rms := [Demo.a_member 1 1 20; Demo.a_member 2 1 21] in
  (node.visible (Demo.a_node 1 1 5 false) = false
   /\ snd (node_body Demo.B w (Demo.a_node 1 1 5 false) rows) = rows)
  /\ (way.visible (Demo.a_way 1 1 false) = false
      /\ snd (way_body Demo.B w (Demo.a_way 1 1 false) nds rows) = rows)
  /\ (relation.visible (Demo.a_relation 1 1 false) = false
      /\ snd (relation_body Demo.B w (Demo.a_relation 1 1 false) rms rows)
         = rows)
  /\ (sorted_rows tag_key rows /\ key_ltb (1, 1) (1, 2) = true
      /\ fst (write_tags Demo.B 1 2 rows) = tag_child Demo.B (row 1 2 "b"))
  /\ (sorted_rows nd_key nds /\ key_ltb (1, 1) (2, 1) = true
      /\ fst (write_nds 2 1 nds) = nd_child (Demo.a_way_node 2 1 11))
  /\ (sorted_rows member_key rms /\ key_ltb (1, 1) (2, 1) = true
      /\ fst (write_members Demo.B 2 1 rms)
         = member_child Demo.B (Demo.a_member 2 1 21)).
Proof.
  intros w rows nds rms.
  destruct (C1_invisible_parent_keeps_cursor Demo.B)
    as (Hn & Hw & Hr & Ht & Hnd & Hrm).
  assert (Srows : sorted_rows tag_key rows)
    by (repeat constructor).
  assert (Snds : sorted_rows nd_key nds) by (repeat constructor).
  assert (Srms : sorted_rows member_key rms) by (repeat constructor).
  split; [|split; [|split; [|split; [|split]]]].
  - split; [reflexivity|].
    rewrite (proj1 (Hn w (Demo.a_node 1 1 5 false) rows eq_refl)).
    reflexivity.
  - split; [reflexivity|].
    rewrite (proj1 (Hw w (Demo.a_way 1 1 false) nds rows eq_refl)).
    reflexivity.
  - split; [reflexivity|].
    rewrite (proj1 (Hr w (Demo.a_relation 1 1 false) rms rows eq_refl)).
    reflexivity.
  - split; [exact Srows|]. split; [reflexivity|].
    destruct (Ht 1 1 1 2 rows Srows eq_refl) as [_ E]. rewrite E.
    reflexivity.
  - split; [exact Snds|]. split; [reflexivity|].
    destruct (Hnd 1 1 2 1 nds Snds eq_refl) as [_ E]. rewrite E.
    reflexivity.
  - split; [exact Srms|]. split; [reflexivity|].
    destruct (Hrm 1 1 2 1 rms Srms eq_refl) as [_ E]. rewrite E.
    reflexivity.
Defined.

Lemma C3_open_iff_unset_or_later_witness :
  let w := Demo.writer Demo.alice user_info_level.FULL
                       changeset_discussions.FULL in
  let cs := Demo.a_changeset 5 7 Demo.earlier in
  pt.is_special (m_now w) = false
  /\ pt.valid_fields (m_now w)
  /\ attribute_values "open" (cs_calls (changeset_body Demo.B w cs [] []))
     = ["false"]
  /\ attribute_values "closed_at" (cs_calls (changeset_body Demo.B w cs [] []))
     = ["2022-12-31T23:59:58Z"].
Proof.
  intros w cs.
  assert (Hvalid : pt.valid_fields (m_now w)) by (cbn; lia).
  split; [reflexivity|]. split; [exact Hvalid|].
  apply (proj2 (C3_open_iff_unset_or_later Demo.B w cs [] [] eq_refl Hvalid)).
  intros [H|H]; [discriminate H|]. vm_compute in H. discriminate H.
Defined.

Lemma C6_merge_join_step_witness :
  let rows := [row 1 1 "a"; row 1 2 "b"; row 3 1 "c"] in
  sorted_rows tag_key rows
  /\ consumed rows (snd (write_tags Demo.B 2 1 rows))
     = [row 1 1 "a"; row 1 2 "b"]
  /\ fst (write_tags Demo.B 2 1 rows) = []
  /\ rows = consumed rows (snd (write_tags Demo.B 2 1 rows))
            ++ snd (write_tags Demo.B 2 1 rows).
Proof.
  intros rows.
  assert (Srows : sorted_rows tag_key rows) by (repeat constructor).
  split; [exact Srows|].
  exact (proj1 (C6_merge_join_step Demo.B) 2 1 rows Srows).
Defined.

(* ===================================================================== *)
(** * Changeset comments *)
(* ===================================================================== *)

(** Specification side: the visible comments of changeset [id] in a
    comment sequence. *)
Definition visible_comments (id : Z) (ccs : list changeset_comment.t)
  : list changeset_comment.t :=
  List.filter (fun c => (changeset_comment.changeset_id c =? id)
                        && changeset_comment.visible c) ccs.

(** Comments sorted by changeset id. *)
Definition sorted_comments (ccs : list changeset_comment.t) : Prop :=
  StronglySorted
    (fun a b => changeset_comment.changeset_id a
                <= changeset_comment.changeset_id b) ccs.

Lemma visible_comments_none_above id ccs :
  Forall (fun c => id < changeset_comment.changeset_id c) ccs ->
  visible_comments id ccs = []
  /\ List.filter (fun c => negb (changeset_comment.changeset_id c <=? id)) ccs
     = ccs
  /\ List.filter (fun c => changeset_comment.changeset_id c <=? id) ccs = [].
Proof.
  unfold visible_comments.
  induction 1 as [|c ccs Hc _ (IH1 & IH2 & IH3)]; [repeat split; reflexivity|].
  cbn [List.filter]. rewrite IH1, IH2, IH3.
  replace (changeset_comment.changeset_id c =? id) with false
    by (symmetry; apply Z.eqb_neq; lia).
  replace (changeset_comment.changeset_id c <=? id) with false
    by (symmetry; apply Z.leb_gt; lia).
  repeat split; reflexivity.
Qed.

Lemma visible_comments_all_below id ccs :
  Forall (fun c => changeset_comment.changeset_id c < id) ccs ->
  visible_comments id ccs = [].
Proof.
  unfold visible_comments. induction 1 as [|c ccs Hc _ IH]; [reflexivity|].
  cbn [List.filter]. rewrite IH.
  replace (changeset_comment.changeset_id c =? id) with false
    by (symmetry; apply Z.eqb_neq; lia).
  reflexivity.
Qed.

(** The lookahead on sorted comments: the count of the visible comments of
    the changeset is added, and the iterator stops at the first comment of
    a later changeset. *)
Lemma count_comments_sorted id n ccs :
  sorted_comments ccs ->
  count_comments id n ccs
  = (n + Z.of_nat (length (visible_comments id ccs)),
     List.filter (fun c => negb (changeset_comment.changeset_id c <=? id)) ccs)
  /\ ccs = List.filter (fun c => changeset_comment.changeset_id c <=? id) ccs
           ++ List.filter
                (fun c => negb (changeset_comment.changeset_id c <=? id)) ccs.
Proof.
  intros Hs. revert n.
  induction Hs as [|c ccs Hs IH Hc]; intros n.
  { unfold visible_comments. cbn [count_comments List.filter length app].
    change (Z.of_nat 0) with 0. rewrite Z.add_0_r. split; reflexivity. }
  cbn [count_comments]. unfold visible_comments in *. cbn [List.filter].
  destruct (changeset_comment.changeset_id c <=? id) eqn:Hle.
  - cbn [negb]. destruct (IH n) as [_ Hsplit].
    split; [|cbn [app]; f_equal; exact Hsplit].
    destruct ((changeset_comment.changeset_id c =? id)
              && changeset_comment.visible c).
    + rewrite (proj1 (IH (n + 1))). f_equal. cbn [length].
      rewrite Nat2Z.inj_succ. lia.
    + apply IH.
  - apply Z.leb_gt in Hle. cbn [negb].
    assert (Habove : Forall (fun c' => id < changeset_comment.changeset_id c')
                            ccs).
    { eapply Forall_impl; [exact Hc|]. cbn beta. intros; lia. }
    destruct (visible_comments_none_above id ccs Habove) as (V1 & V2 & V3).
    unfold visible_comments in V1. rewrite V1, V2, V3.
    replace (changeset_comment.changeset_id c =? id) with false
      by (symmetry; apply Z.eqb_neq; lia).
    cbn [length app]. change (Z.of_nat 0) with 0. rewrite Z.add_0_r.
    split; reflexivity.
Qed.

Section Comments.

Variable B : build.

(** Specification side: the [comment] element of a comment, or nothing
    when its author is not in the user table. *)
Definition comment_element (users : user_map_t) (uil : user_info_level.t)
           (c : changeset_comment.t) : list xml_call :=
  match users !! changeset_comment.author_id c with
  | Some name => add_comment B c name uil
  | None => []
  end.

(** Specification side: the diagnostics for the comments whose author is
    not in the user table. *)
Definition comment_warnings (users : user_map_t)
           (ccs : list changeset_comment.t) : list string :=
  flat_map (fun c => match users !! changeset_comment.author_id c with
                     | Some _ => []
                     | None => [comment_diagnostic c]
                     end) ccs.

Lemma write_comments_range users uil id range rest :
  write_comments B users uil id (range ++ rest) rest
  = (flat_map (comment_element users uil) (visible_comments id range),
     comment_warnings users (visible_comments id range),
     rest).
Proof.
  induction range as [|c range IH].
  - cbn [app]. destruct rest as [|c rest]; [reflexivity|].
    cbn [write_comments]. rewrite Nat.eqb_refl. reflexivity.
  - cbn [app write_comments].
    replace (length (c :: range ++ rest) =? length rest)%nat with false
      by (symmetry; apply Nat.eqb_neq; cbn [length]; rewrite length_app; lia).
    rewrite IH. unfold write_comment, visible_comments, comment_element,
      comment_warnings.
    cbn [List.filter].
    destruct ((changeset_comment.changeset_id c =? id)
              && changeset_comment.visible c); [|reflexivity].
    cbn [flat_map]. destruct (users !! changeset_comment.author_id c);
      reflexivity.
Qed.

(** Specification side: the discussion of changeset [id] as the comment
    sequence determines it: present when discussions are included and the
    changeset has a visible comment; one [comment] element per visible
    comment whose author is in the user table. *)
Definition discussion_of (w : xml_writer) (id : Z)
           (ccs : list changeset_comment.t) : list xml_call :=
  if (Z.of_nat (length (visible_comments id ccs)) >? 0)
     && changeset_discussions.eqb (m_changeset_discussions w)
                                  changeset_discussions.FULL
  then start_discussion
       ++ flat_map (comment_element (m_users w) (m_user_info_level w))
                   (visible_comments id ccs)
       ++ end_discussion
  else [].

(** Specification side: the calls for one changeset, with the count and
    the discussion taken from the whole comment sequence [ccs]. *)
Definition changeset_element (w : xml_writer) (cs : changeset.t)
           (tag_itr : list current_tag.t) (ccs : list changeset_comment.t)
  : list xml_call :=
  changeset_attributes B (m_now w) (m_users w) (m_user_info_level w) cs
  ++ attribute_int "comments_count"
       (Z.of_nat (length (visible_comments (changeset.id cs) ccs)))
  ++ fst (write_changeset_tags B (changeset.id cs) tag_itr)
  ++ discussion_of w (changeset.id cs) ccs
  ++ end_.

Lemma visible_comments_app id a b :
  visible_comments id (a ++ b) = visible_comments id a ++ visible_comments id b.
Proof. apply List.filter_app. Qed.

Lemma visible_comments_below id ccs :
  visible_comments id
    (List.filter (fun c => changeset_comment.changeset_id c <=? id) ccs)
  = visible_comments id ccs.
Proof.
  unfold visible_comments. induction ccs as [|c ccs IH]; [reflexivity|].
  cbn [List.filter].
  destruct (changeset_comment.changeset_id c <=? id) eqn:Hle.
  - cbn [List.filter]. rewrite IH. reflexivity.
  - rewrite IH. apply Z.leb_gt in Hle.
    replace (changeset_comment.changeset_id c =? id) with false
      by (symmetry; apply Z.eqb_neq; lia).
    reflexivity.
Qed.

Lemma write_comments_sorted users uil id ccs :
  sorted_comments ccs ->
  write_comments B users uil id ccs
    (List.filter (fun c => negb (changeset_comment.changeset_id c <=? id)) ccs)
  = (flat_map (comment_element users uil) (visible_comments id ccs),
     comment_warnings users (visible_comments id ccs),
     List.filter (fun c => negb (changeset_comment.changeset_id c <=? id)) ccs).
Proof.
  intros Hs. destruct (count_comments_sorted id 0 ccs Hs) as [_ Hsplit].
  rewrite <- (visible_comments_below id ccs).
  set (range := List.filter
                  (fun c => changeset_comment.changeset_id c <=? id) ccs) in *.
  set (rest := List.filter
                 (fun c => negb (changeset_comment.changeset_id c <=? id)) ccs)
    in *.
  clearbody range rest. subst ccs. apply write_comments_range.
Qed.

(** One iteration on sorted comments. *)
Lemma changeset_body_sorted w cs tag_itr comment_itr :
  sorted_comments comment_itr ->
  cs_calls (changeset_body B w cs tag_itr comment_itr)
  = changeset_element w cs tag_itr comment_itr
  /\ cs_comment_itr (changeset_body B w cs tag_itr comment_itr)
     = List.filter (fun c => negb (changeset_comment.changeset_id c
                                   <=? changeset.id cs)) comment_itr
  /\ cs_diag (changeset_body B w cs tag_itr comment_itr)
     = if (Z.of_nat (length (visible_comments (changeset.id cs) comment_itr))
           >? 0)
          && changeset_discussions.eqb (m_changeset_discussions w)
                                       changeset_discussions.FULL
       then comment_warnings (m_users w)
                             (visible_comments (changeset.id cs) comment_itr)
       else [].
Proof.
  intros Hs. unfold changeset_body, changeset_element, discussion_of.
  destruct (count_comments_sorted (changeset.id cs) 0 comment_itr Hs)
    as [Hcount _].
  rewrite Hcount, Z.add_0_l.
  destruct (write_changeset_tags B (changeset.id cs) tag_itr) as [tags ti].
  destruct (_ && _); [|repeat split; reflexivity].
  rewrite (write_comments_sorted _ _ _ _ Hs). repeat split; reflexivity.
Qed.

End Comments.

(* ===================================================================== *)
(** * The changeset pass on sorted input *)
(* ===================================================================== *)

Lemma count_elements_app name a b :
  count_elements name (a ++ b)
  = (count_elements name a + count_elements name b)%nat.
Proof.
  unfold count_elements. rewrite started_app, List.filter_app, length_app.
  reflexivity.
Qed.

Lemma filter_filter_implies {A} (p q : A -> bool) (l : list A) :
  (forall r, p r = true -> q r = true) ->
  List.filter p (List.filter q l) = List.filter p l.
Proof.
  intros H. induction l as [|r l IH]; [reflexivity|].
  cbn [List.filter]. destruct (q r) eqn:Hq.
  - cbn [List.filter]. rewrite IH. reflexivity.
  - rewrite IH. destruct (p r) eqn:Hp; [|reflexivity].
    rewrite (H r Hp) in Hq. discriminate.
Qed.

Lemma StronglySorted_filter {A} (R : A -> A -> Prop) (f : A -> bool) l :
  StronglySorted R l -> StronglySorted R (List.filter f l).
Proof.
  induction 1 as [|a l Hs IH Ha]; [constructor|].
  cbn [List.filter]. destruct (f a); [|exact IH].
  constructor; [exact IH|].
  rewrite Forall_forall in *. intros x Hx.
  apply Ha. apply list_elem_of_In in Hx. apply list_elem_of_In.
  apply List.filter_In in Hx. tauto.
Qed.

(** Two writers with the same settings. *)
Definition same_settings (w w' : xml_writer) : Prop :=
  m_now w = m_now w' /\ m_has_history w = m_has_history w'
  /\ m_users w = m_users w'
  /\ m_changeset_discussions w = m_changeset_discussions w'
  /\ m_user_info_level w = m_user_info_level w'
  /\ m_generator_name w = m_generator_name w'.

Lemma same_settings_emit w calls diag cm :
  same_settings w (emit w calls diag cm).
Proof. repeat split. Qed.

Lemma same_settings_trans w1 w2 w3 :
  same_settings w1 w2 -> same_settings w2 w3 -> same_settings w1 w3.
Proof. unfold same_settings. intuition congruence. Qed.

Section ChangesetPass.

Variable B : build.

(** The iterations of the loop of [changesets], one per changeset. *)
Fixpoint changesets_trace (w : xml_writer) (css : list changeset.t)
         (tag_itr : list current_tag.t)
         (comment_itr : list changeset_comment.t) : list changeset_iteration :=
  match css with
  | [] => []
  | cs :: rest =>
      let it := changeset_body B w cs tag_itr comment_itr in
      it :: changesets_trace (emit w (cs_calls it) (cs_diag it) (cs_map it))
                             rest (cs_tag_itr it) (cs_comment_itr it)
  end.

Lemma changesets_loop_written w css tag_itr comment_itr :
  written (changesets_loop B w css tag_itr comment_itr)
  = written w
    ++ concat (map cs_calls (changesets_trace w css tag_itr comment_itr))
  /\ cerr (changesets_loop B w css tag_itr comment_itr)
     = cerr w
       ++ concat (map cs_diag (changesets_trace w css tag_itr comment_itr))
  /\ same_settings w (changesets_loop B w css tag_itr comment_itr).
Proof.
  revert w tag_itr comment_itr.
  induction css as [|cs rest IH]; intros w tag_itr comment_itr.
  - cbn. rewrite !app_nil_r. repeat split.
  - cbn [changesets_loop changesets_trace map concat].
    set (it := changeset_body B w cs tag_itr comment_itr).
    destruct (IH (emit w (cs_calls it) (cs_diag it) (cs_map it))
                 (cs_tag_itr it) (cs_comment_itr it)) as (H1 & H2 & H3).
    rewrite H1, H2. cbn [written cerr emit]. rewrite <- !app_assoc.
    split; [reflexivity|]. split; [reflexivity|].
    eapply same_settings_trans; [apply same_settings_emit | exact H3].
Qed.

Lemma changeset_element_settings w w' cs tag_itr ccs :
  same_settings w w' ->
  changeset_element B w cs tag_itr ccs = changeset_element B w' cs tag_itr ccs.
Proof.
  intros (H1 & H2 & H3 & H4 & H5 & H6).
  unfold changeset_element, discussion_of. rewrite H1, H3, H4, H5.
  reflexivity.
Qed.

Lemma changeset_element_comments w cs tag_itr ccs ccs' :
  visible_comments (changeset.id cs) ccs
  = visible_comments (changeset.id cs) ccs' ->
  changeset_element B w cs tag_itr ccs = changeset_element B w cs tag_itr ccs'.
Proof.
  intros H. unfold changeset_element, discussion_of. rewrite H. reflexivity.
Qed.

Lemma changesets_trace_sorted w0 ccs css :
  forall w tag_itr comment_itr,
    same_settings w0 w ->
    StronglySorted Z.lt (map changeset.id css) ->
    sorted_comments comment_itr ->
    (forall cs, In cs css ->
                visible_comments (changeset.id cs) comment_itr
                = visible_comments (changeset.id cs) ccs) ->
    Forall2 (fun cs it =>
               exists tag_itr', cs_calls it = changeset_element B w0 cs tag_itr' ccs)
            css (changesets_trace w css tag_itr comment_itr).
Proof.
  induction css as [|cs rest IH]; intros w tag_itr comment_itr Hw Hids Hs Hvis;
    [constructor|].
  cbn [changesets_trace].
  destruct (changeset_body_sorted B w cs tag_itr comment_itr Hs)
    as (Hcalls & Hitr & _).
  cbn [map] in Hids. inversion Hids as [|x l Hrest Hlt]; subst.
  constructor.
  - exists tag_itr. rewrite Hcalls.
    rewrite (changeset_element_settings w0 w) by exact Hw.
    apply changeset_element_comments, Hvis. left. reflexivity.
  - apply IH.
    + eapply same_settings_trans; [exact Hw | apply same_settings_emit].
    + exact Hrest.
    + rewrite Hitr. apply StronglySorted_filter, Hs.
    + intros cs' Hin. rewrite Hitr, <- (Hvis cs') by (right; exact Hin).
      unfold visible_comments. apply filter_filter_implies.
      intros c Hc. apply andb_true_iff in Hc as [Hc _].
      apply Z.eqb_eq in Hc. apply negb_true_iff, Z.leb_gt.
      rewrite Hc. rewrite Forall_forall in Hlt.
      apply Hlt. apply list_elem_of_In, in_map, Hin.
Qed.

End ChangesetPass.

Section LoopSettings.

Variable B : build.

Lemma nodes_loop_map w ns tag_itr :
  m_changesets (nodes_loop B w ns tag_itr) = m_changesets w
  /\ same_settings w (nodes_loop B w ns tag_itr).
Proof.
  revert w tag_itr.
  induction ns as [|n rest IH]; intros w tag_itr; [repeat split|].
  cbn [nodes_loop]. destruct (node_body B w n tag_itr) as [calls ti].
  destruct (IH (emit w calls [] (m_changesets w)) ti) as [H1 H2].
  split; [rewrite H1; reflexivity|].
  eapply same_settings_trans; [apply same_settings_emit | exact H2].
Qed.

Lemma ways_loop_map w ws nd_itr tag_itr :
  m_changesets (ways_loop B w ws nd_itr tag_itr) = m_changesets w
  /\ same_settings w (ways_loop B w ws nd_itr tag_itr).
Proof.
  revert w nd_itr tag_itr.
  induction ws as [|x rest IH]; intros w nd_itr tag_itr; [repeat split|].
  cbn [ways_loop]. destruct (way_body B w x nd_itr tag_itr) as [[calls ni] ti].
  destruct (IH (emit w calls [] (m_changesets w)) ni ti) as [H1 H2].
  split; [rewrite H1; reflexivity|].
  eapply same_settings_trans; [apply same_settings_emit | exact H2].
Qed.

Lemma relations_loop_map w rs rm_itr tag_itr :
  m_changesets (relations_loop B w rs rm_itr tag_itr) = m_changesets w
  /\ same_settings w (relations_loop B w rs rm_itr tag_itr).
Proof.
  revert w rm_itr tag_itr.
  induction rs as [|r rest IH]; intros w rm_itr tag_itr; [repeat split|].
  cbn [relations_loop].
  destruct (relation_body B w r rm_itr tag_itr) as [[calls mi] ti].
  destruct (IH (emit w calls [] (m_changesets w)) mi ti) as [H1 H2].
  split; [rewrite H1; reflexivity|].
  eapply same_settings_trans; [apply same_settings_emit | exact H2].
Qed.

End LoopSettings.

(* ===================================================================== *)
(** * Reading a changeset element *)
(* ===================================================================== *)

(** Whether the author of a comment is in the user table. *)
Definition resolvable (users : user_map_t) (c : changeset_comment.t) : bool :=
  match users !! changeset_comment.author_id c with
  | Some _ => true
  | None => false
  end.

Section ChangesetElement.

Variable B : build.

Lemma changeset_attributes_names now users uil cs :
  attr_names_in ["id"; "created_at"; "closed_at"; "open"; "user"; "uid";
                 "min_lat"; "min_lon"; "max_lat"; "max_lon"; "num_changes"]
                (changeset_attributes B now users uil cs) = true.
Proof.
  unfold changeset_attributes.
  destruct (pt.gt _ _), (if user_info_level.eqb uil _ then _ else _),
    (changeset.min_lat cs), (changeset.max_lat cs), (changeset.min_lon cs),
    (changeset.max_lon cs); reflexivity.
Qed.

Lemma changeset_attributes_started now users uil cs :
  started (changeset_attributes B now users uil cs) = ["changeset"].
Proof.
  unfold changeset_attributes.
  destruct (pt.gt _ _), (if user_info_level.eqb uil _ then _ else _),
    (changeset.min_lat cs), (changeset.max_lat cs), (changeset.min_lon cs),
    (changeset.max_lon cs); reflexivity.
Qed.

Lemma write_changeset_tags_started id tag_itr :
  Forall (eq "tag") (started (fst (write_changeset_tags B id tag_itr))).
Proof.
  induction tag_itr as [|t next IH]; [constructor|]. cbn [write_changeset_tags].
  destruct (_ <=? _); [|constructor].
  destruct (write_changeset_tags B id next) as [out itr]. cbn [fst] in *.
  rewrite started_app. apply Forall_app. split; [|exact IH].
  destruct (_ =? _); repeat constructor.
Qed.

Lemma count_elements_none name calls :
  Forall (fun n => String.eqb name n = false) (started calls) ->
  count_elements name calls = 0%nat.
Proof.
  unfold count_elements. induction 1 as [|n l Hn _ IH]; [reflexivity|].
  cbn [List.filter]. rewrite Hn. exact IH.
Qed.

Lemma comment_elements_started users uil ccs :
  started (flat_map (comment_element B users uil) ccs)
  = flat_map (fun c => if resolvable users c then ["comment"; "text"] else [])
             ccs.
Proof.
  induction ccs as [|c ccs IH]; [reflexivity|].
  cbn [flat_map]. rewrite started_app, IH. f_equal.
  unfold comment_element, resolvable.
  destruct (users !! _); [|reflexivity]. destruct uil; reflexivity.
Qed.

Lemma comment_elements_count users uil ccs :
  count_elements "comment" (flat_map (comment_element B users uil) ccs)
  = length (List.filter (resolvable users) ccs)
  /\ count_elements "discussion" (flat_map (comment_element B users uil) ccs)
     = 0%nat.
Proof.
  unfold count_elements. rewrite comment_elements_started.
  induction ccs as [|c ccs [IH1 IH2]]; [split; reflexivity|].
  cbn [flat_map List.filter]. rewrite !List.filter_app, !length_app, IH1, IH2.
  destruct (resolvable users c); split; reflexivity.
Qed.

(** What can be read off the calls of one changeset element. *)
Lemma changeset_element_reading w cs tag_itr ccs :
  let e := changeset_element B w cs tag_itr ccs in
  let visible := visible_comments (changeset.id cs) ccs in
  let discussing :=
    (Z.of_nat (length visible) >? 0)
    && changeset_discussions.eqb (m_changeset_discussions w)
                                 changeset_discussions.FULL in
  attribute_values "comments_count" e = [Str.fmt_int (Z.of_nat (length visible))]
  /\ count_elements "discussion" e = (if discussing then 1 else 0)%nat
  /\ count_elements "comment" e
     = (if discussing
        then length (List.filter (resolvable (m_users w)) visible)
        else 0)%nat.
Proof.
  intros e visible discussing. subst e. unfold changeset_element.
  assert (Htags : forall name, String.eqb name "tag" = false ->
            count_elements name
              (fst (write_changeset_tags B (changeset.id cs) tag_itr)) = 0%nat).
  { intros name Hname. apply count_elements_none.
    eapply Forall_impl; [apply write_changeset_tags_started|].
    cbn beta. intros n <-. exact Hname. }
  split; [|split].
  - rewrite !attribute_values_app.
    rewrite (attribute_values_absent _ "comments_count" _
               (changeset_attributes_names _ _ _ _)) by reflexivity.
    rewrite (attribute_values_absent _ "comments_count" _
               (write_changeset_tags_names B _ _)) by reflexivity.
    rewrite (attribute_values_absent ["uid"; "user"; "date"] "comments_count"
               (discussion_of B w (changeset.id cs) ccs)); [reflexivity| |reflexivity].
    unfold discussion_of. destruct (_ && _); [|reflexivity].
    unfold start_discussion, end_discussion, begin, end_.
    rewrite !attr_names_in_app. cbn [attr_names_in forallb andb].
    rewrite andb_true_r. fold (attr_names_in ["uid"; "user"; "date"]).
    induction (visible_comments (changeset.id cs) ccs) as [|c l IH];
      [reflexivity|].
    cbn [flat_map]. rewrite attr_names_in_app.
    fold (attr_names_in ["uid"; "user"; "date"]) in IH. rewrite IH, andb_true_r.
    unfold comment_element. destruct (m_users w !! _); [|reflexivity].
    destruct (m_user_info_level w); reflexivity.
  - rewrite !count_elements_app, Htags by reflexivity.
    unfold count_elements at 1 2 4.
    rewrite changeset_attributes_started. cbn [started flat_map attribute_int
      end_ app List.filter String.eqb Ascii.eqb Bool.eqb length].
    unfold discussion_of. fold visible. fold discussing.
    destruct discussing; [|reflexivity].
    unfold start_discussion, end_discussion, begin, end_.
    rewrite !count_elements_app.
    rewrite (proj2 (comment_elements_count _ _ _)). reflexivity.
  - rewrite !count_elements_app, Htags by reflexivity.
    unfold count_elements at 1 2 4.
    rewrite changeset_attributes_started. cbn [started flat_map attribute_int
      end_ app List.filter String.eqb Ascii.eqb Bool.eqb length].
    unfold discussion_of. fold visible. fold discussing.
    destruct discussing; [|reflexivity].
    unfold start_discussion, end_discussion, begin, end_.
    rewrite !count_elements_app.
    rewrite (proj1 (comment_elements_count _ _ _)).
    unfold count_elements. cbn. lia.
Qed.

End ChangesetElement.

(** C7: on changesets of increasing id and comments sorted by changeset
    id, the element written for each changeset carries [comments_count]
    equal to the number of visible comments of that changeset in the whole
    comment sequence, written before its tags and discussion; when
    discussions are included and the count is positive a [discussion]
    element follows with one [comment] element per visible comment whose
    author is in the user table.  One changeset with a visible and an
    invisible comment, full user information and discussions included,
    gives [comments_count="1"] and one [discussion] with one [comment]. *)
Theorem C7_comments_count_and_discussion :
  (forall B w css ts ccs,
      StronglySorted Z.lt (map changeset.id css) ->
      sorted_comments ccs ->
      written (changesets B w css ts ccs)
      = written w ++ concat (map cs_calls (changesets_trace B w css ts ccs))
      /\ Forall2 (fun cs it =>
                    exists tag_itr,
                      cs_calls it = changeset_element B w cs tag_itr ccs)
                 css (changesets_trace B w css ts ccs))
  /\ (forall B w cs tag_itr ccs,
         let e := changeset_element B w cs tag_itr ccs in
         let visible := visible_comments (changeset.id cs) ccs in
         let discussing :=
           (Z.of_nat (length visible) >? 0)
           && changeset_discussions.eqb (m_changeset_discussions w)
                                        changeset_discussions.FULL in
         attribute_values "comments_count" e
         = [Str.fmt_int (Z.of_nat (length visible))]
         /\ count_elements "discussion" e = (if discussing then 1 else 0)%nat
         /\ count_elements "comment" e
            = (if discussing
               then length (List.filter (resolvable (m_users w)) visible)
               else 0)%nat)
  /\ (let w := Demo.writer Demo.alice user_info_level.FULL
                           changeset_discussions.FULL in
      let out :=
        cs_calls (changeset_body Demo.B w (Demo.a_changeset 5 7 Demo.earlier)
                    [Demo.a_tag 5 "comment" "survey"; Demo.a_tag 5 "source" "gps"]
                    [Demo.a_comment 5 7 "looks good" true;
                     Demo.a_comment 5 7 "spam" false]) in
      attribute_values "comments_count" out = ["1"]
      /\ count_elements "discussion" out = 1%nat
      /\ count_elements "comment" out = 1%nat
      /\ text_nodes out = ["looks good"]).
Proof.
  split; [|split].
  - intros B w css ts ccs Hids Hs. split.
    + apply (changesets_loop_written B w css ts ccs).
    + apply (changesets_trace_sorted B w ccs css w ts ccs);
        [repeat split | exact Hids | exact Hs | reflexivity].
  - intros B w cs tag_itr ccs. apply changeset_element_reading.
  - cbv zeta. repeat split; vm_compute; reflexivity.
Qed.

Lemma C7_comments_count_and_discussion_witness :
  let w := Demo.writer Demo.alice user_info_level.FULL
                       changeset_discussions.FULL in
  let css := [Demo.a_changeset 5 7 Demo.earlier;
              Demo.a_changeset 6 8 Demo.later] in
  let ccs := [Demo.a_comment 5 7 "looks good" true;
              Demo.a_comment 5 7 "spam" false;
              Demo.a_comment 6 9 "thanks" true] in
  StronglySorted Z.lt (map changeset.id css)
  /\ sorted_comments ccs
  /\ Forall2 (fun cs it =>
                exists tag_itr,
                  cs_calls it = changeset_element Demo.B w cs tag_itr ccs)
             css (changesets_trace Demo.B w css [] ccs).
Proof.
  intros w css ccs.
  assert (Hids : StronglySorted Z.lt (map changeset.id css))
    by (repeat constructor).
  assert (Hs : sorted_comments ccs)
    by (unfold sorted_comments; repeat constructor; cbn; lia).
  split; [exact Hids|]. split; [exact Hs|].
  exact (proj2 (proj1 C7_comments_count_and_discussion Demo.B w css [] ccs
                      Hids Hs)).
Defined.

(* ===================================================================== *)
(** * The passes never break the nesting discipline *)
(* ===================================================================== *)

(** A run of calls that, inside an open element, is accepted and leaves
    the same elements open. *)
Definition nested (calls : list xml_call) : Prop :=
  forall x st, exists x', writer_run (x :: st) calls = Some (x' :: st).

Definition all_attributes (calls : list xml_call) : bool :=
  forallb (fun c => match c with WriteAttribute _ _ => true | _ => false end)
          calls.

Lemma writer_run_app st a b :
  writer_run st (a ++ b)
  = match writer_run st a with
    | Some st' => writer_run st' b
    | None => None
    end.
Proof.
  revert st. induction a as [|c a IH]; intros st; [reflexivity|].
  cbn [app writer_run]. destruct (writer_step st c); [apply IH|reflexivity].
Qed.

Lemma nested_nil : nested [].
Proof. intros x st. exists x. reflexivity. Qed.

Lemma nested_app a b : nested a -> nested b -> nested (a ++ b).
Proof.
  intros Ha Hb x st. rewrite writer_run_app.
  destruct (Ha x st) as [x' ->]. apply Hb.
Qed.

Lemma all_attributes_app a b :
  all_attributes (a ++ b) = all_attributes a && all_attributes b.
Proof. apply forallb_app. Qed.

Lemma all_attributes_run attrs st :
  all_attributes attrs = true ->
  writer_run (InStartTag :: st) attrs = Some (InStartTag :: st).
Proof.
  induction attrs as [|c attrs IH]; [reflexivity|].
  cbn [all_attributes forallb]. intros H.
  apply andb_true_iff in H as [Hc Hrest].
  destruct c; try discriminate. cbn [writer_run writer_step]. apply IH, Hrest.
Qed.

Lemma nested_element name attrs children :
  all_attributes attrs = true ->
  nested children ->
  nested (begin name ++ attrs ++ children ++ end_).
Proof.
  intros Hattrs Hchildren x st. exists InContent.
  unfold begin, end_. cbn [app writer_run writer_step].
  rewrite writer_run_app, (all_attributes_run _ _ Hattrs), writer_run_app.
  destruct (Hchildren InStartTag (InContent :: st)) as [x' ->]. reflexivity.
Qed.

Lemma nested_flat_map {A} (f : A -> list xml_call) (l : list A) :
  (forall a, nested (f a)) -> nested (flat_map f l).
Proof.
  intros H. induction l as [|a l IH]; [apply nested_nil|].
  cbn [flat_map]. apply nested_app; [apply H | exact IH].
Qed.

Section Nesting.

Variable B : build.

Lemma add_tag_nested k v : nested (add_tag B k v).
Proof. intros x st. eexists. reflexivity. Qed.

Lemma add_comment_nested c name uil : nested (add_comment B c name uil).
Proof. intros x st. destruct uil; eexists; reflexivity. Qed.

Lemma write_tags_nested id version tag_itr :
  nested (fst (write_tags B id version tag_itr)).
Proof.
  induction tag_itr as [|t next IH]; [apply nested_nil|]. cbn [write_tags].
  destruct (_ || _); [|apply nested_nil].
  destruct (write_tags B id version next) as [out itr]. cbn [fst] in *.
  apply nested_app; [|exact IH].
  destruct (_ && _); [apply add_tag_nested | apply nested_nil].
Qed.

Lemma write_changeset_tags_nested id tag_itr :
  nested (fst (write_changeset_tags B id tag_itr)).
Proof.
  induction tag_itr as [|t next IH]; [apply nested_nil|].
  cbn [write_changeset_tags].
  destruct (_ <=? _); [|apply nested_nil].
  destruct (write_changeset_tags B id next) as [out itr]. cbn [fst] in *.
  apply nested_app; [|exact IH].
  destruct (_ =? _); [apply add_tag_nested | apply nested_nil].
Qed.

Lemma write_nds_nested id version nd_itr :
  nested (fst (write_nds id version nd_itr)).
Proof.
  induction nd_itr as [|t next IH]; [apply nested_nil|]. cbn [write_nds].
  destruct (_ || _); [|apply nested_nil].
  destruct (write_nds id version next) as [out itr]. cbn [fst] in *.
  apply nested_app; [|exact IH].
  destruct (_ && _); [|apply nested_nil].
  intros x st. eexists. reflexivity.
Qed.

Lemma write_members_nested id version rm_itr :
  nested (fst (write_members B id version rm_itr)).
Proof.
  induction rm_itr as [|t next IH]; [apply nested_nil|]. cbn [write_members].
  destruct (_ || _); [|apply nested_nil].
  destruct (write_members B id version next) as [out itr]. cbn [fst] in *.
  apply nested_app; [|exact IH].
  destruct (_ && _); [|apply nested_nil].
  intros x st. eexists. reflexivity.
Qed.

Lemma write_comments_nested users uil id comment_itr comment_count_itr :
  nested (fst (fst (write_comments B users uil id comment_itr
                                   comment_count_itr))).
Proof.
  induction comment_itr as [|c next IH]; [apply nested_nil|].
  cbn [write_comments].
  destruct (_ =? _)%nat; [apply nested_nil|].
  destruct (write_comment B users uil id c) as [here diag] eqn:Hc.
  destruct (write_comments B users uil id next comment_count_itr)
    as [[out err] itr].
  cbn [fst] in *. apply nested_app; [|exact IH].
  unfold write_comment in Hc.
  destruct (_ && _); [|inversion Hc; apply nested_nil].
  destruct (users !! _); inversion Hc; subst;
    [apply add_comment_nested | apply nested_nil].
Qed.

Lemma common_attributes_all {T} `{Versioned T} (t : T) has_history
      changesets users uil :
  all_attributes (write_common_attributes B t has_history changesets users uil)
  = true.
Proof.
  unfold write_common_attributes.
  destruct has_history, (user_info_level.eqb uil _); cbn;
    repeat (match goal with
            | |- context [match ?x with _ => _ end] => destruct x
            end; cbn); reflexivity.
Qed.

Lemma changeset_attributes_split now users uil cs :
  exists attrs,
    changeset_attributes B now users uil cs = begin "changeset" ++ attrs
    /\ all_attributes attrs = true.
Proof.
  unfold changeset_attributes. eexists. split; [reflexivity|].
  destruct (pt.gt _ _), (if user_info_level.eqb uil _ then _ else _),
    (changeset.min_lat cs), (changeset.max_lat cs), (changeset.min_lon cs),
    (changeset.max_lon cs); reflexivity.
Qed.

Lemma changeset_body_nested w cs tag_itr comment_itr :
  nested (cs_calls (changeset_body B w cs tag_itr comment_itr)).
Proof.
  rewrite cs_calls_eq.
  destruct (changeset_attributes_split (m_now w) (m_users w)
              (m_user_info_level w) cs) as (attrs & -> & Hattrs).
  rewrite <- !app_assoc.
  rewrite (app_assoc attrs (attribute_int _ _)).
  rewrite (app_assoc (fst _) (discussion_calls _ _ _ _)).
  apply nested_element.
  - rewrite all_attributes_app, Hattrs. reflexivity.
  - apply nested_app; [apply write_changeset_tags_nested|].
    unfold discussion_calls. destruct (count_comments _ _ _) as [count cci].
    destruct (_ && _); [|apply nested_nil].
    apply (nested_element "discussion" []); [reflexivity|].
    apply write_comments_nested.
Qed.

Lemma node_body_nested w n tag_itr : nested (fst (node_body B w n tag_itr)).
Proof.
  unfold node_body.
  pose proof (write_tags_nested (node.id n) (node.version n) tag_itr) as Ht.
  destruct (write_tags B (node.id n) (node.version n) tag_itr) as [tags ti].
  cbn [fst] in Ht.
  assert (Hcommon := common_attributes_all n (m_has_history w)
            (m_changesets w) (m_users w) (m_user_info_level w)).
  destruct (node.visible n); cbn [fst].
  - rewrite !(app_assoc (attribute_int _ _)), !(app_assoc (_ ++ _)
      (write_common_attributes _ _ _ _ _ _)).
    apply nested_element; [|exact Ht].
    rewrite !all_attributes_app, Hcommon. reflexivity.
  - rewrite !(app_assoc (attribute_int _ _)), !(app_assoc (_ ++ _)
      (write_common_attributes _ _ _ _ _ _)).
    apply nested_element; [|apply nested_nil].
    rewrite !all_attributes_app, Hcommon. reflexivity.
Qed.

Lemma way_body_nested w x nd_itr tag_itr :
  nested (fst (fst (way_body B w x nd_itr tag_itr))).
Proof.
  unfold way_body.
  pose proof (write_tags_nested (way.id x) (way.version x) tag_itr) as Ht.
  pose proof (write_nds_nested (way.id x) (way.version x) nd_itr) as Hn.
  destruct (write_tags B (way.id x) (way.version x) tag_itr) as [tags ti].
  destruct (write_nds (way.id x) (way.version x) nd_itr) as [nds ni].
  cbn [fst] in Ht, Hn.
  assert (Hcommon := common_attributes_all x (m_has_history w)
            (m_changesets w) (m_users w) (m_user_info_level w)).
  destruct (way.visible x); cbn [fst];
    rewrite (app_assoc (attribute_int _ _));
    (apply nested_element;
     [rewrite all_attributes_app, Hcommon; reflexivity|]).
  - apply nested_app; assumption.
  - apply nested_nil.
Qed.

Lemma relation_body_nested w r rm_itr tag_itr :
  nested (fst (fst (relation_body B w r rm_itr tag_itr))).
Proof.
  unfold relation_body.
  pose proof (write_tags_nested (relation.id r) (relation.version r) tag_itr)
    as Ht.
  pose proof (write_members_nested (relation.id r) (relation.version r) rm_itr)
    as Hm.
  destruct (write_tags B (relation.id r) (relation.version r) tag_itr)
    as [tags ti].
  destruct (write_members B (relation.id r) (relation.version r) rm_itr)
    as [members mi].
  cbn [fst] in Ht, Hm.
  assert (Hcommon := common_attributes_all r (m_has_history w)
            (m_changesets w) (m_users w) (m_user_info_level w)).
  destruct (relation.visible r); cbn [fst];
    rewrite (app_assoc (attribute_int _ _));
    (apply nested_element;
     [rewrite all_attributes_app, Hcommon; reflexivity|]).
  - apply nested_app; assumption.
  - apply nested_nil.
Qed.

(** What the passes add to the trace: when each body writes calls with
    property [P], for writers with the setting [Q], so does every run. *)
Definition extends_by (P : list xml_call -> Prop) (w w' : xml_writer) : Prop :=
  exists delta, written w' = written w ++ delta /\ P delta.

Section RunExtends.

Variable P : list xml_call -> Prop.
Variable Q : xml_writer -> Prop.
Hypothesis P_nil : P [].
Hypothesis P_app : forall a b, P a -> P b -> P (a ++ b).
Hypothesis Q_settings : forall w w', same_settings w w' -> Q w -> Q w'.
Hypothesis P_changeset :
  forall w cs tag_itr comment_itr,
    Q w -> P (cs_calls (changeset_body B w cs tag_itr comment_itr)).
Hypothesis P_node :
  forall w n tag_itr, Q w -> P (fst (node_body B w n tag_itr)).
Hypothesis P_way :
  forall w x nd_itr tag_itr,
    Q w -> P (fst (fst (way_body B w x nd_itr tag_itr))).
Hypothesis P_relation :
  forall w r rm_itr tag_itr,
    Q w -> P (fst (fst (relation_body B w r rm_itr tag_itr))).

Lemma extends_by_refl w : extends_by P w w.
Proof. exists []. rewrite app_nil_r. split; [reflexivity | exact P_nil]. Qed.

Lemma extends_by_emit w calls diag cm w' :
  P calls ->
  extends_by P (emit w calls diag cm) w' ->
  extends_by P w w'.
Proof.
  intros Hc (delta & Hw & Hd). exists (calls ++ delta).
  rewrite Hw. cbn [written emit]. rewrite app_assoc.
  split; [reflexivity | apply P_app; assumption].
Qed.

Lemma extends_by_trans w1 w2 w3 :
  extends_by P w1 w2 -> extends_by P w2 w3 -> extends_by P w1 w3.
Proof.
  intros (d1 & H1 & N1) (d2 & H2 & N2). exists (d1 ++ d2).
  rewrite H2, H1, app_assoc. split; [reflexivity | apply P_app; assumption].
Qed.

Lemma Q_emit w calls diag cm : Q w -> Q (emit w calls diag cm).
Proof. apply Q_settings, same_settings_emit. Qed.

Lemma changesets_loop_extends w css tag_itr comment_itr :
  Q w -> extends_by P w (changesets_loop B w css tag_itr comment_itr).
Proof.
  revert w tag_itr comment_itr.
  induction css as [|cs rest IH]; intros w tag_itr comment_itr HQ;
    [apply extends_by_refl|].
  cbn [changesets_loop].
  eapply extends_by_emit; [apply P_changeset, HQ | apply IH, Q_emit, HQ].
Qed.

Lemma nodes_loop_extends w ns tag_itr :
  Q w -> extends_by P w (nodes_loop B w ns tag_itr).
Proof.
  revert w tag_itr.
  induction ns as [|n rest IH]; intros w tag_itr HQ; [apply extends_by_refl|].
  cbn [nodes_loop].
  pose proof (P_node w n tag_itr HQ) as Hn.
  destruct (node_body B w n tag_itr) as [calls ti]. cbn [fst] in Hn.
  eapply extends_by_emit; [exact Hn | apply IH, Q_emit, HQ].
Qed.

Lemma ways_loop_extends w ws nd_itr tag_itr :
  Q w -> extends_by P w (ways_loop B w ws nd_itr tag_itr).
Proof.
  revert w nd_itr tag_itr.
  induction ws as [|x rest IH]; intros w nd_itr tag_itr HQ;
    [apply extends_by_refl|].
  cbn [ways_loop].
  pose proof (P_way w x nd_itr tag_itr HQ) as Hx.
  destruct (way_body B w x nd_itr tag_itr) as [[calls ni] ti].
  cbn [fst] in Hx.
  eapply extends_by_emit; [exact Hx | apply IH, Q_emit, HQ].
Qed.

Lemma relations_loop_extends w rs rm_itr tag_itr :
  Q w -> extends_by P w (relations_loop B w rs rm_itr tag_itr).
Proof.
  revert w rm_itr tag_itr.
  induction rs as [|r rest IH]; intros w rm_itr tag_itr HQ;
    [apply extends_by_refl|].
  cbn [relations_loop].
  pose proof (P_relation w r rm_itr tag_itr HQ) as Hr.
  destruct (relation_body B w r rm_itr tag_itr) as [[calls mi] ti].
  cbn [fst] in Hr.
  eapply extends_by_emit; [exact Hr | apply IH, Q_emit, HQ].
Qed.

Lemma run_pass_extends w p :
  Q w -> extends_by P w (run_pass B w p) /\ Q (run_pass B w p).
Proof.
  intros HQ. destruct p; cbn [run_pass].
  - split; [apply changesets_loop_extends, HQ|].
    eapply Q_settings; [|exact HQ].
    apply (changesets_loop_written B w css ts ccs).
  - split; [apply nodes_loop_extends, HQ|].
    eapply Q_settings; [|exact HQ]. apply (nodes_loop_map B w ns ts).
  - split; [apply ways_loop_extends, HQ|].
    eapply Q_settings; [|exact HQ]. apply (ways_loop_map B w ws wns ts).
  - split; [apply relations_loop_extends, HQ|].
    eapply Q_settings; [|exact HQ]. apply (relations_loop_map B w rs rms ts).
Qed.

Lemma run_extends w ps : Q w -> extends_by P w (run B w ps).
Proof.
  revert w. induction ps as [|p ps IH]; intros w HQ; [apply extends_by_refl|].
  cbn [run fold_left]. destruct (run_pass_extends w p HQ) as [Hp HQ'].
  eapply extends_by_trans; [exact Hp | apply IH, HQ'].
Qed.

End RunExtends.

Lemma run_nested w ps : extends_by nested w (run B w ps).
Proof.
  apply (run_extends nested (fun _ => True)); try exact I.
  - apply nested_nil.
  - apply nested_app.
  - intros; exact I.
  - intros; apply changeset_body_nested.
  - intros; apply node_body_nested.
  - intros; apply way_body_nested.
  - intros; apply relation_body_nested.
Qed.

(** Every document is accepted by the writer, with all elements closed. *)
Lemma document_accepted generator users max_time uil hv cd ps :
  writer_run [] (document B generator users max_time uil hv cd ps) = Some [].
Proof.
  unfold document, finish. cbn [written emit].
  destruct (run_nested (xml_writer_new B generator users max_time uil hv cd) ps)
    as (delta & -> & Hdelta).
  cbn [written xml_writer_new]. unfold begin, end_.
  cbn [app writer_run writer_step attribute attribute_time].
  rewrite writer_run_app.
  destruct (Hdelta InContent []) as [x' ->]. reflexivity.
Qed.

End Nesting.

(** C9: in the discussion loop a visible comment of the changeset whose
    author is not in the user table writes no call, adds one diagnostic
    line and the loop goes on with the comments after it; on sorted
    comments the changeset element therefore holds the [comment] elements
    of the resolvable visible comments only and the diagnostics name the
    others; and no document, whatever the user table holds, makes the
    writer reject a call. *)
Theorem C9_unresolved_author_is_skipped :
  (forall B users uil id c next comment_count_itr,
      changeset_comment.changeset_id c = id ->
      changeset_comment.visible c = true ->
      users !! changeset_comment.author_id c = None ->
      length (c :: next) <> length comment_count_itr ->
      write_comment B users uil id c = ([], [comment_diagnostic c])
      /\ write_comments B users uil id (c :: next) comment_count_itr
         = (fst (fst (write_comments B users uil id next comment_count_itr)),
            comment_diagnostic c
            :: snd (fst (write_comments B users uil id next comment_count_itr)),
            snd (write_comments B users uil id next comment_count_itr)))
  /\ (forall B w cs tag_itr comment_itr,
         sorted_comments comment_itr ->
         cs_calls (changeset_body B w cs tag_itr comment_itr)
         = changeset_element B w cs tag_itr comment_itr
         /\ cs_diag (changeset_body B w cs tag_itr comment_itr)
            = if (Z.of_nat (length (visible_comments (changeset.id cs)
                                                     comment_itr)) >? 0)
                 && changeset_discussions.eqb (m_changeset_discussions w)
                                              changeset_discussions.FULL
              then comment_warnings (m_users w)
                     (visible_comments (changeset.id cs) comment_itr)
              else [])
  /\ (forall B generator users max_time uil hv cd ps,
         writer_run [] (document B generator users max_time uil hv cd ps)
         = Some []).
Proof.
  split; [|split].
  - intros B users uil id c next cci Hid Hvis Hnone Hlen.
    assert (Hc : write_comment B users uil id c = ([], [comment_diagnostic c])).
    { unfold write_comment. rewrite Hid, Z.eqb_refl, Hvis, Hnone. reflexivity. }
    split; [exact Hc|].
    cbn [write_comments]. apply Nat.eqb_neq in Hlen. rewrite Hlen, Hc.
    destruct (write_comments B users uil id next cci) as [[out err] itr].
    reflexivity.
  - intros B w cs tag_itr comment_itr Hs.
    destruct (changeset_body_sorted B w cs tag_itr comment_itr Hs)
      as (H1 & _ & H3).
    split; assumption.
  - intros. apply document_accepted.
Qed.

Lemma C9_unresolved_author_is_skipped_witness :
  let c := Demo.a_comment 5 9 "from a hidden account" true in
  let next := [Demo.a_comment 5 7 "looks good" true] in
  changeset_comment.changeset_id c = 5
  /\ changeset_comment.visible c = true
  /\ Demo.alice !! changeset_comment.author_id c = None
  /\ length (c :: next) <> length (@nil changeset_comment.t)
  /\ sorted_comments (c :: next)
  /\ write_comments Demo.B Demo.alice user_info_level.FULL 5 (c :: next) []
     = (add_comment Demo.B (Demo.a_comment 5 7 "looks good" true) "alice"
                    user_info_level.FULL,
        [comment_diagnostic c], [])
  /\ count_elements "comment"
       (cs_calls (changeset_body Demo.B
                    (Demo.writer Demo.alice user_info_level.FULL
                                 changeset_discussions.FULL)
                    (Demo.a_changeset 5 7 Demo.earlier) [] (c :: next)))
     = 1%nat.
Proof.
  intros c next.
  assert (Hnone : Demo.alice !! changeset_comment.author_id c = None)
    by (vm_compute; reflexivity).
  assert (Hlen : length (c :: next) <> length (@nil changeset_comment.t))
    by discriminate.
  assert (Hs : sorted_comments (c :: next))
    by (unfold sorted_comments; repeat constructor; cbn; lia).
  destruct C9_unresolved_author_is_skipped as (Hloop & Hbody & _).
  split; [reflexivity|]. split; [reflexivity|]. split; [exact Hnone|].
  split; [exact Hlen|]. split; [exact Hs|]. split.
  - rewrite (proj2 (Hloop Demo.B Demo.alice user_info_level.FULL 5 c next []
                          eq_refl eq_refl Hnone Hlen)).
    vm_compute. reflexivity.
  - rewrite (proj1 (Hbody Demo.B _ (Demo.a_changeset 5 7 Demo.earlier) []
                          (c :: next) Hs)).
    vm_compute. reflexivity.
Defined.

(* ===================================================================== *)
(** * The changeset-to-author map *)
(* ===================================================================== *)

(** All changesets handed to the changeset pass, in order. *)
Definition serialized (ps : list pass) : list changeset.t :=
  flat_map (fun p => match p with
                     | Changesets css _ _ => css
                     | _ => []
                     end) ps.

(** What one iteration of [changesets] does to the map. *)
Definition record_author (users : user_map_t) (uil : user_info_level.t)
           (m : changeset_map_t) (cs : changeset.t) : changeset_map_t :=
  match (if user_info_level.eqb uil user_info_level.FULL
         then users !! changeset.uid cs else None) with
  | Some _ => map_insert (changeset.id cs) (changeset.uid cs) m
  | None => m
  end.

Lemma lookup_map_insert {V} (k k' : Z) (v : V) (m : gmap Z V) :
  map_insert k v m !! k'
  = match m !! k' with
    | Some x => Some x
    | None => if decide (k = k') then Some v else None
    end.
Proof.
  unfold map_insert. destruct (m !! k) as [x|] eqn:Hk.
  - destruct (m !! k') eqn:Hk'; [reflexivity|].
    destruct (decide (k = k')); [congruence | reflexivity].
  - destruct (decide (k = k')) as [<-|Hne].
    + rewrite lookup_insert_eq, Hk. reflexivity.
    + rewrite lookup_insert_ne by exact Hne.
      destruct (m !! k'); reflexivity.
Qed.

Lemma uil_eqb_FULL uil :
  user_info_level.eqb uil user_info_level.FULL = true
  <-> uil = user_info_level.FULL.
Proof. destruct uil; split; intros H; try reflexivity; discriminate H. Qed.

Lemma record_authors_keys users uil css :
  forall m k,
    is_Some (fold_left (record_author users uil) css m !! k)
    <-> is_Some (m !! k)
        \/ (uil = user_info_level.FULL
            /\ exists cs, In cs css /\ changeset.id cs = k
                          /\ is_Some (users !! changeset.uid cs)).
Proof.
  induction css as [|cs rest IH]; intros m k.
  - cbn [fold_left]. split; [tauto|]. intros [H|(_ & cs & [] & _)]. exact H.
  - cbn [fold_left]. rewrite IH. unfold record_author.
    destruct (user_info_level.eqb uil user_info_level.FULL) eqn:Huil.
    + apply uil_eqb_FULL in Huil.
      destruct (users !! changeset.uid cs) as [name|] eqn:Hname.
      * rewrite lookup_map_insert. split.
        -- intros [H|(_ & cs' & Hin & Hid & Hk)].
           ++ destruct (m !! k) eqn:Hm; [left; eauto|].
              destruct (decide (changeset.id cs = k)) as [Heq|];
                [|destruct H; discriminate].
              right. split; [exact Huil|]. exists cs.
              rewrite Hname. split; [left; reflexivity|]. split; eauto.
           ++ right. split; [exact Huil|]. exists cs'.
              split; [right; exact Hin|]. tauto.
        -- intros [H|(_ & cs' & [<-|Hin] & Hid & Hk)].
           ++ left. destruct H as [x ->]. eauto.
           ++ left. destruct (m !! k); [eauto|].
              rewrite decide_True by exact Hid. eauto.
           ++ right. split; [exact Huil|]. exists cs'. tauto.
      * split.
        -- intros [H|(_ & cs' & Hin & Hid & Hk)]; [left; exact H|].
           right. split; [exact Huil|]. exists cs'.
           split; [right; exact Hin|]. tauto.
        -- intros [H|(_ & cs' & [<-|Hin] & Hid & Hk)]; [left; exact H| |].
           ++ rewrite Hname in Hk. destruct Hk; discriminate.
           ++ right. split; [exact Huil|]. exists cs'. tauto.
    + split.
      * intros [H|(Hf & _)]; [left; exact H|].
        rewrite Hf in Huil. discriminate.
      * intros [H|(Hf & _)]; [left; exact H|].
        rewrite Hf in Huil. discriminate.
Qed.

Lemma record_authors_known users uil css :
  forall m,
    (forall k v, m !! k = Some v -> is_Some (users !! v)) ->
    forall k v, fold_left (record_author users uil) css m !! k = Some v ->
                is_Some (users !! v)
                /\ (m !! k = Some v
                    \/ exists cs, In cs css /\ changeset.id cs = k
                                  /\ changeset.uid cs = v).
Proof.
  induction css as [|cs rest IH]; intros m Hm k v Hk.
  - cbn [fold_left] in Hk. split; [eapply Hm; exact Hk | left; exact Hk].
  - cbn [fold_left] in Hk.
    assert (Hm' : forall k v, record_author users uil m cs !! k = Some v ->
                              is_Some (users !! v)
                              /\ (m !! k = Some v
                                  \/ (changeset.id cs = k
                                      /\ changeset.uid cs = v))).
    { intros k' v'. unfold record_author.
      destruct (if user_info_level.eqb uil _ then _ else _) as [name|] eqn:Hu;
        [|intros H; split; [eapply Hm; exact H | left; exact H]].
      rewrite lookup_map_insert.
      destruct (m !! k') eqn:Hk'.
      - intros [= ->]. split; [eapply Hm; exact Hk' | left; reflexivity].
      - destruct (decide (changeset.id cs = k')); [|discriminate].
        intros [= <-].
        destruct (user_info_level.eqb uil _); [|discriminate].
        rewrite Hu. split; [eauto | right; split; [assumption | reflexivity]]. }
    destruct (IH _ (fun k v H => proj1 (Hm' k v H)) k v Hk) as [Hv Hsrc].
    split; [exact Hv|].
    destruct Hsrc as [Hsrc|(cs' & Hin & Hid & Huid)].
    + destruct (Hm' k v Hsrc) as [_ [H|[H1 H2]]]; [left; exact H|].
      right. exists cs. split; [left; reflexivity | split; assumption].
    + right. exists cs'. split; [right; exact Hin | split; assumption].
Qed.

Section AuthorMap.

Variable B : build.

Lemma changesets_loop_map w css tag_itr comment_itr :
  m_changesets (changesets_loop B w css tag_itr comment_itr)
  = fold_left (record_author (m_users w) (m_user_info_level w)) css
              (m_changesets w).
Proof.
  revert w tag_itr comment_itr.
  induction css as [|cs rest IH]; intros w tag_itr comment_itr; [reflexivity|].
  cbn [changesets_loop fold_left]. rewrite IH. cbn [emit m_users
    m_user_info_level m_changesets].
  f_equal. unfold changeset_body.
  destruct (count_comments _ _ _) as [count cci].
  destruct (write_changeset_tags _ _ _) as [tags ti].
  destruct (_ && _); [destruct (write_comments _ _ _ _ _ _) as [[o e] i]|];
    reflexivity.
Qed.

(** After any passes the settings are those of the constructor and the
    map is the one the serialized changesets build. *)
Lemma run_map w ps :
  m_changesets (run B w ps)
  = fold_left (record_author (m_users w) (m_user_info_level w))
              (serialized ps) (m_changesets w)
  /\ same_settings w (run B w ps).
Proof.
  revert w. induction ps as [|p ps IH]; intros w; [repeat split|].
  cbn [run fold_left serialized flat_map]. fold (run B (run_pass B w p) ps).
  fold (serialized ps). rewrite fold_left_app.
  destruct (IH (run_pass B w p)) as [H1 H2]. rewrite H1.
  assert (Hp : m_changesets (run_pass B w p)
               = fold_left (record_author (m_users w) (m_user_info_level w))
                           match p with
                           | Changesets css _ _ => css
                           | _ => []
                           end (m_changesets w)
               /\ same_settings w (run_pass B w p)).
  { destruct p; cbn [run_pass fold_left].
    - split; [apply changesets_loop_map|].
      apply (changesets_loop_written B w css ts ccs).
    - apply nodes_loop_map.
    - apply ways_loop_map.
    - apply relations_loop_map. }
  destruct Hp as [Hp1 Hp2]. rewrite Hp1.
  destruct Hp2 as (S1 & S2 & S3 & S4 & S5 & S6).
  rewrite <- S3, <- S5.
  split; [reflexivity|].
  eapply same_settings_trans; [|exact H2]. repeat split; assumption.
Qed.

(** The author attributes of a node, way or relation, given that every
    author in the map is in the user table. *)
Lemma common_attributes_author {T} `{Versioned T} (t : T) has_history
      (changesets : changeset_map_t) (users : user_map_t) uil :
  (forall k v, changesets !! k = Some v -> is_Some (users !! v)) ->
  let a := write_common_attributes B t has_history changesets users uil in
  (uil = user_info_level.FULL /\ is_Some (changesets !! v_changeset_id t) ->
   exists author name,
     changesets !! v_changeset_id t = Some author
     /\ users !! author = Some name
     /\ attribute_values "user" a = [Str.c_str (sanitize B name)]
     /\ attribute_values "uid" a = [Str.fmt_int author])
  /\ (~ (uil = user_info_level.FULL
         /\ is_Some (changesets !! v_changeset_id t)) ->
      attribute_values "user" a = [] /\ attribute_values "uid" a = []).
Proof.
  intros Hknown a. subst a. unfold write_common_attributes.
  rewrite !attribute_values_app.
  assert (Hhist : forall name,
             String.eqb "visible" name = false ->
             attribute_values name
               (if has_history then attribute_bool "visible" (v_visible t)
                else []) = []).
  { intros name Hname. destruct has_history; [|reflexivity].
    unfold attribute_bool, attribute_values. cbn [flat_map]. rewrite Hname.
    reflexivity. }
  rewrite !Hhist by reflexivity.
  cbn [attribute_time attribute_int attribute_values flat_map String.eqb
       Ascii.eqb Bool.eqb app].
  split.
  - intros [-> [author Hauthor]]. exists author.
    destruct (Hknown _ _ Hauthor) as [name Hname]. exists name.
    cbn [user_info_level.eqb]. rewrite Hauthor, Hname.
    repeat split; reflexivity.
  - intros Hnot. destruct uil; cbn [user_info_level.eqb];
      [split; reflexivity|].
    destruct (changesets !! v_changeset_id t) eqn:Hc; [|split; reflexivity].
    exfalso. apply Hnot. split; [reflexivity | eauto].
Qed.

End AuthorMap.

(** The values of the [user] and of the [uid] attributes in a trace. *)
Definition author_attributes (calls : list xml_call)
  : list string * list string :=
  (attribute_values "user" calls, attribute_values "uid" calls).

Section AuthorAttributes.

Variable B : build.

Lemma node_body_author w n tag_itr :
  author_attributes (fst (node_body B w n tag_itr))
  = author_attributes
      (write_common_attributes B n (m_has_history w) (m_changesets w)
                               (m_users w) (m_user_info_level w)).
Proof.
  unfold node_body, author_attributes.
  pose proof (write_tags_names B (node.id n) (node.version n) tag_itr) as Ht.
  destruct (write_tags B (node.id n) (node.version n) tag_itr) as [tags ti].
  cbn [fst] in Ht.
  assert (Hu : attribute_values "user" tags = [])
    by (apply (attribute_values_absent ["k"; "v"]); [exact Ht | reflexivity]).
  assert (Hi : attribute_values "uid" tags = [])
    by (apply (attribute_values_absent ["k"; "v"]); [exact Ht | reflexivity]).
  destruct (node.visible n); cbn [fst]; rewrite !attribute_values_app;
    rewrite ?Hu, ?Hi; cbn [begin attribute_int attribute_double end_
      attribute_values flat_map String.eqb Ascii.eqb Bool.eqb app];
    rewrite !app_nil_r; reflexivity.
Qed.

Lemma way_body_author w x nd_itr tag_itr :
  author_attributes (fst (fst (way_body B w x nd_itr tag_itr)))
  = author_attributes
      (write_common_attributes B x (m_has_history w) (m_changesets w)
                               (m_users w) (m_user_info_level w)).
Proof.
  unfold way_body, author_attributes.
  pose proof (write_tags_names B (way.id x) (way.version x) tag_itr) as Ht.
  pose proof (write_nds_names (way.id x) (way.version x) nd_itr) as Hn.
  destruct (write_tags B (way.id x) (way.version x) tag_itr) as [tags ti].
  destruct (write_nds (way.id x) (way.version x) nd_itr) as [nds ni].
  cbn [fst] in Ht, Hn.
  assert (Hu : attribute_values "user" tags = [])
    by (apply (attribute_values_absent ["k"; "v"]); [exact Ht | reflexivity]).
  assert (Hi : attribute_values "uid" tags = [])
    by (apply (attribute_values_absent ["k"; "v"]); [exact Ht | reflexivity]).
  assert (Hu' : attribute_values "user" nds = [])
    by (apply (attribute_values_absent ["ref"]); [exact Hn | reflexivity]).
  assert (Hi' : attribute_values "uid" nds = [])
    by (apply (attribute_values_absent ["ref"]); [exact Hn | reflexivity]).
  destruct (way.visible x); cbn [fst]; rewrite !attribute_values_app;
    rewrite ?Hu, ?Hi, ?Hu', ?Hi'; cbn [begin attribute_int end_
      attribute_values flat_map String.eqb Ascii.eqb Bool.eqb app];
    rewrite !app_nil_r; reflexivity.
Qed.

Lemma relation_body_author w r rm_itr tag_itr :
  author_attributes (fst (fst (relation_body B w r rm_itr tag_itr)))
  = author_attributes
      (write_common_attributes B r (m_has_history w) (m_changesets w)
                               (m_users w) (m_user_info_level w)).
Proof.
  unfold relation_body, author_attributes.
  pose proof (write_tags_names B (relation.id r) (relation.version r) tag_itr)
    as Ht.
  pose proof (write_members_names B (relation.id r) (relation.version r)
                                  rm_itr) as Hm.
  destruct (write_tags B (relation.id r) (relation.version r) tag_itr)
    as [tags ti].
  destruct (write_members B (relation.id r) (relation.version r) rm_itr)
    as [members mi].
  cbn [fst] in Ht, Hm.
  assert (Hu : attribute_values "user" tags = [])
    by (apply (attribute_values_absent ["k"; "v"]); [exact Ht | reflexivity]).
  assert (Hi : attribute_values "uid" tags = [])
    by (apply (attribute_values_absent ["k"; "v"]); [exact Ht | reflexivity]).
  assert (Hu' : attribute_values "user" members = [])
    by (apply (attribute_values_absent ["type"; "ref"; "role"]);
        [exact Hm | reflexivity]).
  assert (Hi' : attribute_values "uid" members = [])
    by (apply (attribute_values_absent ["type"; "ref"; "role"]);
        [exact Hm | reflexivity]).
  destruct (relation.visible r); cbn [fst]; rewrite !attribute_values_app;
    rewrite ?Hu, ?Hi, ?Hu', ?Hi'; cbn [begin attribute_int end_
      attribute_values flat_map String.eqb Ascii.eqb Bool.eqb app];
    rewrite !app_nil_r; reflexivity.
Qed.

Lemma changeset_attributes_author now users uil cs :
  author_attributes (changeset_attributes B now users uil cs)
  = match (if user_info_level.eqb uil user_info_level.FULL
           then users !! changeset.uid cs else None) with
    | Some name =>
        ([Str.c_str (sanitize B name)], [Str.fmt_int (changeset.uid cs)])
    | None => ([], [])
    end.
Proof.
  unfold changeset_attributes, author_attributes.
  destruct (pt.gt _ _), (if user_info_level.eqb uil _ then _ else _),
    (changeset.min_lat cs), (changeset.max_lat cs), (changeset.min_lon cs),
    (changeset.max_lon cs); reflexivity.
Qed.

End AuthorAttributes.

(** C10: after any passes on a fresh writer, the changeset-to-author map
    has as keys exactly the ids of the changesets serialized so far whose
    author was found in the user table under full user information; a
    node, way or relation carries [user] and [uid] exactly when user
    information is full and its changeset id is a key of the map; a
    changeset whose author is not in the user table carries neither, and
    (changeset ids naming one changeset) neither does a node, way or
    relation that refers to it. *)
Theorem C10_author_attributes_follow_the_map
        (B : build) (generator : string) (users : user_map_t)
        (max_time : pt.ptime) (uil : user_info_level.t)
        (hv : historical_versions.t) (cd : changeset_discussions.t)
        (ps : list pass) :
  let w := run B (xml_writer_new B generator users max_time uil hv cd) ps in
  let common {T} `{Versioned T} (t : T) :=
    write_common_attributes B t (m_has_history w) (m_changesets w)
                            (m_users w) (m_user_info_level w) in
  (forall k,
      is_Some (m_changesets w !! k)
      <-> uil = user_info_level.FULL
          /\ exists cs, In cs (serialized ps) /\ changeset.id cs = k
                        /\ is_Some (users !! changeset.uid cs))
  /\ (forall T (V : Versioned T) (t : T),
         (uil = user_info_level.FULL
          /\ is_Some (m_changesets w !! v_changeset_id t) ->
          exists author name,
            m_changesets w !! v_changeset_id t = Some author
            /\ users !! author = Some name
            /\ author_attributes (common t)
               = ([Str.c_str (sanitize B name)], [Str.fmt_int author]))
         /\ (~ (uil = user_info_level.FULL
                /\ is_Some (m_changesets w !! v_changeset_id t)) ->
             author_attributes (common t) = ([], [])))
  /\ (forall n tag_itr,
         author_attributes (fst (node_body B w n tag_itr))
         = author_attributes (common n))
  /\ (forall x nd_itr tag_itr,
         author_attributes (fst (fst (way_body B w x nd_itr tag_itr)))
         = author_attributes (common x))
  /\ (forall r rm_itr tag_itr,
         author_attributes (fst (fst (relation_body B w r rm_itr tag_itr)))
         = author_attributes (common r))
  /\ (forall cs,
         users !! changeset.uid cs = None ->
         author_attributes (changeset_attributes B max_time users uil cs)
         = ([], []))
  /\ (forall cs,
         In cs (serialized ps) ->
         users !! changeset.uid cs = None ->
         (forall cs', In cs' (serialized ps) ->
                      changeset.id cs' = changeset.id cs ->
                      changeset.uid cs' = changeset.uid cs) ->
         forall T (V : Versioned T) (t : T),
           v_changeset_id t = changeset.id cs ->
           author_attributes (common t) = ([], [])).
Proof.
  intros w common.
  destruct (run_map B (xml_writer_new B generator users max_time uil hv cd) ps)
    as [Hmap (S1 & S2 & S3 & S4 & S5 & S6)].
  fold w in Hmap, S1, S2, S3, S4, S5, S6.
  cbn [xml_writer_new m_users m_user_info_level m_changesets m_now] in *.
  assert (Hkeys : forall k,
             is_Some (m_changesets w !! k)
             <-> uil = user_info_level.FULL
                 /\ exists cs, In cs (serialized ps) /\ changeset.id cs = k
                               /\ is_Some (users !! changeset.uid cs)).
  { intros k. rewrite Hmap, record_authors_keys, lookup_empty.
    split; [intros [[x Hx]|H]; [discriminate | exact H] | tauto]. }
  assert (Hknown : forall k v,
             m_changesets w !! k = Some v ->
             is_Some (users !! v)
             /\ exists cs, In cs (serialized ps) /\ changeset.id cs = k
                           /\ changeset.uid cs = v).
  { intros k v Hk. rewrite Hmap in Hk.
    assert (Hempty : forall k v, (∅ : changeset_map_t) !! k = Some v ->
                                 is_Some (users !! v))
      by (intros k' v' H; rewrite lookup_empty in H; discriminate H).
    destruct (record_authors_known users uil (serialized ps) ∅ Hempty k v Hk)
      as [Hv [Hsrc|Hsrc]].
    - rewrite lookup_empty in Hsrc. discriminate.
    - split; assumption. }
  assert (Hcommon : forall T (V : Versioned T) (t : T),
             (uil = user_info_level.FULL
              /\ is_Some (m_changesets w !! v_changeset_id t) ->
              exists author name,
                m_changesets w !! v_changeset_id t = Some author
                /\ users !! author = Some name
                /\ author_attributes (common T V t)
                   = ([Str.c_str (sanitize B name)], [Str.fmt_int author]))
             /\ (~ (uil = user_info_level.FULL
                    /\ is_Some (m_changesets w !! v_changeset_id t)) ->
                 author_attributes (common T V t) = ([], []))).
  { intros T V t. subst common. cbv beta. rewrite <- S3, <- S5.
    destruct (common_attributes_author B t (m_has_history w) (m_changesets w)
                users uil (fun k v H => proj1 (Hknown k v H))) as [Hyes Hno].
    unfold author_attributes. split.
    - intros Hc. destruct (Hyes Hc) as (author & name & H1 & H2 & H3 & H4).
      exists author, name. rewrite H3, H4. repeat split; assumption.
    - intros Hc. destruct (Hno Hc) as [H1 H2]. rewrite H1, H2. reflexivity. }
  split; [exact Hkeys|]. split; [exact Hcommon|].
  split; [intros; apply node_body_author|].
  split; [intros; apply way_body_author|].
  split; [intros; apply relation_body_author|].
  split.
  - intros cs Hnone. rewrite changeset_attributes_author, Hnone.
    destruct (user_info_level.eqb uil _); reflexivity.
  - intros cs Hin Hnone Hunique T V t Hid.
    apply (proj2 (Hcommon T V t)). intros [_ [author Hauthor]].
    destruct (Hknown _ _ Hauthor) as [[name Hname] (cs' & Hin' & Hid' & Huid')].
    rewrite Hid in Hid'. rewrite <- Huid', (Hunique cs' Hin' Hid') in Hname.
    congruence.
Qed.

Lemma C10_author_attributes_follow_the_map_witness :
  let cs5 := Demo.a_changeset 5 7 Demo.earlier in
  let cs6 := Demo.a_changeset 6 9 Demo.earlier in
  let ps := [Changesets [cs5; cs6] [] []] in
  let w := run Demo.B (Demo.writer Demo.alice user_info_level.FULL
                                   changeset_discussions.FULL) ps in
  let common (n : node.t) :=
    write_common_attributes Demo.B n (m_has_history w) (m_changesets w)
                            (m_users w) (m_user_info_level w) in
  Demo.alice !! changeset.uid cs6 = None
  /\ In cs6 (serialized ps)
  /\ (forall cs', In cs' (serialized ps) ->
                  changeset.id cs' = changeset.id cs6 ->
                  changeset.uid cs' = changeset.uid cs6)
  /\ author_attributes (changeset_attributes Demo.B Demo.now Demo.alice
                                             user_info_level.FULL cs6)
     = ([], [])
  /\ author_attributes (common (Demo.a_node 1 1 6 true)) = ([], [])
  /\ is_Some (m_changesets w !! 5)
  /\ author_attributes (common (Demo.a_node 2 1 5 true)) = (["alice"], ["7"]).
Proof.
  intros cs5 cs6 ps w common.
  destruct (C10_author_attributes_follow_the_map
              Demo.B "planet-dump-ng" Demo.alice Demo.now user_info_level.FULL
              historical_versions.FULL changeset_discussions.FULL ps)
    as (Hkeys & Hcommon & _ & _ & _ & Hcs & Hrefs).
  assert (Hnone : Demo.alice !! changeset.uid cs6 = None)
    by (vm_compute; reflexivity).
  assert (Hin : In cs6 (serialized ps)) by (right; left; reflexivity).
  assert (Hunique : forall cs', In cs' (serialized ps) ->
                                changeset.id cs' = changeset.id cs6 ->
                                changeset.uid cs' = changeset.uid cs6).
  { intros cs' [<-|[<-|[]]] Hid; [discriminate Hid | reflexivity]. }
  assert (Hsome : is_Some (m_changesets w !! 5))
    by (exists 7; vm_compute; reflexivity).
  split; [exact Hnone|]. split; [exact Hin|]. split; [exact Hunique|].
  split; [exact (Hcs cs6 Hnone)|].
  split; [exact (Hrefs cs6 Hin Hnone Hunique node.t node_versioned
                       (Demo.a_node 1 1 6 true) eq_refl)|].
  split; [exact Hsome|].
  destruct (proj1 (Hcommon node.t node_versioned (Demo.a_node 2 1 5 true))
                  (conj eq_refl Hsome)) as (author & name & H1 & H2 & H3).
  refine (eq_trans H3 _).
  assert (Ha : author = 7) by (vm_compute in H1; congruence).
  subst author.
  assert (Hn : name = "alice") by (vm_compute in H2; congruence).
  subst name. vm_compute. reflexivity.
Defined.

(* ===================================================================== *)
(** * Summary user information *)
(* ===================================================================== *)

Lemma author_attributes_app a b :
  author_attributes (a ++ b)
  = ((author_attributes a).1 ++ (author_attributes b).1,
     (author_attributes a).2 ++ (author_attributes b).2).
Proof. unfold author_attributes. rewrite !attribute_values_app. reflexivity. Qed.

Lemma text_nodes_app a b : text_nodes (a ++ b) = text_nodes a ++ text_nodes b.
Proof. apply flat_map_app. Qed.

Definition no_author (calls : list xml_call) : Prop :=
  author_attributes calls = ([], []).

Lemma no_author_app a b : no_author a -> no_author b -> no_author (a ++ b).
Proof.
  unfold no_author. intros Ha Hb. rewrite author_attributes_app, Ha, Hb.
  reflexivity.
Qed.

Lemma no_author_names allowed calls :
  attr_names_in allowed calls = true ->
  existsb (String.eqb "user") allowed = false ->
  existsb (String.eqb "uid") allowed = false ->
  no_author calls.
Proof.
  intros Hin Hu Hi. unfold no_author, author_attributes.
  rewrite (attribute_values_absent allowed "user" calls Hin Hu).
  rewrite (attribute_values_absent allowed "uid" calls Hin Hi).
  reflexivity.
Qed.

Definition is_summary (w : xml_writer) : Prop :=
  m_user_info_level w = user_info_level.SUMMARY.

Lemma is_summary_settings w w' :
  same_settings w w' -> is_summary w -> is_summary w'.
Proof. unfold is_summary. intros (_ & _ & _ & _ & <- & _) H. exact H. Qed.

Section Summary.

Variable B : build.

Lemma common_attributes_summary {T} `{Versioned T} (t : T) has_history
      changesets users :
  no_author (write_common_attributes B t has_history changesets users
                                     user_info_level.SUMMARY).
Proof.
  apply (no_author_names ["timestamp"; "version"; "changeset"; "visible"]);
    [|reflexivity|reflexivity].
  unfold write_common_attributes. destruct has_history; reflexivity.
Qed.

Lemma changeset_body_summary w cs tag_itr comment_itr :
  is_summary w ->
  no_author (cs_calls (changeset_body B w cs tag_itr comment_itr)).
Proof.
  unfold is_summary. intros Hs. rewrite cs_calls_eq, Hs.
  apply no_author_app;
    [unfold no_author; rewrite changeset_attributes_author; reflexivity|].
  apply no_author_app; [reflexivity|].
  apply no_author_app;
    [apply (no_author_names ["k"; "v"]);
     [apply write_changeset_tags_names | reflexivity | reflexivity]|].
  apply no_author_app; [|reflexivity].
  unfold discussion_calls. destruct (count_comments _ _ _) as [count cci].
  destruct (_ && _); [|reflexivity].
  apply no_author_app; [reflexivity|].
  apply no_author_app; [|reflexivity].
  rewrite Hs.
  apply (no_author_names ["date"]); [|reflexivity|reflexivity].
  apply (write_comments_names B (m_users w) user_info_level.SUMMARY).
Qed.

Lemma node_body_summary w n tag_itr :
  is_summary w -> no_author (fst (node_body B w n tag_itr)).
Proof.
  unfold is_summary, no_author. intros Hs.
  rewrite node_body_author, Hs. apply common_attributes_summary.
Qed.

Lemma way_body_summary w x nd_itr tag_itr :
  is_summary w -> no_author (fst (fst (way_body B w x nd_itr tag_itr))).
Proof.
  unfold is_summary, no_author. intros Hs.
  rewrite way_body_author, Hs. apply common_attributes_summary.
Qed.

Lemma relation_body_summary w r rm_itr tag_itr :
  is_summary w ->
  no_author (fst (fst (relation_body B w r rm_itr tag_itr))).
Proof.
  unfold is_summary, no_author. intros Hs.
  rewrite relation_body_author, Hs. apply common_attributes_summary.
Qed.

(** Under summary user information no [user] and no [uid] attribute is
    written in the whole document. *)
Lemma document_summary_no_author generator users max_time hv cd ps :
  no_author (document B generator users max_time user_info_level.SUMMARY
                      hv cd ps).
Proof.
  unfold document, finish. cbn [written emit].
  destruct (run_extends B no_author is_summary eq_refl no_author_app
              is_summary_settings changeset_body_summary node_body_summary
              way_body_summary relation_body_summary
              (xml_writer_new B generator users max_time
                              user_info_level.SUMMARY hv cd) ps eq_refl)
    as (delta & -> & Hdelta).
  apply no_author_app; [|reflexivity].
  apply no_author_app; [reflexivity | exact Hdelta].
Qed.

End Summary.

(** Two user tables that know the same user ids. *)
Definition same_known (users1 users2 : user_map_t) : Prop :=
  forall k, is_Some (users1 !! k) <-> is_Some (users2 !! k).

(** Two writers under summary user information that have written the
    same calls and differ in the user table only; unless discussions are
    left out, the two tables know the same ids. *)
Definition summary_sim (w1 w2 : xml_writer) : Prop :=
  written w1 = written w2
  /\ m_now w1 = m_now w2
  /\ m_has_history w1 = m_has_history w2
  /\ m_changeset_discussions w1 = m_changeset_discussions w2
  /\ is_summary w1 /\ is_summary w2
  /\ (m_changeset_discussions w1 = changeset_discussions.NONE
      \/ same_known (m_users w1) (m_users w2)).

Lemma summary_sim_emit w1 w2 calls d1 d2 m1 m2 :
  summary_sim w1 w2 -> summary_sim (emit w1 calls d1 m1) (emit w2 calls d2 m2).
Proof.
  intros (Hw & H1 & H2 & H3 & H4 & H5 & H6).
  unfold summary_sim, is_summary in *. cbn [emit written m_now m_has_history
    m_changeset_discussions m_user_info_level m_users].
  rewrite Hw. tauto.
Qed.

Section SummarySimulation.

Variable B : build.

Lemma write_comments_summary users1 users2 id comment_itr comment_count_itr :
  same_known users1 users2 ->
  fst (fst (write_comments B users1 user_info_level.SUMMARY id comment_itr
                           comment_count_itr))
  = fst (fst (write_comments B users2 user_info_level.SUMMARY id comment_itr
                             comment_count_itr))
  /\ snd (write_comments B users1 user_info_level.SUMMARY id comment_itr
                         comment_count_itr)
     = snd (write_comments B users2 user_info_level.SUMMARY id comment_itr
                           comment_count_itr).
Proof.
  intros Hk. induction comment_itr as [|c next [IH1 IH2]]; [split; reflexivity|].
  cbn [write_comments]. destruct (_ =? _)%nat; [split; reflexivity|].
  assert (Hc : fst (write_comment B users1 user_info_level.SUMMARY id c)
               = fst (write_comment B users2 user_info_level.SUMMARY id c)).
  { unfold write_comment. destruct (_ && _); [|reflexivity].
    specialize (Hk (changeset_comment.author_id c)).
    destruct (users1 !! _) as [n1|], (users2 !! _) as [n2|]; try reflexivity.
    - destruct (proj1 Hk ltac:(eauto)) as [x Hx]. discriminate Hx.
    - destruct (proj2 Hk ltac:(eauto)) as [x Hx]. discriminate Hx. }
  destruct (write_comment B users1 _ id c) as [h1 g1].
  destruct (write_comment B users2 _ id c) as [h2 g2].
  destruct (write_comments B users1 _ id next comment_count_itr)
    as [[o1 e1] i1].
  destruct (write_comments B users2 _ id next comment_count_itr)
    as [[o2 e2] i2].
  cbn [fst snd] in *. subst. split; reflexivity.
Qed.

Lemma changeset_body_sim w1 w2 cs tag_itr comment_itr :
  summary_sim w1 w2 ->
  cs_calls (changeset_body B w1 cs tag_itr comment_itr)
  = cs_calls (changeset_body B w2 cs tag_itr comment_itr)
  /\ cs_tag_itr (changeset_body B w1 cs tag_itr comment_itr)
     = cs_tag_itr (changeset_body B w2 cs tag_itr comment_itr)
  /\ cs_comment_itr (changeset_body B w1 cs tag_itr comment_itr)
     = cs_comment_itr (changeset_body B w2 cs tag_itr comment_itr).
Proof.
  unfold summary_sim, is_summary.
  intros (_ & Hnow & _ & Hcd & Hs1 & Hs2 & Hk).
  unfold changeset_body. rewrite <- Hnow, <- Hcd, Hs1, Hs2.
  destruct (count_comments (changeset.id cs) 0 comment_itr) as [count cci].
  destruct (write_changeset_tags B (changeset.id cs) tag_itr) as [tags ti].
  assert (Hattrs : changeset_attributes B (m_now w1) (m_users w1)
                     user_info_level.SUMMARY cs
                   = changeset_attributes B (m_now w1) (m_users w2)
                       user_info_level.SUMMARY cs) by reflexivity.
  destruct ((count >? 0) && _) eqn:Hcond.
  - destruct Hk as [Hnone|Hk].
    { rewrite Hnone, andb_false_r in Hcond. discriminate Hcond. }
    destruct (write_comments_summary (m_users w1) (m_users w2)
                (changeset.id cs) comment_itr cci Hk) as [Hout Hitr].
    destruct (write_comments B (m_users w1) _ _ comment_itr cci)
      as [[o1 e1] i1].
    destruct (write_comments B (m_users w2) _ _ comment_itr cci)
      as [[o2 e2] i2].
    cbn [fst snd cs_calls cs_tag_itr cs_comment_itr] in *. subst.
    rewrite Hattrs. repeat split; reflexivity.
  - cbn [cs_calls cs_tag_itr cs_comment_itr]. rewrite Hattrs.
    repeat split; reflexivity.
Qed.

Lemma changesets_loop_sim css :
  forall w1 w2 tag_itr comment_itr,
    summary_sim w1 w2 ->
    summary_sim (changesets_loop B w1 css tag_itr comment_itr)
                (changesets_loop B w2 css tag_itr comment_itr).
Proof.
  induction css as [|cs rest IH]; intros w1 w2 tag_itr comment_itr Hsim;
    [exact Hsim|].
  cbn [changesets_loop].
  destruct (changeset_body_sim w1 w2 cs tag_itr comment_itr Hsim)
    as (-> & -> & ->).
  apply IH, summary_sim_emit, Hsim.
Qed.

Lemma node_body_sim w1 w2 n tag_itr :
  summary_sim w1 w2 -> node_body B w1 n tag_itr = node_body B w2 n tag_itr.
Proof.
  unfold summary_sim, is_summary. intros (_ & _ & Hh & _ & Hs1 & Hs2 & _).
  unfold node_body, write_common_attributes. rewrite Hh, Hs1, Hs2.
  reflexivity.
Qed.

Lemma way_body_sim w1 w2 x nd_itr tag_itr :
  summary_sim w1 w2 ->
  way_body B w1 x nd_itr tag_itr = way_body B w2 x nd_itr tag_itr.
Proof.
  unfold summary_sim, is_summary. intros (_ & _ & Hh & _ & Hs1 & Hs2 & _).
  unfold way_body, write_common_attributes. rewrite Hh, Hs1, Hs2.
  reflexivity.
Qed.

Lemma relation_body_sim w1 w2 r rm_itr tag_itr :
  summary_sim w1 w2 ->
  relation_body B w1 r rm_itr tag_itr = relation_body B w2 r rm_itr tag_itr.
Proof.
  unfold summary_sim, is_summary. intros (_ & _ & Hh & _ & Hs1 & Hs2 & _).
  unfold relation_body, write_common_attributes. rewrite Hh, Hs1, Hs2.
  reflexivity.
Qed.

Lemma nodes_loop_sim ns :
  forall w1 w2 tag_itr,
    summary_sim w1 w2 ->
    summary_sim (nodes_loop B w1 ns tag_itr) (nodes_loop B w2 ns tag_itr).
Proof.
  induction ns as [|n rest IH]; intros w1 w2 tag_itr Hsim; [exact Hsim|].
  cbn [nodes_loop]. rewrite (node_body_sim w1 w2 n tag_itr Hsim).
  destruct (node_body B w2 n tag_itr) as [calls ti].
  apply IH, summary_sim_emit, Hsim.
Qed.

Lemma ways_loop_sim ws :
  forall w1 w2 nd_itr tag_itr,
    summary_sim w1 w2 ->
    summary_sim (ways_loop B w1 ws nd_itr tag_itr)
                (ways_loop B w2 ws nd_itr tag_itr).
Proof.
  induction ws as [|x rest IH]; intros w1 w2 nd_itr tag_itr Hsim; [exact Hsim|].
  cbn [ways_loop]. rewrite (way_body_sim w1 w2 x nd_itr tag_itr Hsim).
  destruct (way_body B w2 x nd_itr tag_itr) as [[calls ni] ti].
  apply IH, summary_sim_emit, Hsim.
Qed.

Lemma relations_loop_sim rs :
  forall w1 w2 rm_itr tag_itr,
    summary_sim w1 w2 ->
    summary_sim (relations_loop B w1 rs rm_itr tag_itr)
                (relations_loop B w2 rs rm_itr tag_itr).
Proof.
  induction rs as [|r rest IH]; intros w1 w2 rm_itr tag_itr Hsim; [exact Hsim|].
  cbn [relations_loop]. rewrite (relation_body_sim w1 w2 r rm_itr tag_itr Hsim).
  destruct (relation_body B w2 r rm_itr tag_itr) as [[calls mi] ti].
  apply IH, summary_sim_emit, Hsim.
Qed.

Lemma run_sim ps :
  forall w1 w2, summary_sim w1 w2 -> summary_sim (run B w1 ps) (run B w2 ps).
Proof.
  induction ps as [|p ps IH]; intros w1 w2 Hsim; [exact Hsim|].
  cbn [run fold_left]. apply IH. destruct p; cbn [run_pass].
  - apply changesets_loop_sim, Hsim.
  - apply nodes_loop_sim, Hsim.
  - apply ways_loop_sim, Hsim.
  - apply relations_loop_sim, Hsim.
Qed.

(** Under summary user information the document is the same for two user
    tables that know the same ids, and for any two user tables when
    discussions are left out. *)
Lemma document_summary_users generator users1 users2 max_time hv cd ps :
  cd = changeset_discussions.NONE \/ same_known users1 users2 ->
  document B generator users1 max_time user_info_level.SUMMARY hv cd ps
  = document B generator users2 max_time user_info_level.SUMMARY hv cd ps.
Proof.
  intros Hk. unfold document, finish. cbn [written emit].
  assert (Hsim : summary_sim
            (xml_writer_new B generator users1 max_time
                            user_info_level.SUMMARY hv cd)
            (xml_writer_new B generator users2 max_time
                            user_info_level.SUMMARY hv cd)).
  { unfold summary_sim, is_summary. cbn. tauto. }
  destruct (run_sim ps _ _ Hsim) as (-> & _). reflexivity.
Qed.

Lemma all_attributes_no_text calls :
  all_attributes calls = true -> text_nodes calls = [].
Proof.
  induction calls as [|c calls IH]; [reflexivity|].
  cbn [all_attributes forallb]. intros H.
  apply andb_true_iff in H as [Hc Hrest].
  destruct c; try discriminate Hc. apply IH, Hrest.
Qed.

Lemma write_tags_no_text id version tag_itr :
  text_nodes (fst (write_tags B id version tag_itr)) = [].
Proof.
  induction tag_itr as [|t next IH]; [reflexivity|]. cbn [write_tags].
  destruct (_ || _); [|reflexivity].
  destruct (write_tags B id version next) as [out itr]. cbn [fst] in *.
  rewrite text_nodes_app, IH. destruct (_ && _); reflexivity.
Qed.

Lemma write_changeset_tags_no_text id tag_itr :
  text_nodes (fst (write_changeset_tags B id tag_itr)) = [].
Proof.
  induction tag_itr as [|t next IH]; [reflexivity|].
  cbn [write_changeset_tags]. destruct (_ <=? _); [|reflexivity].
  destruct (write_changeset_tags B id next) as [out itr]. cbn [fst] in *.
  rewrite text_nodes_app, IH. destruct (_ =? _); reflexivity.
Qed.

Lemma write_nds_no_text id version nd_itr :
  text_nodes (fst (write_nds id version nd_itr)) = [].
Proof.
  induction nd_itr as [|t next IH]; [reflexivity|]. cbn [write_nds].
  destruct (_ || _); [|reflexivity].
  destruct (write_nds id version next) as [out itr]. cbn [fst] in *.
  rewrite text_nodes_app, IH. destruct (_ && _); reflexivity.
Qed.

Lemma write_members_no_text id version rm_itr :
  text_nodes (fst (write_members B id version rm_itr)) = [].
Proof.
  induction rm_itr as [|t next IH]; [reflexivity|]. cbn [write_members].
  destruct (_ || _); [|reflexivity].
  destruct (write_members B id version next) as [out itr]. cbn [fst] in *.
  rewrite text_nodes_app, IH. destruct (_ && _); reflexivity.
Qed.

Lemma node_body_no_text w n tag_itr :
  text_nodes (fst (node_body B w n tag_itr)) = [].
Proof.
  unfold node_body.
  pose proof (write_tags_no_text (node.id n) (node.version n) tag_itr) as Ht.
  destruct (write_tags B (node.id n) (node.version n) tag_itr) as [tags ti].
  cbn [fst] in Ht.
  assert (Hcommon := all_attributes_no_text _
            (common_attributes_all B n (m_has_history w) (m_changesets w)
                                   (m_users w) (m_user_info_level w))).
  destruct (node.visible n); cbn [fst]; rewrite !text_nodes_app, Hcommon,
    ?Ht; reflexivity.
Qed.

Lemma way_body_no_text w x nd_itr tag_itr :
  text_nodes (fst (fst (way_body B w x nd_itr tag_itr))) = [].
Proof.
  unfold way_body.
  pose proof (write_tags_no_text (way.id x) (way.version x) tag_itr) as Ht.
  pose proof (write_nds_no_text (way.id x) (way.version x) nd_itr) as Hn.
  destruct (write_tags B (way.id x) (way.version x) tag_itr) as [tags ti].
  destruct (write_nds (way.id x) (way.version x) nd_itr) as [nds ni].
  cbn [fst] in Ht, Hn.
  assert (Hcommon := all_attributes_no_text _
            (common_attributes_all B x (m_has_history w) (m_changesets w)
                                   (m_users w) (m_user_info_level w))).
  destruct (way.visible x); cbn [fst]; rewrite !text_nodes_app, Hcommon,
    ?Ht, ?Hn; reflexivity.
Qed.

Lemma relation_body_no_text w r rm_itr tag_itr :
  text_nodes (fst (fst (relation_body B w r rm_itr tag_itr))) = [].
Proof.
  unfold relation_body.
  pose proof (write_tags_no_text (relation.id r) (relation.version r) tag_itr)
    as Ht.
  pose proof (write_members_no_text (relation.id r) (relation.version r)
                                    rm_itr) as Hm.
  destruct (write_tags B (relation.id r) (relation.version r) tag_itr)
    as [tags ti].
  destruct (write_members B (relation.id r) (relation.version r) rm_itr)
    as [members mi].
  cbn [fst] in Ht, Hm.
  assert (Hcommon := all_attributes_no_text _
            (common_attributes_all B r (m_has_history w) (m_changesets w)
                                   (m_users w) (m_user_info_level w))).
  destruct (relation.visible r); cbn [fst]; rewrite !text_nodes_app, Hcommon,
    ?Ht, ?Hm; reflexivity.
Qed.

Lemma changeset_body_no_text w cs tag_itr comment_itr :
  m_changeset_discussions w = changeset_discussions.NONE ->
  text_nodes (cs_calls (changeset_body B w cs tag_itr comment_itr)) = [].
Proof.
  intros Hcd. rewrite cs_calls_eq.
  unfold discussion_calls. destruct (count_comments _ _ _) as [count cci].
  rewrite Hcd, andb_false_r, !text_nodes_app.
  destruct (changeset_attributes_split B (m_now w) (m_users w)
              (m_user_info_level w) cs) as (attrs & -> & Hattrs).
  rewrite text_nodes_app, (all_attributes_no_text _ Hattrs).
  rewrite write_changeset_tags_no_text. reflexivity.
Qed.

(** Without discussions no text node is written. *)
Lemma document_no_discussion_no_text generator users max_time uil hv ps :
  text_nodes (document B generator users max_time uil hv
                       changeset_discussions.NONE ps) = [].
Proof.
  unfold document, finish. cbn [written emit].
  destruct (run_extends B (fun d => text_nodes d = [])
              (fun w => m_changeset_discussions w = changeset_discussions.NONE))
    with (w := xml_writer_new B generator users max_time uil hv
                              changeset_discussions.NONE) (ps := ps)
    as (delta & -> & Hdelta); try reflexivity.
  - intros a b Ha Hb. rewrite text_nodes_app, Ha, Hb. reflexivity.
  - intros w w' (_ & _ & _ & <- & _) H. exact H.
  - intros; apply changeset_body_no_text; assumption.
  - intros; apply node_body_no_text.
  - intros; apply way_body_no_text.
  - intros; apply relation_body_no_text.
  - rewrite !text_nodes_app, Hdelta. reflexivity.
Qed.

End SummarySimulation.

(** C2, as the code has it: under summary user information the document
    holds no [uid] and no [user] attribute, and it is the same for any
    two user tables that know the same user ids (display names never
    reach it).  Comment bodies are gated by the inclusion of discussions,
    not by the user information level: a [comment] element written under
    summary user information holds its body text, and it is when
    discussions are left out that the document holds no text node and is
    the same for any two user tables. *)
Theorem C2_summary_hides_authors_not_comment_text :
  (forall B generator users max_time hv cd ps,
      author_attributes
        (document B generator users max_time user_info_level.SUMMARY hv cd ps)
      = ([], []))
  /\ (forall B generator users1 users2 max_time hv cd ps,
         same_known users1 users2 ->
         document B generator users1 max_time user_info_level.SUMMARY hv cd ps
         = document B generator users2 max_time user_info_level.SUMMARY hv cd
                    ps)
  /\ (forall B generator users1 users2 max_time hv ps,
         document B generator users1 max_time user_info_level.SUMMARY hv
                  changeset_discussions.NONE ps
         = document B generator users2 max_time user_info_level.SUMMARY hv
                    changeset_discussions.NONE ps
         /\ text_nodes
              (document B generator users1 max_time user_info_level.SUMMARY hv
                        changeset_discussions.NONE ps) = [])
  /\ (forall B c name,
         text_nodes (add_comment B c name user_info_level.SUMMARY)
         = [Str.c_str (sanitize B (changeset_comment.body c))]
         /\ author_attributes (add_comment B c name user_info_level.SUMMARY)
            = ([], [])).
Proof.
  split; [|split; [|split]].
  - intros. apply document_summary_no_author.
  - intros B generator users1 users2 max_time hv cd ps Hk.
    apply document_summary_users. right. exact Hk.
  - intros B generator users1 users2 max_time hv ps. split.
    + apply document_summary_users. left. reflexivity.
    + apply document_no_discussion_no_text.
  - intros B c name. split; reflexivity.
Qed.

Lemma C2_summary_hides_authors_not_comment_text_witness :
  let users1 : user_map_t := {[ 7 := "alice" ]} in
  let users2 : user_map_t := {[ 7 := "someone else" ]} in
  let ps := [Changesets [Demo.a_changeset 5 7 Demo.earlier] []
                        [Demo.a_comment 5 7 "looks good" true];
             Nodes [Demo.a_node 1 1 5 true] []] in
  same_known users1 users2
  /\ document Demo.B "planet-dump-ng" users1 Demo.now user_info_level.SUMMARY
              historical_versions.FULL changeset_discussions.FULL ps
     = document Demo.B "planet-dump-ng" users2 Demo.now
                user_info_level.SUMMARY historical_versions.FULL
                changeset_discussions.FULL ps.
Proof.
  intros users1 users2 ps.
  assert (Hk : same_known users1 users2).
  { intros k. subst users1 users2. destruct (decide (k = 7)) as [->|Hne].
    - rewrite !lookup_singleton_eq. split; eauto.
    - rewrite !lookup_singleton_ne by congruence. reflexivity. }
  split; [exact Hk|].
  exact (proj1 (proj2 C2_summary_hides_authors_not_comment_text)
               Demo.B "planet-dump-ng" users1 users2 Demo.now
               historical_versions.FULL changeset_discussions.FULL ps Hk).
Defined.

(** C2, as stated, at one changeset with one visible comment whose author
    is in the user table, summary user information and discussions
    included: the comment body is in the document, and the document is
    not the one written for the empty user table. *)
Lemma C2_comment_text_under_summary_counterexample :
  let ps := [Changesets [Demo.a_changeset 5 7 Demo.earlier] []
                        [Demo.a_comment 5 7 "looks good" true]] in
  let doc (users : user_map_t) :=
    document Demo.B "planet-dump-ng" users Demo.now user_info_level.SUMMARY
             historical_versions.FULL changeset_discussions.FULL ps in
  text_nodes (doc Demo.alice) = ["looks good"]
  /\ text_nodes (doc ∅) = []
  /\ doc Demo.alice <> doc ∅.
Proof.
  cbv zeta.
  split; [vm_compute; reflexivity|].
  split; [vm_compute; reflexivity|].
  intros H. apply (f_equal text_nodes) in H. vm_compute in H. discriminate H.
Qed.

(* ===================================================================== *)
(** * Coordinates: the double division and its seven decimals *)
(* ===================================================================== *)

(** ** The number of binary digits of a mantissa *)

Lemma digits2_pos_size p : digits2_pos p = Pos.size p.
Proof.
  induction p as [p IH|p IH|]; cbn; [rewrite IH | rewrite IH |]; reflexivity.
Qed.

Lemma Zdigits2_log2 p : Z.pos (digits2_pos p) = Z.log2 (Z.pos p) + 1.
Proof.
  rewrite digits2_pos_size. destruct p as [p|p|]; cbn [Pos.size Z.log2]; lia.
Qed.

Lemma digits_of_bounds p k :
  0 < k -> 2 ^ (k - 1) <= Z.pos p < 2 ^ k -> Z.pos (digits2_pos p) = k.
Proof.
  intros Hk Hb. rewrite Zdigits2_log2.
  rewrite (Z.log2_unique (Z.pos p) (k - 1)); [lia | lia |].
  replace (Z.succ (k - 1)) with k by lia. exact Hb.
Qed.

Lemma iter_xO_pow p k : Z.pos (Pos.iter xO p k) = Z.pos p * 2 ^ Z.pos k.
Proof.
  induction k as [|k IH] using Pos.peano_ind.
  - cbn. lia.
  - rewrite Pos.iter_succ, Pos2Z.inj_xO, IH, Pos2Z.inj_succ, Z.pow_succ_r by lia.
    lia.
Qed.

(** The powers of two that bound a normalized mantissa and a quotient. *)
Definition two52 : Z := 4503599627370496.
Definition two53 : Z := 9007199254740992.
Definition two54 : Z := 18014398509481984.

(** ** Rounding a mantissa of 53 or 54 digits *)

Lemma fexp_unclamped e : -1074 <= e - 53 -> fexp 53 1024 e = e - 53.
Proof. intros H. unfold fexp, emin. lia. Qed.

(** A normalized mantissa with an exact location is kept as it is. *)
Lemma round_exact sx m e :
  two52 <= Z.pos m < two53 -> -1074 <= e <= 971 ->
  binary_round_aux 53 1024 sx (Z.pos m) e loc_Exact = S754_finite sx m e.
Proof.
  intros Hm He. unfold binary_round_aux, shr_fexp.
  cbn [Zdigits2].
  rewrite (digits_of_bounds m 53) by (unfold two52, two53 in *; cbn; lia).
  rewrite fexp_unclamped by lia.
  replace (53 + e - 53 - e) with 0 by lia.
  cbn [shr shr_record_of_loc shr_m loc_of_shr_record round_nearest_even
       Zdigits2].
  rewrite (digits_of_bounds m 53) by (unfold two52, two53 in *; cbn; lia).
  rewrite fexp_unclamped by lia.
  replace (53 + e - 53 - e) with 0 by lia.
  cbn [shr shr_m].
  replace (e <=? 1024 - 53) with true by (symmetry; apply Z.leb_le; lia).
  reflexivity.
Qed.

Lemma Zdigits2_of_bounds z k :
  0 < k -> 2 ^ (k - 1) <= z < 2 ^ k -> Zdigits2 z = k.
Proof.
  intros Hk Hb. destruct z as [|p|p].
  - assert (0 < 2 ^ (k - 1)) by (apply Z.pow_pos_nonneg; lia). lia.
  - cbn [Zdigits2]. apply digits_of_bounds; assumption.
  - assert (0 < 2 ^ (k - 1)) by (apply Z.pow_pos_nonneg; lia). lia.
Qed.

Lemma shr_fexp_keep mx ex lx :
  two52 <= mx < two53 -> -1074 <= ex ->
  shr_fexp 53 1024 mx ex lx = (shr_record_of_loc mx lx, ex).
Proof.
  intros Hm He. unfold shr_fexp.
  rewrite (Zdigits2_of_bounds mx 53) by (unfold two52, two53 in *; cbn; lia).
  rewrite fexp_unclamped by lia.
  replace (53 + ex - 53 - ex) with 0 by lia. reflexivity.
Qed.

Lemma shr_fexp_one mx ex lx :
  two53 <= mx < two54 -> -1074 <= ex + 1 ->
  shr_fexp 53 1024 mx ex lx = (shr_1 (shr_record_of_loc mx lx), ex + 1).
Proof.
  intros Hm He. unfold shr_fexp.
  rewrite (Zdigits2_of_bounds mx 54) by (unfold two53, two54 in *; cbn; lia).
  rewrite fexp_unclamped by lia.
  replace (54 + ex - 53 - ex) with 1 by lia. reflexivity.
Qed.

Lemma shr_m_of_loc m l : shr_m (shr_record_of_loc m l) = m.
Proof. destruct l as [|[]]; reflexivity. Qed.

Lemma shr_1_half mrs :
  0 <= shr_m mrs -> shr_m (shr_1 mrs) = shr_m mrs / 2.
Proof.
  destruct mrs as [m r s]. cbn [shr_m]. intros Hm.
  rewrite <- Z.div2_div.
  destruct m as [|[p|p|]|p]; cbn; try reflexivity. lia.
Qed.

Lemma round_nearest_even_range m l :
  round_nearest_even m l = m \/ round_nearest_even m l = m + 1.
Proof.
  destruct l as [|[]]; cbn; auto. destruct (Z.even m); auto.
Qed.

(** The second half of [binary_round_aux]: the rounded mantissa is
    shifted once more if rounding made it 2^53, and packed. *)
Definition pack (sx : bool) (r e : Z) : spec_float :=
  let '(mrs, e') := shr_fexp 53 1024 r e loc_Exact in
  match shr_m mrs with
  | Z0 => S754_zero sx
  | Zpos m => if e' <=? 1024 - 53 then S754_finite sx m e' else S754_infinity sx
  | Zneg _ => S754_nan
  end.

Lemma binary_round_aux_pack sx mx ex lx :
  binary_round_aux 53 1024 sx mx ex lx
  = let '(mrs, e) := shr_fexp 53 1024 mx ex lx in
    pack sx (round_nearest_even (shr_m mrs) (loc_of_shr_record mrs)) e.
Proof. reflexivity. Qed.

Lemma pack_normal sx r e :
  two52 <= r <= two53 -> -1074 <= e <= 970 ->
  exists M E, pack sx r e = S754_finite sx M E
              /\ e <= E <= e + 1 /\ Z.pos M * 2 ^ (E - e) = r.
Proof.
  intros Hr He. unfold pack.
  destruct (Z.eq_dec r two53) as [->|Hne].
  - rewrite shr_fexp_one by (unfold two53, two54; lia).
    cbn [shr_record_of_loc shr_1 two53 shr_m].
    replace (e + 1 <=? 1024 - 53) with true by (symmetry; apply Z.leb_le; lia).
    eexists _, _. split; [reflexivity|]. split; [lia|].
    replace (e + 1 - e) with 1 by lia. reflexivity.
  - rewrite shr_fexp_keep by lia. cbn [shr_record_of_loc shr_m].
    destruct r as [|m|m]; [unfold two52 in Hr; lia | | unfold two52 in Hr; lia].
    replace (e <=? 1024 - 53) with true by (symmetry; apply Z.leb_le; lia).
    exists m, e. split; [reflexivity|]. split; [lia|].
    rewrite Z.sub_diag. lia.
Qed.

(** Rounding a mantissa of 53 or 54 digits moves it by at most two units
    of its last place. *)
Lemma binary_round_aux_near sx mx ex lx :
  two52 <= mx < two54 -> -1074 <= ex <= 969 ->
  exists M E, binary_round_aux 53 1024 sx mx ex lx = S754_finite sx M E
              /\ ex <= E <= ex + 2
              /\ mx - 1 <= Z.pos M * 2 ^ (E - ex) <= mx + 2.
Proof.
  intros Hm He. rewrite binary_round_aux_pack.
  destruct (Z_lt_le_dec mx two53) as [Hlt|Hge].
  - rewrite shr_fexp_keep by lia. rewrite shr_m_of_loc.
    set (r := round_nearest_even mx _).
    assert (Hr : r = mx \/ r = mx + 1) by apply round_nearest_even_range.
    destruct (pack_normal sx r ex) as (M & E & Hp & HE & HM);
      [unfold two53 in *; lia | lia |].
    exists M, E. split; [exact Hp|]. split; [lia|]. lia.
  - rewrite shr_fexp_one by lia.
    set (mrs := shr_1 (shr_record_of_loc mx lx)).
    assert (Hhalf : shr_m mrs = mx / 2).
    { unfold mrs. rewrite shr_1_half; rewrite shr_m_of_loc;
        [reflexivity | unfold two52 in Hm; lia]. }
    set (r := round_nearest_even (shr_m mrs) _).
    assert (Hr : r = shr_m mrs \/ r = shr_m mrs + 1)
      by apply round_nearest_even_range.
    rewrite Hhalf in Hr.
    assert (Hdiv : two52 <= mx / 2 < two53).
    { unfold two52, two53, two54 in *. Z.div_mod_to_equations. lia. }
    destruct (pack_normal sx r (ex + 1)) as (M & E & Hp & HE & HM);
      [lia | lia |].
    exists M, E. split; [exact Hp|]. split; [lia|].
    replace (E - ex) with ((E - (ex + 1)) + 1) by lia.
    rewrite Z.pow_add_r by lia. change (2 ^ 1) with 2.
    rewrite Z.mul_assoc, HM.
    Z.div_mod_to_equations. lia.
Qed.

(** ** Integers as doubles, and their quotient by [SCALE] *)

(** An integer below 2^53 is represented exactly. *)
Lemma binary_round_int sx p :
  Z.pos p < two53 ->
  exists m e, binary_round 53 1024 sx p 0 = S754_finite sx m e
              /\ two52 <= Z.pos m < two53 /\ -52 <= e <= 0
              /\ Z.pos m = Z.pos p * 2 ^ (- e).
Proof.
  intros Hp. unfold binary_round.
  pose proof (Z.log2_spec (Z.pos p) ltac:(lia)) as Hlog.
  pose proof (Z.log2_nonneg (Z.pos p)) as Hnn.
  rewrite Zdigits2_log2. set (d := Z.log2 (Z.pos p) + 1) in *.
  replace (Z.succ (Z.log2 (Z.pos p))) with d in Hlog by (unfold d; lia).
  replace (Z.log2 (Z.pos p)) with (d - 1) in Hlog by (unfold d; lia).
  assert (Hd : 1 <= d <= 53).
  { split; [unfold d; lia|].
    destruct (Z_le_gt_dec d 53) as [H|H]; [exact H|exfalso].
    assert (2 ^ 53 <= 2 ^ (d - 1)) by (apply Z.pow_le_mono_r; lia).
    unfold two53 in Hp. change (2 ^ 53) with 9007199254740992 in *. lia. }
  rewrite fexp_unclamped by lia. unfold shl_align.
  replace (d + 0 - 53 - 0) with (d - 53) by lia.
  destruct (d - 53) as [|k|k] eqn:Hk; [| lia |].
  - assert (d = 53) by lia. subst d.
    replace (Z.log2 (Z.pos p) + 1 - 1) with 52 in Hlog by lia.
    change (2 ^ 52) with two52 in Hlog.
    rewrite round_exact by (unfold two53 in *; lia).
    exists p, 0. split; [reflexivity|]. split; [unfold two53 in *; lia|].
    split; [lia|]. cbn. lia.
  - assert (Hm : Z.pos (Pos.iter xO p k) = Z.pos p * 2 ^ (53 - d))
      by (rewrite iter_xO_pow; f_equal; f_equal; lia).
    assert (Hpow : 2 ^ (d - 1) * 2 ^ (53 - d) = two52)
      by (rewrite <- Z.pow_add_r by lia; replace (d - 1 + (53 - d)) with 52 by lia;
          reflexivity).
    assert (Hpow' : 2 ^ d * 2 ^ (53 - d) = two53)
      by (rewrite <- Z.pow_add_r by lia; replace (d + (53 - d)) with 53 by lia;
          reflexivity).
    assert (Hpos : 0 < 2 ^ (53 - d)) by (apply Z.pow_pos_nonneg; lia).
    assert (Hb : two52 <= Z.pos (Pos.iter xO p k) < two53).
    { rewrite Hm, <- Hpow, <- Hpow'. split.
      - apply Z.mul_le_mono_nonneg_r; lia.
      - apply Z.mul_lt_mono_pos_r; lia. }
    replace (d + 0 - 53) with (d - 53) by lia.
    rewrite round_exact by lia.
    exists (Pos.iter xO p k), (d - 53). split; [reflexivity|].
    split; [exact Hb|]. split; [lia|].
    rewrite Hm. f_equal. f_equal. lia.
Qed.

Lemma SFdiv_core_normal m1 e1 m2 e2 :
  two52 <= m1 < two53 -> two52 <= m2 < two53 -> -1021 <= e1 - e2 - 53 ->
  SFdiv_core_binary 53 1024 m1 e1 m2 e2
  = ((m1 * 2 ^ 53) / m2, e1 - e2 - 53,
     new_location m2 ((m1 * 2 ^ 53) mod m2)).
Proof.
  intros H1 H2 He. unfold SFdiv_core_binary.
  rewrite (Zdigits2_of_bounds m1 53), (Zdigits2_of_bounds m2 53)
    by (unfold two52, two53 in *; cbn; lia).
  rewrite fexp_unclamped by lia.
  replace (Z.min (53 + e1 - (53 + e2) - 53) (e1 - e2))
    with (e1 - e2 - 53) by lia.
  replace (e1 - e2 - (e1 - e2 - 53)) with 53 by lia.
  rewrite Z.shiftl_mul_pow2 by lia.
  unfold Z.div, Z.modulo.
  destruct (Z.div_eucl (m1 * 2 ^ 53) m2) as [q r]. reflexivity.
Qed.

(** The mantissa of [double(SCALE)], 10^7 * 2^29. *)
Definition m_scale : positive := 5368709120000000.

Lemma of_int_SCALE : Dbl.of_int SCALE = S754_finite false m_scale (-29).
Proof. vm_compute. reflexivity. Qed.

(** A double within half a unit of the seventh decimal of [n / 10^7]
    is printed as [n]. *)
Lemma scaled7_round M E n :
  E < 0 ->
  2 * Z.abs (Z.pos M * 10 ^ 7 - n * 2 ^ (- E)) < 2 ^ (- E) ->
  Dbl.scaled7 M E = n.
Proof.
  intros HE Hnear. unfold Dbl.scaled7.
  replace (0 <=? E) with false by (symmetry; apply Z.leb_gt; lia).
  set (den := 2 ^ (- E)) in *. set (num := Z.pos M * 10 ^ 7) in *.
  assert (Hden : 0 < den) by (apply Z.pow_pos_nonneg; lia).
  destruct (Z_le_gt_dec (n * den) num) as [Hle|Hgt].
  - assert (Hq : n = num / den)
      by (apply (Z.div_unique num den n (num - n * den)); lia).
    assert (Hr : num - n * den = num mod den)
      by (apply (Z.mod_unique num den n (num - n * den)); lia).
    rewrite <- Hq, <- Hr.
    replace (2 * (num - n * den) ?= den) with Lt
      by (symmetry; apply Z.compare_lt_iff; lia).
    reflexivity.
  - assert (Hq : n - 1 = num / den)
      by (apply (Z.div_unique num den (n - 1) (num - (n - 1) * den)); lia).
    assert (Hr : num - (n - 1) * den = num mod den)
      by (apply (Z.mod_unique num den (n - 1) (num - (n - 1) * den)); lia).
    rewrite <- Hq, <- Hr.
    replace (2 * (num - (n - 1) * den) ?= den) with Gt
      by (symmetry; apply Z.compare_gt_iff; lia).
    lia.
Qed.

Definition two51 : Z := 2251799813685248.

(** Below 2^51 the quotient by [SCALE], rounded to a double and then to
    seven decimals, gives the integer back. *)

Lemma div_by_SCALE sx p :
  Z.pos p < two51 ->
  exists M E,
    Dbl.div (binary_round 53 1024 sx p 0) (Dbl.of_int SCALE)
    = S754_finite sx M E
    /\ Dbl.scaled7 M E = Z.pos p.
Proof.
  intros Hp.
  destruct (binary_round_int sx p) as (m1 & e1 & -> & Hm1 & He1 & Hval);
    [unfold two51, two53 in *; lia|].
  rewrite of_int_SCALE. unfold Dbl.div, SFdiv.
  rewrite SFdiv_core_normal;
    [| exact Hm1 | unfold two52, two53, m_scale; lia | lia].
  rewrite xorb_false_r.
  set (q := Z.pos m1 * 2 ^ 53 / Z.pos m_scale).
  assert (Hq : Z.pos m_scale * q <= Z.pos m1 * 2 ^ 53
               < Z.pos m_scale * (q + 1)).
  { unfold q. pose proof (Z.mul_div_le (Z.pos m1 * 2 ^ 53) (Z.pos m_scale)
                            ltac:(lia)).
    pose proof (Z.mul_succ_div_gt (Z.pos m1 * 2 ^ 53) (Z.pos m_scale)
                  ltac:(lia)). lia. }
  change (2 ^ 53) with 9007199254740992 in Hq.
  unfold m_scale in Hq.
  assert (Hqb : two52 <= q < two54)
    by (unfold two52, two53, two54 in *; lia).
  unfold Dbl.prec, Dbl.emax.
  destruct (binary_round_aux_near sx q (e1 - -29 - 53)
              (new_location (Z.pos m_scale)
                            ((Z.pos m1 * 2 ^ 53) mod Z.pos m_scale)))
    as (M & E & -> & HE & HM); [exact Hqb | lia |].
  exists M, E. split; [reflexivity|].
  set (T := 2 ^ (- e1)) in *.
  assert (HT : 0 < T) by (apply Z.pow_pos_nonneg; lia).
  assert (HT3 : 3 <= T).
  { destruct (Z_le_gt_dec 3 T) as [H|H]; [exact H|exfalso].
    assert (Z.pos p * T <= Z.pos p * 2) by (apply Z.mul_le_mono_nonneg_l; lia).
    unfold two51, two52 in *. lia. }
  apply scaled7_round; [lia|].
  assert (Hk : E - (e1 - -29 - 53) = 0 \/ E - (e1 - -29 - 53) = 1
               \/ E - (e1 - -29 - 53) = 2) by lia.
  assert (Hden : forall k, E - (e1 - -29 - 53) = k -> 0 <= k <= 24 ->
                           2 ^ (- E) = 2 ^ (24 - k) * T).
  { intros k Hk1 Hk0. unfold T. rewrite <- Z.pow_add_r by lia.
    f_equal. lia. }
  destruct Hk as [Hk|[Hk|Hk]]; rewrite Hk in HM;
    rewrite (Hden _ Hk) by lia;
    [change (2 ^ (24 - 0)) with 16777216; change (2 ^ 0) with 1 in HM
    |change (2 ^ (24 - 1)) with 8388608; change (2 ^ 1) with 2 in HM
    |change (2 ^ (24 - 2)) with 4194304; change (2 ^ 2) with 4 in HM];
    change (10 ^ 7) with 10000000;
    [replace (Z.pos p * (16777216 * T)) with (Z.pos m1 * 16777216)
       by (rewrite Hval; lia)
    |replace (Z.pos p * (8388608 * T)) with (Z.pos m1 * 8388608)
       by (rewrite Hval; lia)
    |replace (Z.pos p * (4194304 * T)) with (Z.pos m1 * 4194304)
       by (rewrite Hval; lia)];
    lia.
Qed.

Lemma frac7_digits n :
  String.length (Dbl.frac7 n) = 7%nat
  /\ forallb Str.is_digit (Str.to_list (Dbl.frac7 n)) = true.
Proof.
  unfold Dbl.frac7. rewrite length_of_list, to_list_of_list.
  split; [reflexivity|].
  cbn [map forallb]. rewrite !digit_char_is_digit. reflexivity.
Qed.

(** C8: the coordinate attribute of a scaled integer [x] is the double
    [double(x) / 10000000] printed with [%.7f]; for every [x] of magnitude
    below 2^51 (every 32-bit value among them) that is the exact decimal
    expansion of x / 10^7: an optional minus sign, the integer part, a
    point and exactly seven digits; 123456789 gives [12.3456789]. *)
Theorem C8_coordinate_seven_decimals :
  (forall name x,
      attribute_double name (scaled x)
      = [WriteAttribute name (format_coordinate x)])
  /\ (forall x,
         - two51 < x < two51 ->
         format_coordinate x = Dbl.fixed7 (x <? 0) (Z.abs x))
  /\ (forall s n,
         Dbl.fixed7 s n
         = (if s then "-" else "") +s+ Str.fmt_int (n / 10000000) +s+ "."
           +s+ Dbl.frac7 (n mod 10000000)
         /\ String.length (Dbl.frac7 (n mod 10000000)) = 7%nat
         /\ forallb Str.is_digit (Str.to_list (Dbl.frac7 (n mod 10000000)))
            = true)
  /\ format_coordinate 123456789 = "12.3456789".
Proof.
  split; [reflexivity|]. split; [|split].
  - intros x Hx. unfold format_coordinate.
    destruct x as [|p|p].
    + vm_compute. reflexivity.
    + change (Dbl.of_int (Z.pos p)) with (binary_round 53 1024 false p 0).
      destruct (div_by_SCALE false p) as (M & E & -> & Hs); [lia|].
      cbn [Dbl.fmt_7f]. rewrite Hs. reflexivity.
    + change (Dbl.of_int (Z.neg p)) with (binary_round 53 1024 true p 0).
      destruct (div_by_SCALE true p) as (M & E & -> & Hs); [lia|].
      cbn [Dbl.fmt_7f]. rewrite Hs. reflexivity.
  - intros s n. split; [reflexivity|]. apply frac7_digits.
  - vm_compute. reflexivity.
Qed.

Lemma C8_coordinate_seven_decimals_witness :
  - two51 < -1800000000 < two51
  /\ format_coordinate (-1800000000) = "-180.0000000".
Proof.
  assert (H : - two51 < -1800000000 < two51) by (unfold two51; lia).
  split; [exact H|].
  rewrite (proj1 (proj2 C8_coordinate_seven_decimals) (-1800000000) H).
  vm_compute. reflexivity.
Defined.

(* ===================================================================== *)
(** * The passes on sorted input: every parent gets its own rows *)
(* ===================================================================== *)

Lemma key_ltb_not_leb a k r :
  key_ltb a k = true -> key_eqb r k = true -> key_leb r a = false.
Proof.
  unfold key_ltb, key_leb, key_eqb.
  destruct a as [a1 a2], k as [k1 k2], r as [r1 r2]. cbn [fst snd].
  rewrite !andb_true_iff, !orb_true_iff, !andb_true_iff, negb_true_iff,
    andb_false_iff, orb_false_iff, andb_false_iff, !Z.ltb_lt, !Z.eqb_eq,
    !Z.leb_le, !Z.eqb_neq, Z.ltb_ge, Z.leb_gt.
  lia.
Qed.

Lemma key_ltb_trans a b c :
  key_ltb a b = true -> key_ltb b c = true -> key_ltb a c = true.
Proof.
  unfold key_ltb, key_leb, key_eqb.
  destruct a as [a1 a2], b as [b1 b2], c as [c1 c2]. cbn [fst snd].
  rewrite !andb_true_iff, !orb_true_iff, !andb_true_iff, !negb_true_iff,
    !andb_false_iff, !Z.ltb_lt, !Z.eqb_eq, !Z.leb_le, !Z.eqb_neq.
  lia.
Qed.

Section Alignment.

Context {A : Type}.
Variable key : A -> Z * Z.
Variable child : A -> list xml_call.

(** The rows of key [k] ahead of the iterator are all the rows of key
    [k] of the vector. *)
Definition aligned (ts itr : list A) (k : Z * Z) : Prop :=
  List.filter (fun r => key_eqb (key r) k) itr
  = List.filter (fun r => key_eqb (key r) k) ts.

(** What a loop body does with one cursor: the merge-join step for a
    visible parent, nothing for one that is not. *)
Definition join (visible : bool) (k : Z * Z) (itr : list A)
  : list xml_call * list A :=
  if visible then advance_to key child k.1 k.2 itr else ([], itr).

Lemma join_sorted ts visible k itr :
  sorted_rows key itr ->
  aligned ts itr k ->
  fst (join visible k itr)
  = (if visible
     then flat_map child (List.filter (fun r => key_eqb (key r) k) ts)
     else [])
  /\ sorted_rows key (snd (join visible k itr))
  /\ (forall k', key_ltb k k' = true -> aligned ts itr k' ->
                 aligned ts (snd (join visible k itr)) k').
Proof.
  intros Hs Ha. unfold join. destruct visible; [|repeat split; auto].
  destruct k as [id version]. cbn [fst snd].
  destruct (advance_to_sorted key child id version itr Hs) as (_ & H2 & H3).
  split; [rewrite H2, Ha; reflexivity|].
  rewrite H3. split; [apply StronglySorted_filter, Hs|].
  intros k' Hlt Ha'. unfold aligned in *. rewrite <- Ha'.
  apply filter_filter_implies. intros r Hr.
  apply negb_true_iff. eapply key_ltb_not_leb; eassumption.
Qed.

End Alignment.

(** Two writers that a loop body cannot tell apart: the same settings
    and the same changeset-to-author map. *)
Definition same_view (w w' : xml_writer) : Prop :=
  same_settings w w' /\ m_changesets w = m_changesets w'.

Lemma same_view_emit w w' calls diag :
  same_view w w' -> same_view w (emit w' calls diag (m_changesets w')).
Proof.
  intros [Hs Hm]. split; [|exact Hm].
  eapply same_settings_trans; [exact Hs | apply same_settings_emit].
Qed.

Definition node_key (n : node.t) : Z * Z := (node.id n, node.version n).
Definition way_key (x : way.t) : Z * Z := (way.id x, way.version x).
Definition relation_key (r : relation.t) : Z * Z :=
  (relation.id r, relation.version r).

(** Parents in strictly increasing order of (id, version). *)
Definition increasing {T} (key : T -> Z * Z) (ps : list T) : Prop :=
  StronglySorted (fun a b => key_ltb (key a) (key b) = true) ps.

Section SortedPasses.

Variable B : build.

(** Specification side: the element of a node, its tags taken from the
    whole tag vector. *)
Definition node_element (w : xml_writer) (ts : list old_tag.t) (n : node.t)
  : list xml_call :=
  begin "node"
  ++ attribute_int "id" (node.id n)
  ++ (if node.visible n
      then attribute_double "lat" (scaled (node.latitude n))
           ++ attribute_double "lon" (scaled (node.longitude n))
      else [])
  ++ write_common_attributes B n (m_has_history w) (m_changesets w)
                             (m_users w) (m_user_info_level w)
  ++ (if node.visible n
      then flat_map (tag_child B)
             (List.filter (fun t => key_eqb (tag_key t) (node_key n)) ts)
      else [])
  ++ end_.

(** Specification side: the element of a way, its node references and
    then its tags, taken from the whole vectors. *)
Definition way_element (w : xml_writer) (wns : list way_node.t)
           (ts : list old_tag.t) (x : way.t) : list xml_call :=
  begin "way"
  ++ attribute_int "id" (way.id x)
  ++ write_common_attributes B x (m_has_history w) (m_changesets w)
                             (m_users w) (m_user_info_level w)
  ++ (if way.visible x
      then flat_map nd_child
             (List.filter (fun nd => key_eqb (nd_key nd) (way_key x)) wns)
           ++ flat_map (tag_child B)
                (List.filter (fun t => key_eqb (tag_key t) (way_key x)) ts)
      else [])
  ++ end_.

(** Specification side: the element of a relation, its members and then
    its tags, taken from the whole vectors. *)
Definition relation_element (w : xml_writer) (rms : list relation_member.t)
           (ts : list old_tag.t) (r : relation.t) : list xml_call :=
  begin "relation"
  ++ attribute_int "id" (relation.id r)
  ++ write_common_attributes B r (m_has_history w) (m_changesets w)
                             (m_users w) (m_user_info_level w)
  ++ (if relation.visible r
      then flat_map (member_child B)
             (List.filter (fun rm => key_eqb (member_key rm) (relation_key r))
                          rms)
           ++ flat_map (tag_child B)
                (List.filter (fun t => key_eqb (tag_key t) (relation_key r)) ts)
      else [])
  ++ end_.

Lemma node_body_join w n tag_itr :
  node_body B w n tag_itr
  = (begin "node"
     ++ attribute_int "id" (node.id n)
     ++ (if node.visible n
         then attribute_double "lat" (scaled (node.latitude n))
              ++ attribute_double "lon" (scaled (node.longitude n))
         else [])
     ++ write_common_attributes B n (m_has_history w) (m_changesets w)
                                (m_users w) (m_user_info_level w)
     ++ fst (join tag_key (tag_child B) (node.visible n) (node_key n) tag_itr)
     ++ end_,
     snd (join tag_key (tag_child B) (node.visible n) (node_key n) tag_itr)).
Proof.
  unfold node_body, join, node_key. cbn [fst snd].
  rewrite write_tags_advance.
  destruct (node.visible n); [|reflexivity].
  destruct (advance_to tag_key (tag_child B) (node.id n) (node.version n)
                       tag_itr) as [tags ti].
  reflexivity.
Qed.

Lemma nodes_loop_sorted w ts ns :
  forall w' tag_itr,
    same_view w w' ->
    increasing node_key ns ->
    sorted_rows tag_key tag_itr ->
    (forall n, In n ns -> aligned tag_key ts tag_itr (node_key n)) ->
    written (nodes_loop B w' ns tag_itr)
    = written w' ++ flat_map (node_element w ts) ns.
Proof.
  induction ns as [|n rest IH]; intros w' tag_itr Hv Hinc Hs Ha.
  - cbn. rewrite app_nil_r. reflexivity.
  - cbn [nodes_loop flat_map]. rewrite node_body_join.
    inversion Hinc as [|x l Hrest Hlt]; subst.
    destruct (join_sorted tag_key (tag_child B) ts (node.visible n)
                (node_key n) tag_itr Hs (Ha n (or_introl eq_refl)))
      as (Hout & Hs' & Hal).
    rewrite IH.
    + cbn [written emit]. rewrite <- app_assoc. f_equal. f_equal.
      rewrite Hout. unfold node_element.
      destruct Hv as [(_ & -> & -> & _ & -> & _) ->]. reflexivity.
    + apply same_view_emit, Hv.
    + exact Hrest.
    + exact Hs'.
    + intros n' Hin. apply Hal; [|apply Ha; right; exact Hin].
      rewrite Forall_forall in Hlt. apply Hlt, list_elem_of_In, Hin.
Qed.

Lemma way_body_join w x nd_itr tag_itr :
  way_body B w x nd_itr tag_itr
  = (begin "way"
     ++ attribute_int "id" (way.id x)
     ++ write_common_attributes B x (m_has_history w) (m_changesets w)
                                (m_users w) (m_user_info_level w)
     ++ (fst (join nd_key nd_child (way.visible x) (way_key x) nd_itr)
         ++ fst (join tag_key (tag_child B) (way.visible x) (way_key x)
                      tag_itr))
     ++ end_,
     snd (join nd_key nd_child (way.visible x) (way_key x) nd_itr),
     snd (join tag_key (tag_child B) (way.visible x) (way_key x) tag_itr)).
Proof.
  unfold way_body, join, way_key. cbn [fst snd].
  rewrite write_tags_advance, write_nds_advance.
  destruct (way.visible x); [|reflexivity].
  destruct (advance_to nd_key nd_child (way.id x) (way.version x) nd_itr)
    as [nds ni].
  destruct (advance_to tag_key (tag_child B) (way.id x) (way.version x)
                       tag_itr) as [tags ti].
  reflexivity.
Qed.

Lemma ways_loop_sorted w wns ts ws :
  forall w' nd_itr tag_itr,
    same_view w w' ->
    increasing way_key ws ->
    sorted_rows nd_key nd_itr ->
    sorted_rows tag_key tag_itr ->
    (forall x, In x ws -> aligned nd_key wns nd_itr (way_key x)) ->
    (forall x, In x ws -> aligned tag_key ts tag_itr (way_key x)) ->
    written (ways_loop B w' ws nd_itr tag_itr)
    = written w' ++ flat_map (way_element w wns ts) ws.
Proof.
  induction ws as [|x rest IH]; intros w' nd_itr tag_itr Hv Hinc Hsn Hst Han Hat.
  - cbn. rewrite app_nil_r. reflexivity.
  - cbn [ways_loop flat_map]. rewrite way_body_join.
    inversion Hinc as [|y l Hrest Hlt]; subst.
    destruct (join_sorted nd_key nd_child wns (way.visible x) (way_key x)
                nd_itr Hsn (Han x (or_introl eq_refl)))
      as (Hnout & Hsn' & Hnal).
    destruct (join_sorted tag_key (tag_child B) ts (way.visible x) (way_key x)
                tag_itr Hst (Hat x (or_introl eq_refl)))
      as (Htout & Hst' & Htal).
    rewrite Forall_forall in Hlt.
    rewrite IH.
    + cbn [written emit]. rewrite <- app_assoc. f_equal. f_equal.
      rewrite Hnout, Htout. unfold way_element.
      destruct Hv as [(_ & -> & -> & _ & -> & _) ->].
      destruct (way.visible x); reflexivity.
    + apply same_view_emit, Hv.
    + exact Hrest.
    + exact Hsn'.
    + exact Hst'.
    + intros x' Hin. apply Hnal; [|apply Han; right; exact Hin].
      apply Hlt, list_elem_of_In, Hin.
    + intros x' Hin. apply Htal; [|apply Hat; right; exact Hin].
      apply Hlt, list_elem_of_In, Hin.
Qed.

Lemma relation_body_join w r rm_itr tag_itr :
  relation_body B w r rm_itr tag_itr
  = (begin "relation"
     ++ attribute_int "id" (relation.id r)
     ++ write_common_attributes B r (m_has_history w) (m_changesets w)
                                (m_users w) (m_user_info_level w)
     ++ (fst (join member_key (member_child B) (relation.visible r)
                   (relation_key r) rm_itr)
         ++ fst (join tag_key (tag_child B) (relation.visible r)
                      (relation_key r) tag_itr))
     ++ end_,
     snd (join member_key (member_child B) (relation.visible r)
               (relation_key r) rm_itr),
     snd (join tag_key (tag_child B) (relation.visible r) (relation_key r)
               tag_itr)).
Proof.
  unfold relation_body, join, relation_key. cbn [fst snd].
  rewrite write_tags_advance, write_members_advance.
  destruct (relation.visible r); [|reflexivity].
  destruct (advance_to member_key (member_child B) (relation.id r)
                       (relation.version r) rm_itr) as [members mi].
  destruct (advance_to tag_key (tag_child B) (relation.id r)
                       (relation.version r) tag_itr) as [tags ti].
  reflexivity.
Qed.

Lemma relations_loop_sorted w rms ts rs :
  forall w' rm_itr tag_itr,
    same_view w w' ->
    increasing relation_key rs ->
    sorted_rows member_key rm_itr ->
    sorted_rows tag_key tag_itr ->
    (forall r, In r rs -> aligned member_key rms rm_itr (relation_key r)) ->
    (forall r, In r rs -> aligned tag_key ts tag_itr (relation_key r)) ->
    written (relations_loop B w' rs rm_itr tag_itr)
    = written w' ++ flat_map (relation_element w rms ts) rs.
Proof.
  induction rs as [|r rest IH];
    intros w' rm_itr tag_itr Hv Hinc Hsm Hst Ham Hat.
  - cbn. rewrite app_nil_r. reflexivity.
  - cbn [relations_loop flat_map]. rewrite relation_body_join.
    inversion Hinc as [|y l Hrest Hlt]; subst.
    destruct (join_sorted member_key (member_child B) rms (relation.visible r)
                (relation_key r) rm_itr Hsm (Ham r (or_introl eq_refl)))
      as (Hmout & Hsm' & Hmal).
    destruct (join_sorted tag_key (tag_child B) ts (relation.visible r)
                (relation_key r) tag_itr Hst (Hat r (or_introl eq_refl)))
      as (Htout & Hst' & Htal).
    rewrite Forall_forall in Hlt.
    rewrite IH.
    + cbn [written emit]. rewrite <- app_assoc. f_equal. f_equal.
      rewrite Hmout, Htout. unfold relation_element.
      destruct Hv as [(_ & -> & -> & _ & -> & _) ->].
      destruct (relation.visible r); reflexivity.
    + apply same_view_emit, Hv.
    + exact Hrest.
    + exact Hsm'.
    + exact Hst'.
    + intros r' Hin. apply Hmal; [|apply Ham; right; exact Hin].
      apply Hlt, list_elem_of_In, Hin.
    + intros r' Hin. apply Htal; [|apply Hat; right; exact Hin].
      apply Hlt, list_elem_of_In, Hin.
Qed.

Lemma same_view_refl w : same_view w w.
Proof. repeat split. Qed.

(** X1: on nodes in strictly increasing order of (id, version) and tags
    sorted by (id, version), the node pass appends, node by node, the
    element of the node: for a visible node its coordinates and exactly
    the tags of the whole tag vector keyed to its (id, version), in their
    order; for a node that is not visible neither, even when invisible and
    visible versions alternate. *)
Theorem nodes_pass_on_sorted_input (w : xml_writer) (ns : list node.t)
        (ts : list old_tag.t) :
  increasing node_key ns ->
  sorted_rows tag_key ts ->
  written (nodes B w ns ts) = written w ++ flat_map (node_element w ts) ns.
Proof.
  intros Hinc Hs. apply nodes_loop_sorted;
    [apply same_view_refl | exact Hinc | exact Hs | reflexivity].
Qed.

(** X2: on ways in strictly increasing order of (id, version) and
    way-nodes and tags sorted by (id, version), the way pass appends for
    each visible way its element with exactly its own node references
    followed by exactly its own tags, and for a way that is not visible
    the element without children. *)
Theorem ways_pass_on_sorted_input (w : xml_writer) (ws : list way.t)
        (wns : list way_node.t) (ts : list old_tag.t) :
  increasing way_key ws ->
  sorted_rows nd_key wns ->
  sorted_rows tag_key ts ->
  written (ways B w ws wns ts)
  = written w ++ flat_map (way_element w wns ts) ws.
Proof.
  intros Hinc Hsn Hst. apply ways_loop_sorted;
    [apply same_view_refl | exact Hinc | exact Hsn | exact Hst
    | reflexivity | reflexivity].
Qed.

(** X3: on relations in strictly increasing order of (id, version) and
    members and tags sorted by (id, version), the relation pass appends for
    each visible relation its element with exactly its own members
    followed by exactly its own tags, and for a relation that is not
    visible the element without children. *)
Theorem relations_pass_on_sorted_input (w : xml_writer)
        (rs : list relation.t) (rms : list relation_member.t)
        (ts : list old_tag.t) :
  increasing relation_key rs ->
  sorted_rows member_key rms ->
  sorted_rows tag_key ts ->
  written (relations B w rs rms ts)
  = written w ++ flat_map (relation_element w rms ts) rs.
Proof.
  intros Hinc Hsm Hst. apply relations_loop_sorted;
    [apply same_view_refl | exact Hinc | exact Hsm | exact Hst
    | reflexivity | reflexivity].
Qed.

End SortedPasses.

(* ===================================================================== *)
(** * The changeset pass on sorted input, tags and diagnostics included *)
(* ===================================================================== *)

Definition ctag_key (t : current_tag.t) : Z * Z := (current_tag.element_id t, 0).

(** Changeset tags sorted by changeset id. *)
Definition sorted_changeset_tags (ts : list current_tag.t) : Prop :=
  StronglySorted
    (fun a b => current_tag.element_id a <= current_tag.element_id b) ts.

(** The tags of changeset [id] in a tag sequence. *)
Definition tags_of (id : Z) (ts : list current_tag.t) : list current_tag.t :=
  List.filter (fun t => current_tag.element_id t =? id) ts.

Lemma sorted_changeset_tags_rows ts :
  sorted_changeset_tags ts -> sorted_rows ctag_key ts.
Proof.
  unfold sorted_changeset_tags, sorted_rows.
  induction 1 as [|t ts Hs IH Ht]; constructor; [exact IH|].
  eapply Forall_impl; [exact Ht|]. cbn beta. intros t' Hle.
  unfold key_leb, ctag_key. cbn [fst snd].
  destruct (Z.ltb_spec (current_tag.element_id t) (current_tag.element_id t'));
    [reflexivity|].
  replace (current_tag.element_id t =? current_tag.element_id t') with true
    by (symmetry; apply Z.eqb_eq; lia).
  reflexivity.
Qed.

Lemma ctag_filter id ts :
  List.filter (fun t => key_eqb (ctag_key t) (id, 0)) ts = tags_of id ts.
Proof.
  unfold tags_of. apply List.filter_ext. intros t.
  unfold key_eqb, ctag_key. cbn [fst snd]. apply andb_true_r.
Qed.

Section ChangesetPassSorted.

Variable B : build.

Definition ctag_child (t : current_tag.t) : list xml_call :=
  add_tag B (current_tag.key t) (current_tag.value t).

Lemma write_changeset_tags_advance id tag_itr :
  write_changeset_tags B id tag_itr
  = advance_to ctag_key ctag_child id 0 tag_itr.
Proof.
  induction tag_itr as [|t next IH]; [reflexivity|].
  cbn [write_changeset_tags advance_to]. rewrite IH.
  unfold ctag_key at 1 2 3 4. cbn [fst snd].
  rewrite !andb_true_r.
  replace ((current_tag.element_id t <? id) || (current_tag.element_id t =? id))
    with (current_tag.element_id t <=? id); [reflexivity|].
  destruct (Z.leb_spec (current_tag.element_id t) id),
    (Z.ltb_spec (current_tag.element_id t) id),
    (Z.eqb_spec (current_tag.element_id t) id); try reflexivity; lia.
Qed.

Lemma cs_tag_itr_eq w cs tag_itr comment_itr :
  cs_tag_itr (changeset_body B w cs tag_itr comment_itr)
  = snd (write_changeset_tags B (changeset.id cs) tag_itr).
Proof.
  unfold changeset_body.
  destruct (count_comments _ _ _) as [count cci].
  destruct (write_changeset_tags _ _ _) as [tags ti].
  destruct (_ && _); [destruct (write_comments _ _ _ _ _ _) as [[o e] i]|];
    reflexivity.
Qed.

(** Specification side: the diagnostics of one changeset. *)
Definition changeset_warnings (w : xml_writer)
           (ccs : list changeset_comment.t) (cs : changeset.t) : list string :=
  if (Z.of_nat (length (visible_comments (changeset.id cs) ccs)) >? 0)
     && changeset_discussions.eqb (m_changeset_discussions w)
                                  changeset_discussions.FULL
  then comment_warnings (m_users w) (visible_comments (changeset.id cs) ccs)
  else [].

(** Specification side: the whole element of a changeset, its tags and
    its discussion taken from the whole vectors. *)
Definition changeset_full_element (w : xml_writer) (ts : list current_tag.t)
           (ccs : list changeset_comment.t) (cs : changeset.t)
  : list xml_call :=
  changeset_attributes B (m_now w) (m_users w) (m_user_info_level w) cs
  ++ attribute_int "comments_count"
       (Z.of_nat (length (visible_comments (changeset.id cs) ccs)))
  ++ flat_map ctag_child (tags_of (changeset.id cs) ts)
  ++ discussion_of B w (changeset.id cs) ccs
  ++ end_.

Lemma key_ltb_ids a b : a < b -> key_ltb (a, 0) (b, 0) = true.
Proof.
  intros H. unfold key_ltb, key_leb, key_eqb. cbn [fst snd].
  replace (a <? b) with true by (symmetry; apply Z.ltb_lt; lia).
  replace (a =? b) with false by (symmetry; apply Z.eqb_neq; lia).
  reflexivity.
Qed.

Lemma changesets_loop_sorted w ts ccs css :
  forall w' tag_itr comment_itr,
    same_settings w w' ->
    StronglySorted Z.lt (map changeset.id css) ->
    sorted_rows ctag_key tag_itr ->
    sorted_comments comment_itr ->
    (forall cs, In cs css ->
                aligned ctag_key ts tag_itr (changeset.id cs, 0)) ->
    (forall cs, In cs css ->
                visible_comments (changeset.id cs) comment_itr
                = visible_comments (changeset.id cs) ccs) ->
    written (changesets_loop B w' css tag_itr comment_itr)
    = written w' ++ flat_map (changeset_full_element w ts ccs) css
    /\ cerr (changesets_loop B w' css tag_itr comment_itr)
       = cerr w' ++ flat_map (changeset_warnings w ccs) css.
Proof.
  induction css as [|cs rest IH];
    intros w' tag_itr comment_itr Hw Hids Hst Hsc Hat Hvis.
  - cbn. rewrite !app_nil_r. split; reflexivity.
  - cbn [changesets_loop flat_map].
    destruct (changeset_body_sorted B w' cs tag_itr comment_itr Hsc)
      as (Hcalls & Hitr & Hdiag).
    pose proof (cs_tag_itr_eq w' cs tag_itr comment_itr) as Htag.
    rewrite write_changeset_tags_advance in Htag.
    destruct (join_sorted ctag_key ctag_child ts true (changeset.id cs, 0)
                tag_itr Hst (Hat cs (or_introl eq_refl)))
      as (Hout & Hst' & Hal).
    cbn [join fst snd] in Hout, Hst', Hal.
    cbn [map] in Hids. inversion Hids as [|x l Hrest Hlt]; subst.
    rewrite Forall_forall in Hlt.
    assert (Hlater : forall cs', In cs' rest ->
                                 changeset.id cs < changeset.id cs').
    { intros cs' Hin. apply Hlt, list_elem_of_In, in_map, Hin. }
    destruct (IH (emit w' (cs_calls (changeset_body B w' cs tag_itr comment_itr))
                       (cs_diag (changeset_body B w' cs tag_itr comment_itr))
                       (cs_map (changeset_body B w' cs tag_itr comment_itr)))
                 (cs_tag_itr (changeset_body B w' cs tag_itr comment_itr))
                 (cs_comment_itr (changeset_body B w' cs tag_itr comment_itr)))
      as [IHw IHe].
    + eapply same_settings_trans; [exact Hw | apply same_settings_emit].
    + exact Hrest.
    + rewrite Htag. exact Hst'.
    + rewrite Hitr. apply StronglySorted_filter, Hsc.
    + intros cs' Hin. rewrite Htag.
      apply Hal; [apply key_ltb_ids, Hlater, Hin | apply Hat; right; exact Hin].
    + intros cs' Hin. rewrite Hitr, <- (Hvis cs') by (right; exact Hin).
      unfold visible_comments. apply filter_filter_implies.
      intros c Hc. apply andb_true_iff in Hc as [Hc _].
      apply Z.eqb_eq in Hc. apply negb_true_iff, Z.leb_gt.
      rewrite Hc. apply Hlater, Hin.
    + rewrite IHw, IHe. cbn [written cerr emit]. rewrite <- !app_assoc.
      split; f_equal; f_equal.
      * rewrite Hcalls. unfold changeset_element, changeset_full_element.
        rewrite write_changeset_tags_advance, Hout, ctag_filter.
        rewrite (Hvis cs (or_introl eq_refl)).
        unfold discussion_of. rewrite (Hvis cs (or_introl eq_refl)).
        destruct Hw as (-> & _ & -> & -> & -> & _). reflexivity.
      * rewrite Hdiag. unfold changeset_warnings.
        rewrite (Hvis cs (or_introl eq_refl)).
        destruct Hw as (_ & _ & -> & -> & _). reflexivity.
Qed.

(** X4: on changesets of strictly increasing id, changeset tags sorted by
    changeset id and comments sorted by changeset id, the changeset pass
    appends for each changeset its whole element: its attributes, the
    count of its visible comments, exactly its own tags, and its
    discussion. *)
Theorem changesets_pass_on_sorted_input (w : xml_writer)
        (css : list changeset.t) (ts : list current_tag.t)
        (ccs : list changeset_comment.t) :
  StronglySorted Z.lt (map changeset.id css) ->
  sorted_changeset_tags ts ->
  sorted_comments ccs ->
  written (changesets B w css ts ccs)
  = written w ++ flat_map (changeset_full_element w ts ccs) css.
Proof.
  intros Hids Hst Hsc.
  apply (changesets_loop_sorted w ts ccs css w ts ccs);
    [repeat split | exact Hids | apply sorted_changeset_tags_rows, Hst
    | exact Hsc | reflexivity | reflexivity].
Qed.

(** X5: on the same sorted input the changeset pass writes to [std::cerr]
    exactly one line per visible comment whose author is not in the user
    table, for the changesets whose discussion is written, in order, and
    nothing else; with discussions left out it writes nothing. *)
Theorem changesets_pass_diagnostics (w : xml_writer)
        (css : list changeset.t) (ts : list current_tag.t)
        (ccs : list changeset_comment.t) :
  StronglySorted Z.lt (map changeset.id css) ->
  sorted_changeset_tags ts ->
  sorted_comments ccs ->
  cerr (changesets B w css ts ccs)
  = cerr w ++ flat_map (changeset_warnings w ccs) css
  /\ (m_changeset_discussions w = changeset_discussions.NONE ->
      cerr (changesets B w css ts ccs) = cerr w)
  /\ (forall cs,
         length (changeset_warnings w ccs cs)
         = if (Z.of_nat (length (visible_comments (changeset.id cs) ccs)) >? 0)
              && changeset_discussions.eqb (m_changeset_discussions w)
                                           changeset_discussions.FULL
           then length (List.filter (fun c => negb (resolvable (m_users w) c))
                                    (visible_comments (changeset.id cs) ccs))
           else 0%nat).
Proof.
  intros Hids Hst Hsc.
  assert (Hcerr : cerr (changesets B w css ts ccs)
                  = cerr w ++ flat_map (changeset_warnings w ccs) css).
  { apply (changesets_loop_sorted w ts ccs css w ts ccs);
      [repeat split | exact Hids | apply sorted_changeset_tags_rows, Hst
      | exact Hsc | reflexivity | reflexivity]. }
  split; [exact Hcerr|]. split.
  - intros Hnone. rewrite Hcerr.
    replace (flat_map (changeset_warnings w ccs) css) with (@nil string);
      [apply app_nil_r|].
    clear -Hnone. induction css as [|cs rest IH]; [reflexivity|].
    cbn [flat_map]. rewrite <- IH. unfold changeset_warnings.
    rewrite Hnone, andb_false_r. reflexivity.
  - intros cs. unfold changeset_warnings. destruct (_ && _); [|reflexivity].
    unfold comment_warnings, resolvable.
    induction (visible_comments (changeset.id cs) ccs) as [|c l IH];
      [reflexivity|].
    cbn [flat_map List.filter]. rewrite length_app, IH.
    destruct (m_users w !! changeset_comment.author_id c); reflexivity.
Qed.

End ChangesetPassSorted.

(* ===================================================================== *)
(** * The merge-join step on rows in any order *)
(* ===================================================================== *)

Section AnyOrder.

Context {A : Type}.
Variable key : A -> Z * Z.
Variable child : A -> list xml_call.

Lemma advance_to_emits_consumed id version itr :
  fst (advance_to key child id version itr)
  = flat_map child
      (List.filter (fun r => key_eqb (key r) (id, version))
                   (consumed itr (snd (advance_to key child id version itr)))).
Proof.
  unfold consumed. induction itr as [|r next IH]; [reflexivity|].
  cbn [advance_to]. destruct (_ || _).
  - pose proof (advance_to_suffix key child id version next) as [_ Hlen].
    destruct (advance_to key child id version next) as [out itr'].
    cbn [fst snd length] in *.
    replace (S (length next) - length itr')%nat
      with (S (length next - length itr')) by lia.
    cbn [take List.filter]. rewrite IH.
    change (key_eqb (key r) (id, version))
      with (((key r).1 =? id) && ((key r).2 =? version)).
    destruct (_ && _); reflexivity.
  - cbn [fst snd]. rewrite Nat.sub_diag. reflexivity.
Qed.

Lemma advance_to_stops id version itr :
  match snd (advance_to key child id version itr) with
  | [] => True
  | r :: _ => key_leb (key r) (id, version) = false
  end.
Proof.
  induction itr as [|r next IH]; [exact I|].
  cbn [advance_to].
  change (((key r).1 <? id) || (((key r).1 =? id) && ((key r).2 <=? version)))
    with (key_leb (key r) (id, version)).
  destruct (key_leb (key r) (id, version)) eqn:Hle.
  - destruct (advance_to key child id version next) as [out itr'].
    exact IH.
  - cbn [snd]. exact Hle.
Qed.

End AnyOrder.

(** X6: whatever the order of the tag rows, one call of [write_tags]
    passes a prefix of the rows ahead of the iterator, all of them with a
    key at most the parent's; it emits exactly the rows of that prefix
    whose key is the parent's, so a tag is never attached to a parent with
    another (id, version); and it stops at the end or at the first row
    with a greater key. *)
Theorem write_tags_any_order (B : build) (id version : Z)
        (tag_itr : list old_tag.t) :
  let r := write_tags B id version tag_itr in
  tag_itr = consumed tag_itr (snd r) ++ snd r
  /\ forallb (fun t => key_leb (tag_key t) (id, version))
             (consumed tag_itr (snd r)) = true
  /\ fst r
     = flat_map (tag_child B)
         (List.filter (fun t => key_eqb (tag_key t) (id, version))
                      (consumed tag_itr (snd r)))
  /\ match snd r with
     | [] => True
     | t :: _ => key_leb (tag_key t) (id, version) = false
     end.
Proof.
  intros r. subst r. rewrite write_tags_advance.
  split; [apply advance_to_suffix|].
  split; [apply advance_to_consumed_le|].
  split; [apply advance_to_emits_consumed | apply advance_to_stops].
Qed.

(* ===================================================================== *)
(** * The attributes of an element: history mode, coordinates, bounds *)
(* ===================================================================== *)

Section OwnAttributes.

Variable B : build.

Lemma common_attributes_names {T} `{Versioned T} (t : T) has_history
      changesets users uil :
  attr_names_in ["timestamp"; "version"; "changeset"; "visible"; "user"; "uid"]
    (write_common_attributes B t has_history changesets users uil) = true.
Proof.
  unfold write_common_attributes.
  destruct has_history, (user_info_level.eqb uil _); cbn;
    repeat (match goal with
            | |- context [match ?x with _ => _ end] => destruct x
            end; cbn); reflexivity.
Qed.

Lemma common_attributes_visible {T} `{Versioned T} (t : T) has_history
      changesets users uil :
  attribute_values "visible"
    (write_common_attributes B t has_history changesets users uil)
  = if has_history then [if v_visible t then "true" else "false"] else [].
Proof.
  unfold write_common_attributes.
  destruct has_history, (user_info_level.eqb uil _); cbn;
    repeat (match goal with
            | |- context [match changesets !! ?x with _ => _ end] =>
                destruct (changesets !! x)
            | |- context [match users !! ?x with _ => _ end] =>
                destruct (users !! x)
            end; cbn); reflexivity.
Qed.

(** Rewrites the values of one attribute name in the calls of a body to
    those of its parts, dropping the parts that cannot carry the name. *)
Ltac split_attribute_values :=
  rewrite !attribute_values_app;
  repeat match goal with
         | H : attr_names_in ?allowed ?calls = true
           |- context [attribute_values ?name ?calls] =>
             rewrite (attribute_values_absent allowed name calls H)
               by reflexivity
         end.

Lemma node_body_visible w n tag_itr :
  attribute_values "visible" (fst (node_body B w n tag_itr))
  = if m_has_history w then [if node.visible n then "true" else "false"]
    else [].
Proof.
  unfold node_body.
  pose proof (write_tags_names B (node.id n) (node.version n) tag_itr) as Ht.
  destruct (write_tags B (node.id n) (node.version n) tag_itr) as [tags ti].
  cbn [fst] in Ht.
  assert (Hc := common_attributes_visible n (m_has_history w) (m_changesets w)
                  (m_users w) (m_user_info_level w)).
  destruct (node.visible n) eqn:Hv; cbn [fst]; split_attribute_values;
    rewrite Hc; cbn [v_visible node_versioned]; rewrite Hv;
    destruct (m_has_history w); reflexivity.
Qed.

Lemma way_body_visible w x nd_itr tag_itr :
  attribute_values "visible" (fst (fst (way_body B w x nd_itr tag_itr)))
  = if m_has_history w then [if way.visible x then "true" else "false"]
    else [].
Proof.
  unfold way_body.
  pose proof (write_tags_names B (way.id x) (way.version x) tag_itr) as Ht.
  pose proof (write_nds_names (way.id x) (way.version x) nd_itr) as Hn.
  destruct (write_tags B (way.id x) (way.version x) tag_itr) as [tags ti].
  destruct (write_nds (way.id x) (way.version x) nd_itr) as [nds ni].
  cbn [fst] in Ht, Hn.
  assert (Hc := common_attributes_visible x (m_has_history w) (m_changesets w)
                  (m_users w) (m_user_info_level w)).
  destruct (way.visible x) eqn:Hv; cbn [fst]; split_attribute_values;
    rewrite Hc; cbn [v_visible way_versioned]; rewrite Hv;
    destruct (m_has_history w); reflexivity.
Qed.

Lemma relation_body_visible w r rm_itr tag_itr :
  attribute_values "visible" (fst (fst (relation_body B w r rm_itr tag_itr)))
  = if m_has_history w then [if relation.visible r then "true" else "false"]
    else [].
Proof.
  unfold relation_body.
  pose proof (write_tags_names B (relation.id r) (relation.version r) tag_itr)
    as Ht.
  pose proof (write_members_names B (relation.id r) (relation.version r)
                                  rm_itr) as Hm.
  destruct (write_tags B (relation.id r) (relation.version r) tag_itr)
    as [tags ti].
  destruct (write_members B (relation.id r) (relation.version r) rm_itr)
    as [members mi].
  cbn [fst] in Ht, Hm.
  assert (Hc := common_attributes_visible r (m_has_history w) (m_changesets w)
                  (m_users w) (m_user_info_level w)).
  destruct (relation.visible r) eqn:Hv; cbn [fst]; split_attribute_values;
    rewrite Hc; cbn [v_visible relation_versioned]; rewrite Hv;
    destruct (m_has_history w); reflexivity.
Qed.

Lemma changeset_body_no_visible w cs tag_itr comment_itr :
  attribute_values "visible"
    (cs_calls (changeset_body B w cs tag_itr comment_itr)) = [].
Proof.
  rewrite cs_calls_own_attribute by reflexivity.
  apply (attribute_values_absent _ "visible" _
           (changeset_attributes_names B _ _ _ _)).
  reflexivity.
Qed.

(** X7: a node, way or relation element carries the [visible] attribute
    exactly when the writer was made for full history, with the value of
    the record's flag; a changeset element never carries it; and a
    document written for current versions only holds no [visible]
    attribute at all. *)
Theorem visible_attribute_follows_history_mode :
  (forall w n tag_itr,
      attribute_values "visible" (fst (node_body B w n tag_itr))
      = if m_has_history w then [if node.visible n then "true" else "false"]
        else [])
  /\ (forall w x nd_itr tag_itr,
         attribute_values "visible" (fst (fst (way_body B w x nd_itr tag_itr)))
         = if m_has_history w then [if way.visible x then "true" else "false"]
           else [])
  /\ (forall w r rm_itr tag_itr,
         attribute_values "visible"
           (fst (fst (relation_body B w r rm_itr tag_itr)))
         = if m_has_history w
           then [if relation.visible r then "true" else "false"] else [])
  /\ (forall w cs tag_itr comment_itr,
         attribute_values "visible"
           (cs_calls (changeset_body B w cs tag_itr comment_itr)) = [])
  /\ (forall generator users max_time uil cd ps,
         attribute_values "visible"
           (document B generator users max_time uil
                     historical_versions.CURRENT cd ps) = []).
Proof.
  split; [exact node_body_visible|]. split; [exact way_body_visible|].
  split; [exact relation_body_visible|].
  split; [exact changeset_body_no_visible|].
  intros generator users max_time uil cd ps.
  unfold document, finish. cbn [written emit].
  destruct (run_extends B (fun d => attribute_values "visible" d = [])
              (fun w => m_has_history w = false))
    with (w := xml_writer_new B generator users max_time uil
                              historical_versions.CURRENT cd) (ps := ps)
    as (delta & -> & Hdelta); try reflexivity.
  - intros a b Ha Hb. rewrite attribute_values_app, Ha, Hb. reflexivity.
  - intros w w' (_ & <- & _) H. exact H.
  - intros; apply changeset_body_no_visible.
  - intros w n tag_itr Hh. rewrite node_body_visible, Hh. reflexivity.
  - intros w x nd_itr tag_itr Hh. rewrite way_body_visible, Hh. reflexivity.
  - intros w r rm_itr tag_itr Hh. rewrite relation_body_visible, Hh.
    reflexivity.
  - rewrite !attribute_values_app, Hdelta. reflexivity.
Qed.

(** X8: a node element carries [lat] and [lon] exactly when the node is
    visible, each once, with the scaled coordinate divided by [SCALE] and
    printed by [%.7f]; the element of a deleted node has neither. *)
Theorem node_coordinates_iff_visible (w : xml_writer) (n : node.t)
        (tag_itr : list old_tag.t) :
  attribute_values "lat" (fst (node_body B w n tag_itr))
  = (if node.visible n then [format_coordinate (node.latitude n)] else [])
  /\ attribute_values "lon" (fst (node_body B w n tag_itr))
     = (if node.visible n then [format_coordinate (node.longitude n)] else []).
Proof.
  unfold node_body.
  pose proof (write_tags_names B (node.id n) (node.version n) tag_itr) as Ht.
  destruct (write_tags B (node.id n) (node.version n) tag_itr) as [tags ti].
  cbn [fst] in Ht.
  assert (Hc := common_attributes_names n (m_has_history w) (m_changesets w)
                  (m_users w) (m_user_info_level w)).
  destruct (node.visible n); cbn [fst]; split; split_attribute_values;
    reflexivity.
Qed.

(** The four bounds of a changeset, when all four are set. *)
Definition bounding_box (cs : changeset.t) : option (Z * Z * Z * Z) :=
  match changeset.min_lat cs, changeset.max_lat cs,
        changeset.min_lon cs, changeset.max_lon cs with
  | Some min_lat, Some max_lat, Some min_lon, Some max_lon =>
      Some (min_lat, min_lon, max_lat, max_lon)
  | _, _, _, _ => None
  end.

(** X9: a changeset element carries the four bounding-box attributes
    together or not at all: all four, each once and printed as a
    coordinate, when the four bounds are set, and none of them as soon as
    one bound is missing. *)
Theorem bounding_box_all_or_nothing (w : xml_writer) (cs : changeset.t)
        (tag_itr : list current_tag.t)
        (comment_itr : list changeset_comment.t) :
  let values name :=
    attribute_values name
      (cs_calls (changeset_body B w cs tag_itr comment_itr)) in
  (values "min_lat", values "min_lon", values "max_lat", values "max_lon")
  = match bounding_box cs with
    | Some (min_lat, min_lon, max_lat, max_lon) =>
        ([format_coordinate min_lat], [format_coordinate min_lon],
         [format_coordinate max_lat], [format_coordinate max_lon])
    | None => ([], [], [], [])
    end.
Proof.
  intros values. subst values. cbv beta.
  rewrite !cs_calls_own_attribute by reflexivity.
  unfold changeset_attributes, bounding_box.
  rewrite !attribute_values_app.
  destruct (pt.gt _ _), (if user_info_level.eqb _ _ then _ else _),
    (changeset.min_lat cs), (changeset.max_lat cs), (changeset.min_lon cs),
    (changeset.max_lon cs); reflexivity.
Qed.

End OwnAttributes.

(* ===================================================================== *)
(** * The changeset-to-author map: lookups *)
(* ===================================================================== *)





(* ===================================================================== *)
(** * One changeset on comments in any order *)
(* ===================================================================== *)

Lemma count_comments_any id itr :
  forall n,
    snd (count_comments id n itr) = snd (count_comments id 0 itr)
    /\ itr = consumed itr (snd (count_comments id n itr))
             ++ snd (count_comments id n itr)
    /\ (length (snd (count_comments id n itr)) <= length itr)%nat
    /\ fst (count_comments id n itr)
       = n + Z.of_nat
               (length (visible_comments id
                          (consumed itr (snd (count_comments id n itr))))).
Proof.
  unfold consumed, visible_comments.
  induction itr as [|c next IH]; intros n.
  - cbn. repeat split; lia.
  - cbn [count_comments]. destruct (_ <=? _).
    + set (n' := if _ && _ then n + 1 else n).
      set (z' := if _ && _ then 0 + 1 else 0).
      destruct (IH n') as (H1 & H2 & H3 & H4).
      destruct (IH z') as (Z1 & _).
      rewrite H1, <- Z1. split; [reflexivity|].
      rewrite Z1, <- H1. cbn [length].
      replace (S (length next) - length (snd (count_comments id n' next)))%nat
        with (S (length next - length (snd (count_comments id n' next))))
        by lia.
      cbn [take app List.filter]. rewrite <- H2.
      split; [reflexivity|]. split; [lia|].
      rewrite H4. subst n'.
      destruct (_ && _); cbn [length]; lia.
    + cbn [fst snd]. rewrite Nat.sub_diag. cbn. repeat split; lia.
Qed.

Section AnyComments.

Variable B : build.

(** One iteration of [changesets] on comments in any order, in terms of
    the comments the lookahead passes. *)
Lemma changeset_body_any w cs tag_itr comment_itr :
  let ahead := snd (count_comments (changeset.id cs) 0 comment_itr) in
  let range := consumed comment_itr ahead in
  cs_calls (changeset_body B w cs tag_itr comment_itr)
  = changeset_element B w cs tag_itr range
  /\ cs_comment_itr (changeset_body B w cs tag_itr comment_itr) = ahead
  /\ cs_diag (changeset_body B w cs tag_itr comment_itr)
     = changeset_warnings w range cs.
Proof.
  intros ahead range.
  destruct (count_comments_any (changeset.id cs) comment_itr 0)
    as (_ & Hsplit & _ & Hcount).
  fold ahead in Hsplit, Hcount. fold range in Hsplit, Hcount.
  unfold changeset_body, changeset_element, discussion_of, changeset_warnings.
  destruct (count_comments (changeset.id cs) 0 comment_itr) as [count cci]
    eqn:Hcc.
  cbn [fst snd] in *. subst ahead. rewrite Hcount, Z.add_0_l.
  destruct (write_changeset_tags B (changeset.id cs) tag_itr) as [tags ti].
  destruct (_ && _); [|repeat split; reflexivity].
  assert (Hw : write_comments B (m_users w) (m_user_info_level w)
                 (changeset.id cs) comment_itr cci
               = (flat_map (comment_element B (m_users w) (m_user_info_level w))
                           (visible_comments (changeset.id cs) range),
                  comment_warnings (m_users w)
                                   (visible_comments (changeset.id cs) range),
                  cci)).
  { clearbody range. clear Hcount Hcc. subst comment_itr.
    apply write_comments_range. }
  rewrite Hw. repeat split; reflexivity.
Qed.

Lemma resolvable_partition users l :
  (length (List.filter (resolvable users) l)
   + length (comment_warnings users l))%nat = length l.
Proof.
  unfold comment_warnings, resolvable.
  induction l as [|c l IH]; [reflexivity|].
  cbn [List.filter flat_map]. rewrite length_app.
  destruct (users !! changeset_comment.author_id c); cbn [length app]; lia.
Qed.

(** X11: for one changeset, whatever the order of the comment rows: the
    comment iterator ends where the lookahead stopped, whether or not the
    discussion is written, and never moves back; [comments_count] is the
    number of visible comments of the changeset among the rows the
    lookahead passed; and when the discussion is written every one of
    them gives either a [comment] element or a diagnostic line, so the
    count is the number of [comment] elements plus the number of
    diagnostics. *)
Theorem changeset_comments_any_order (w : xml_writer) (cs : changeset.t)
        (tag_itr : list current_tag.t)
        (comment_itr : list changeset_comment.t) :
  let it := changeset_body B w cs tag_itr comment_itr in
  let ahead := snd (count_comments (changeset.id cs) 0 comment_itr) in
  let counted :=
    visible_comments (changeset.id cs) (consumed comment_itr ahead) in
  let discussing :=
    (Z.of_nat (length counted) >? 0)
    && changeset_discussions.eqb (m_changeset_discussions w)
                                 changeset_discussions.FULL in
  cs_comment_itr it = ahead
  /\ comment_itr = consumed comment_itr ahead ++ ahead
  /\ attribute_values "comments_count" (cs_calls it)
     = [Str.fmt_int (Z.of_nat (length counted))]
  /\ (count_elements "comment" (cs_calls it) + length (cs_diag it))%nat
     = (if discussing then length counted else 0%nat).
Proof.
  intros it ahead counted discussing. subst it.
  destruct (changeset_body_any w cs tag_itr comment_itr)
    as (Hcalls & Hitr & Hdiag).
  fold ahead in Hcalls, Hitr, Hdiag.
  destruct (count_comments_any (changeset.id cs) comment_itr 0)
    as (_ & Hsplit & _).
  fold ahead in Hsplit.
  destruct (changeset_element_reading B w cs tag_itr
              (consumed comment_itr ahead)) as (Hcc & _ & Hcomments).
  fold counted in Hcc, Hcomments. fold discussing in Hcomments.
  split; [exact Hitr|]. split; [exact Hsplit|].
  rewrite Hcalls, Hdiag. split; [exact Hcc|].
  rewrite Hcomments. unfold changeset_warnings.
  fold counted. fold discussing.
  destruct discussing; [apply resolvable_partition | reflexivity].
Qed.

End AnyComments.

(* ===================================================================== *)
(** * Sample runs of the passes on sorted input *)
(* ===================================================================== *)

Lemma nodes_pass_on_sorted_input_witness :
  let w := Demo.writer Demo.alice user_info_level.FULL
                       changeset_discussions.FULL in
  let ns := [Demo.a_node 1 1 5 true; Demo.a_node 1 2 5 false;
             Demo.a_node 1 3 5 true; Demo.a_node 3 1 5 true] in
  let ts := [row 1 1 "a"; row 1 2 "b"; row 1 3 "c"; row 3 1 "d"] in
  increasing node_key ns
  /\ sorted_rows tag_key ts
  /\ written (nodes Demo.B w ns ts)
     = written w ++ flat_map (node_element Demo.B w ts) ns.
Proof.
  intros w ns ts.
  assert (Hinc : increasing node_key ns) by (repeat constructor).
  assert (Hs : sorted_rows tag_key ts) by (repeat constructor).
  split; [exact Hinc|]. split; [exact Hs|].
  exact (nodes_pass_on_sorted_input Demo.B w ns ts Hinc Hs).
Defined.

Lemma ways_pass_on_sorted_input_witness :
  let w := Demo.writer Demo.alice user_info_level.FULL
                       changeset_discussions.FULL in
  let ws := [Demo.a_way 1 1 true; Demo.a_way 1 2 false; Demo.a_way 2 1 true] in
  let wns := [Demo.a_way_node 1 1 10; Demo.a_way_node 1 1 11;
              Demo.a_way_node 1 2 10; Demo.a_way_node 2 1 12] in
  let ts := [row 1 1 "a"; row 1 2 "b"; row 2 1 "c"] in
  increasing way_key ws
  /\ sorted_rows nd_key wns
  /\ sorted_rows tag_key ts
  /\ written (ways Demo.B w ws wns ts)
     = written w ++ flat_map (way_element Demo.B w wns ts) ws.
Proof.
  intros w ws wns ts.
  assert (Hinc : increasing way_key ws) by (repeat constructor).
  assert (Hn : sorted_rows nd_key wns) by (repeat constructor).
  assert (Hs : sorted_rows tag_key ts) by (repeat constructor).
  split; [exact Hinc|]. split; [exact Hn|]. split; [exact Hs|].
  exact (ways_pass_on_sorted_input Demo.B w ws wns ts Hinc Hn Hs).
Defined.

Lemma relations_pass_on_sorted_input_witness :
  let w := Demo.writer Demo.alice user_info_level.FULL
                       changeset_discussions.FULL in
  let rs := [Demo.a_relation 1 1 false; Demo.a_relation 1 2 true;
             Demo.a_relation 4 1 true] in
  let rms := [Demo.a_member 1 1 20; Demo.a_member 1 2 20;
              Demo.a_member 1 2 21; Demo.a_member 4 1 22] in
  let ts := [row 1 1 "a"; row 1 2 "b"; row 4 1 "c"] in
  increasing relation_key rs
  /\ sorted_rows member_key rms
  /\ sorted_rows tag_key ts
  /\ written (relations Demo.B w rs rms ts)
     = written w ++ flat_map (relation_element Demo.B w rms ts) rs.
Proof.
  intros w rs rms ts.
  assert (Hinc : increasing relation_key rs) by (repeat constructor).
  assert (Hm : sorted_rows member_key rms) by (repeat constructor).
  assert (Hs : sorted_rows tag_key ts) by (repeat constructor).
  split; [exact Hinc|]. split; [exact Hm|]. split; [exact Hs|].
  exact (relations_pass_on_sorted_input Demo.B w rs rms ts Hinc Hm Hs).
Defined.

Lemma changesets_pass_on_sorted_input_witness :
  let w := Demo.writer Demo.alice user_info_level.FULL
                       changeset_discussions.FULL in
  let css := [Demo.a_changeset 5 7 Demo.earlier;
              Demo.a_changeset 6 8 Demo.later] in
  let ts := [Demo.a_tag 4 "source" "survey"; Demo.a_tag 5 "comment" "roads";
             Demo.a_tag 6 "created_by" "editor"] in
  let ccs := [Demo.a_comment 5 7 "looks good" true;
              Demo.a_comment 5 7 "spam" false;
              Demo.a_comment 6 9 "thanks" true] in
  StronglySorted Z.lt (map changeset.id css)
  /\ sorted_changeset_tags ts
  /\ sorted_comments ccs
  /\ written (changesets Demo.B w css ts ccs)
     = written w ++ flat_map (changeset_full_element Demo.B w ts ccs) css.
Proof.
  intros w css ts ccs.
  assert (Hids : StronglySorted Z.lt (map changeset.id css))
    by (repeat constructor).
  assert (Ht : sorted_changeset_tags ts)
    by (unfold sorted_changeset_tags; repeat constructor; cbn; lia).
  assert (Hc : sorted_comments ccs)
    by (unfold sorted_comments; repeat constructor; cbn; lia).
  split; [exact Hids|]. split; [exact Ht|]. split; [exact Hc|].
  exact (changesets_pass_on_sorted_input Demo.B w css ts ccs Hids Ht Hc).
Defined.

Lemma changesets_pass_diagnostics_witness :
  let w := Demo.writer Demo.alice user_info_level.FULL
                       changeset_discussions.FULL in
  let css := [Demo.a_changeset 5 7 Demo.earlier;
              Demo.a_changeset 6 8 Demo.later] in
  let ccs := [Demo.a_comment 5 7 "looks good" true;
              Demo.a_comment 5 7 "spam" false;
              Demo.a_comment 6 9 "thanks" true] in
  StronglySorted Z.lt (map changeset.id css)
  /\ sorted_changeset_tags []
  /\ sorted_comments ccs
  /\ cerr (changesets Demo.B w css [] ccs)
     = cerr w ++ flat_map (changeset_warnings w ccs) css.
Proof.
  intros w css ccs.
  assert (Hids : StronglySorted Z.lt (map changeset.id css))
    by (repeat constructor).
  assert (Ht : sorted_changeset_tags []) by constructor.
  assert (Hc : sorted_comments ccs)
    by (unfold sorted_comments; repeat constructor; cbn; lia).
  split; [exact Hids|]. split; [exact Ht|]. split; [exact Hc|].
  exact (proj1 (changesets_pass_diagnostics Demo.B w css [] ccs Hids Ht Hc)).
Defined.

(* ===================================================================== *)
(** * Sanitized strings as libxml reads them *)
(* ===================================================================== *)

Lemma sanitize_byte_kept (a : ascii) :
  replaced_control (sanitize_byte a) = false
  /\ Ascii.eqb (sanitize_byte a) Str.NUL = false.
Proof. destruct a as [[] [] [] [] [] [] [] []]; vm_compute; split; reflexivity. Qed.

Lemma sanitize_byte_idempotent (a : ascii) :
  sanitize_byte (sanitize_byte a) = sanitize_byte a.
Proof.
  unfold sanitize_byte at 1.
  rewrite (proj1 (sanitize_byte_kept a)). reflexivity.
Qed.

Lemma of_list_to_list (s : string) : Str.of_list (Str.to_list s) = s.
Proof. apply string_of_list_ascii_of_string. Qed.

Lemma c_str_without_nul (l : list ascii) :
  forallb (fun a => negb (Ascii.eqb a Str.NUL)) l = true ->
  Str.c_str (Str.of_list l) = Str.of_list l.
Proof.
  induction l as [|a l IH]; [reflexivity|].
  cbn [forallb]. rewrite andb_true_iff, negb_true_iff. intros [Ha Hl].
  cbn [Str.of_list string_of_list_ascii Str.c_str]. rewrite Ha.
  f_equal. apply IH, Hl.
Qed.

Lemma forallb_map_all {A C} (f : A -> C) (p : C -> bool) (l : list A) :
  (forall a, p (f a) = true) -> forallb p (map f l) = true.
Proof.
  intros H. induction l as [|a l IH]; [reflexivity|].
  cbn [map forallb]. rewrite H, IH. reflexivity.
Qed.

Lemma replace_xml_bad_chars_map (signed : bool) (s : string) :
  replace_xml_bad_chars signed s
  = Str.of_list (map sanitize_byte (Str.to_list s)).
Proof.
  unfold replace_xml_bad_chars.
  rewrite replace_xml_bad_chars_bytes_map. reflexivity.
Qed.

(** X12: what [replace_xml_bad_chars] returns holds no NUL byte and no
    other replaced control byte, so its [c_str()] is the whole string and
    libxml is handed as many bytes as the input had; sanitizing twice is
    sanitizing once, and a string without such bytes is written as it
    is.  Hence [attribute] and [text] write the sanitized string whole. *)
Theorem sanitized_string_is_written_whole (B : build) (s : string) :
  Str.c_str (sanitize B s) = sanitize B s
  /\ forallb (fun a => negb (replaced_control a)) (Str.to_list (sanitize B s))
     = true
  /\ sanitize B (sanitize B s) = sanitize B s
  /\ (forallb (fun a => negb (replaced_control a)) (Str.to_list s) = true ->
      sanitize B s = s)
  /\ (forall name, attribute B name s = [WriteAttribute name (sanitize B s)])
  /\ text B s = [WriteString (sanitize B s)]
  /\ String.length (Str.c_str (sanitize B s)) = String.length s.
Proof.
  assert (Hc : Str.c_str (sanitize B s) = sanitize B s).
  { unfold sanitize. rewrite replace_xml_bad_chars_map.
    apply c_str_without_nul, forallb_map_all. intros a.
    rewrite (proj2 (sanitize_byte_kept a)). reflexivity. }
  split; [exact Hc|]. split; [|split; [|split; [|split; [|split]]]].
  - unfold sanitize. rewrite replace_xml_bad_chars_map, to_list_of_list.
    apply forallb_map_all. intros a.
    rewrite (proj1 (sanitize_byte_kept a)). reflexivity.
  - unfold sanitize. rewrite !replace_xml_bad_chars_map, to_list_of_list.
    rewrite map_map. f_equal. apply map_ext. intros a.
    apply sanitize_byte_idempotent.
  - intros Hclean. unfold sanitize. rewrite replace_xml_bad_chars_map.
    rewrite <- (of_list_to_list s) at 2. f_equal.
    rewrite <- (map_id (Str.to_list s)) at 2. apply map_ext_in.
    intros a Ha. rewrite forallb_forall in Hclean.
    specialize (Hclean a Ha). rewrite negb_true_iff in Hclean.
    unfold sanitize_byte. rewrite Hclean. reflexivity.
  - intros name. unfold attribute. rewrite Hc. reflexivity.
  - unfold text. rewrite Hc. reflexivity.
  - rewrite Hc. unfold sanitize. rewrite replace_xml_bad_chars_map.
    rewrite length_of_list, length_map. apply length_to_list.
Qed.

Lemma sanitized_string_is_written_whole_witness :
  forallb (fun a => negb (replaced_control a)) (Str.to_list "highway") = true
  /\ sanitize Demo.B "highway" = "highway".
Proof.
  split; [reflexivity|].
  apply (proj1 (proj2 (proj2 (proj2
           (sanitized_string_is_written_whole Demo.B "highway"))))).
  reflexivity.
Defined.

(* ===================================================================== *)
(** * Reading a written timestamp back *)
(* ===================================================================== *)

Definition digit_value (a : ascii) : Z := Z.of_N (N_of_ascii a) - 48.

(** Specification side: a reader of [YYYY-mm-ddTHH:MM:SSZ], giving year,
    month, day, hours, minutes and seconds. *)
Definition read_iso_time (s : string) : option (Z * Z * Z * Z * Z * Z) :=
  match Str.to_list s with
  | [y3; y2; y1; y0; dash1; m1; m0; dash2; d1; d0; t;
     h1; h0; colon1; mi1; mi0; colon2; s1; s0; z] =>
      if forallb Str.is_digit
                 [y3; y2; y1; y0; m1; m0; d1; d0; h1; h0; mi1; mi0; s1; s0]
         && forallb (fun p => Ascii.eqb (fst p) (snd p))
                    [(dash1, "-"%char); (dash2, "-"%char); (t, "T"%char);
                     (colon1, ":"%char); (colon2, ":"%char); (z, "Z"%char)]
      then Some (1000 * digit_value y3 + 100 * digit_value y2
                 + 10 * digit_value y1 + digit_value y0,
                 10 * digit_value m1 + digit_value m0,
                 10 * digit_value d1 + digit_value d0,
                 10 * digit_value h1 + digit_value h0,
                 10 * digit_value mi1 + digit_value mi0,
                 10 * digit_value s1 + digit_value s0)
      else None
  | _ => None
  end.

Lemma digit_value_char_plus (d : Z) :
  digit_value (Str.char_plus "0" (d mod 10)) = d mod 10.
Proof.
  assert (H : 0 <= d mod 10 < 10) by (apply Z.mod_pos_bound; lia).
  assert (E : d mod 10 = 0 \/ d mod 10 = 1 \/ d mod 10 = 2 \/ d mod 10 = 3
              \/ d mod 10 = 4 \/ d mod 10 = 5 \/ d mod 10 = 6
              \/ d mod 10 = 7 \/ d mod 10 = 8 \/ d mod 10 = 9) by lia.
  repeat (destruct E as [E|E]; [rewrite E; reflexivity|]).
  rewrite E; reflexivity.
Qed.

Lemma four_digits (y : Z) :
  0 <= y <= 9999 ->
  1000 * ((y / 1000) mod 10) + 100 * ((y / 100) mod 10)
  + 10 * ((y / 10) mod 10) + y mod 10 = y.
Proof. intros H. Z.div_mod_to_equations. lia. Qed.

Lemma two_digits (x : Z) :
  0 <= x <= 99 -> 10 * ((x / 10) mod 10) + x mod 10 = x.
Proof. intros H. Z.div_mod_to_equations. lia. Qed.

Lemma read_iso_chars ymd tod :
  read_iso_time (Str.of_list (iso_chars ymd tod))
  = Some (1000 * ((pt.year ymd / 1000) mod 10)
          + 100 * ((pt.year ymd / 100) mod 10)
          + 10 * ((pt.year ymd / 10) mod 10) + pt.year ymd mod 10,
          10 * (if pt.month ymd >=? 10 then 1 else 0) + pt.month ymd mod 10,
          10 * ((pt.day ymd / 10) mod 10) + pt.day ymd mod 10,
          10 * ((pt.hours tod / 10) mod 10) + pt.hours tod mod 10,
          10 * ((pt.minutes tod / 10) mod 10) + pt.minutes tod mod 10,
          10 * ((pt.seconds tod / 10) mod 10) + pt.seconds tod mod 10).
Proof.
  unfold read_iso_time. rewrite to_list_of_list. unfold iso_chars.
  cbv zeta. cbn [forallb fst snd].
  rewrite !digit_char_is_digit, !digit_value_char_plus.
  destruct (pt.month ymd >=? 10); reflexivity.
Qed.

(** X13: the attribute value written for a proper time with the calendar
    fields boost hands out reads back as exactly its year, month, day,
    hours, minutes and seconds, so two such times written alike agree in
    all six; the fraction of the second is never written. *)
Theorem written_time_reads_back (name : string)
        (ymd : pt.greg_year_month_day) (tod : pt.time_duration) :
  pt.valid_fields (pt.time ymd tod) ->
  exists v,
    attribute_time name (pt.time ymd tod) = [WriteAttribute name v]
    /\ String.length v = 20%nat
    /\ read_iso_time v
       = Some (pt.year ymd, pt.month ymd, pt.day ymd,
               pt.hours tod, pt.minutes tod, pt.seconds tod)
    /\ (forall ymd' tod',
           pt.valid_fields (pt.time ymd' tod') ->
           attribute_time name (pt.time ymd' tod') = [WriteAttribute name v] ->
           ymd' = ymd
           /\ pt.hours tod' = pt.hours tod
           /\ pt.minutes tod' = pt.minutes tod
           /\ pt.seconds tod' = pt.seconds tod)
    /\ (forall f,
           attribute_time name
             (pt.time ymd {| pt.hours := pt.hours tod;
                             pt.minutes := pt.minutes tod;
                             pt.seconds := pt.seconds tod;
                             pt.fractional_seconds := f |})
           = [WriteAttribute name v]).
Proof.
  assert (Hread : forall ymd tod,
             pt.valid_fields (pt.time ymd tod) ->
             read_iso_time (Str.c_str (fmt_iso_time (pt.time ymd tod)))
             = Some (pt.year ymd, pt.month ymd, pt.day ymd,
                     pt.hours tod, pt.minutes tod, pt.seconds tod)).
  { clear. intros ymd tod (Hy & Hm & Hd & Hh & Hmi & Hs & _).
    rewrite (proj1 (c_str_fmt_iso_time ymd tod)), read_iso_chars.
    rewrite four_digits by lia. rewrite !two_digits by lia.
    replace (10 * (if pt.month ymd >=? 10 then 1 else 0) + pt.month ymd mod 10)
      with (pt.month ymd); [reflexivity|].
    destruct (Z.geb_spec (pt.month ymd) 10); Z.div_mod_to_equations; lia. }
  intros Hvalid.
  exists (Str.c_str (fmt_iso_time (pt.time ymd tod))).
  split; [reflexivity|].
  split; [apply (proj2 (c_str_fmt_iso_time ymd tod))|].
  split; [apply Hread, Hvalid|]. split.
  - intros ymd' tod' Hvalid' Heq. unfold attribute_time in Heq.
    assert (H := Hread ymd' tod' Hvalid').
    assert (H0 := Hread ymd tod Hvalid).
    remember (Str.c_str (fmt_iso_time (pt.time ymd' tod'))) as v' eqn:Ev'.
    remember (Str.c_str (fmt_iso_time (pt.time ymd tod))) as v eqn:Ev.
    injection Heq as Heq. rewrite Heq, H0 in H. clear Ev Ev' Heq H0.
    injection H as Hy Hm Hd Hh Hmi Hs.
    clear Hread Hvalid Hvalid'.
    destruct ymd, ymd'; cbn [pt.year pt.month pt.day] in *. subst.
    repeat split; symmetry; assumption.
  - intros f. reflexivity.
Qed.

Lemma written_time_reads_back_witness :
  pt.valid_fields t_2023_01_05
  /\ exists v,
      attribute_time "timestamp" t_2023_01_05 = [WriteAttribute "timestamp" v]
      /\ String.length v = 20%nat
      /\ read_iso_time v = Some (2023, 1, 5, 3, 4, 5).
Proof.
  assert (Hvalid : pt.valid_fields t_2023_01_05) by (cbn; lia).
  split; [exact Hvalid|].
  destruct (written_time_reads_back "timestamp" _ _ Hvalid)
    as (v & Hv & Hlen & Hread & _).
  exists v. split; [exact Hv|]. split; [exact Hlen|]. exact Hread.
Defined.

(* ===================================================================== *)
(** * The children of the root element *)
(* ===================================================================== *)

(** Reading a trace: the names of the elements opened while exactly
    [depth = 1] elements are open, [depth] being the number of elements
    open before the first call. *)
Fixpoint children_at (depth : nat) (calls : list xml_call) : list string :=
  match calls with
  | [] => []
  | StartElement n :: rest =>
      (if (depth =? 1)%nat then [n] else []) ++ children_at (S depth) rest
  | EndElement :: rest => children_at (Nat.pred depth) rest
  | _ :: rest => children_at depth rest
  end.

(** The children of the root element of a document. *)
Definition root_children (calls : list xml_call) : list string :=
  children_at 0 calls.

(** What a pass is to add under the root: one element per record. *)
Definition pass_outline (p : pass) : list string :=
  match p with
  | Changesets css _ _ => map (fun _ => "changeset") css
  | Nodes ns _ => map (fun _ => "node") ns
  | Ways ws _ _ => map (fun _ => "way") ws
  | Relations rs _ _ => map (fun _ => "relation") rs
  end.

(** Calls made inside a child of the root that leave the depth as it
    was. *)
Definition inner (calls : list xml_call) : Prop :=
  forall d rest,
    children_at (S (S d)) (calls ++ rest) = children_at (S (S d)) rest.

(** Calls made under the root that open and close the elements
    [names]. *)
Definition tops (names : list string) (calls : list xml_call) : Prop :=
  forall rest, children_at 1 (calls ++ rest) = names ++ children_at 1 rest.

Lemma inner_nil : inner [].
Proof. intros d rest. reflexivity. Qed.

Lemma inner_app a b : inner a -> inner b -> inner (a ++ b).
Proof. intros Ha Hb d rest. rewrite <- app_assoc, Ha, Hb. reflexivity. Qed.

Lemma tops_nil : tops [] [].
Proof. intros rest. reflexivity. Qed.

Lemma tops_app n1 n2 a b : tops n1 a -> tops n2 b -> tops (n1 ++ n2) (a ++ b).
Proof.
  intros Ha Hb rest. rewrite <- !app_assoc, Ha, Hb. reflexivity.
Qed.

Lemma all_attributes_children attrs d rest :
  all_attributes attrs = true ->
  children_at d (attrs ++ rest) = children_at d rest.
Proof.
  induction attrs as [|c attrs IH]; [reflexivity|].
  cbn [all_attributes forallb]. intros H.
  apply andb_true_iff in H as [Hc Hrest].
  destruct c; try discriminate. cbn [app children_at]. apply IH, Hrest.
Qed.

Lemma inner_element name attrs children :
  all_attributes attrs = true ->
  inner children ->
  inner (begin name ++ attrs ++ children ++ end_).
Proof.
  intros Hattrs Hchildren d rest. unfold begin, end_.
  rewrite <- !app_assoc. cbn [app children_at Nat.eqb].
  rewrite (all_attributes_children _ _ _ Hattrs), Hchildren. reflexivity.
Qed.

Lemma tops_element name attrs children :
  all_attributes attrs = true ->
  inner children ->
  tops [name] (begin name ++ attrs ++ children ++ end_).
Proof.
  intros Hattrs Hchildren rest. unfold begin, end_.
  rewrite <- !app_assoc. cbn [app children_at Nat.eqb].
  rewrite (all_attributes_children _ _ _ Hattrs), Hchildren. reflexivity.
Qed.

Section RootChildren.

Variable B : build.

Lemma add_tag_inner k v : inner (add_tag B k v).
Proof. intros d rest. reflexivity. Qed.

Lemma add_comment_inner c name uil : inner (add_comment B c name uil).
Proof. intros d rest. destruct uil; reflexivity. Qed.

Lemma write_tags_inner id version tag_itr :
  inner (fst (write_tags B id version tag_itr)).
Proof.
  induction tag_itr as [|t next IH]; [apply inner_nil|]. cbn [write_tags].
  destruct (_ || _); [|apply inner_nil].
  destruct (write_tags B id version next) as [out itr]. cbn [fst] in *.
  apply inner_app; [|exact IH].
  destruct (_ && _); [apply add_tag_inner | apply inner_nil].
Qed.

Lemma write_changeset_tags_inner id tag_itr :
  inner (fst (write_changeset_tags B id tag_itr)).
Proof.
  induction tag_itr as [|t next IH]; [apply inner_nil|].
  cbn [write_changeset_tags].
  destruct (_ <=? _); [|apply inner_nil].
  destruct (write_changeset_tags B id next) as [out itr]. cbn [fst] in *.
  apply inner_app; [|exact IH].
  destruct (_ =? _); [apply add_tag_inner | apply inner_nil].
Qed.

Lemma write_nds_inner id version nd_itr :
  inner (fst (write_nds id version nd_itr)).
Proof.
  induction nd_itr as [|t next IH]; [apply inner_nil|]. cbn [write_nds].
  destruct (_ || _); [|apply inner_nil].
  destruct (write_nds id version next) as [out itr]. cbn [fst] in *.
  apply inner_app; [|exact IH].
  destruct (_ && _); [|apply inner_nil].
  intros d rest. reflexivity.
Qed.

Lemma write_members_inner id version rm_itr :
  inner (fst (write_members B id version rm_itr)).
Proof.
  induction rm_itr as [|t next IH]; [apply inner_nil|]. cbn [write_members].
  destruct (_ || _); [|apply inner_nil].
  destruct (write_members B id version next) as [out itr]. cbn [fst] in *.
  apply inner_app; [|exact IH].
  destruct (_ && _); [|apply inner_nil].
  intros d rest. reflexivity.
Qed.

Lemma write_comments_inner users uil id comment_itr comment_count_itr :
  inner (fst (fst (write_comments B users uil id comment_itr
                                  comment_count_itr))).
Proof.
  induction comment_itr as [|c next IH]; [apply inner_nil|].
  cbn [write_comments].
  destruct (_ =? _)%nat; [apply inner_nil|].
  destruct (write_comment B users uil id c) as [here diag] eqn:Hc.
  destruct (write_comments B users uil id next comment_count_itr)
    as [[out err] itr].
  cbn [fst] in *. apply inner_app; [|exact IH].
  unfold write_comment in Hc.
  destruct (_ && _); [|inversion Hc; apply inner_nil].
  destruct (users !! _); inversion Hc; subst;
    [apply add_comment_inner | apply inner_nil].
Qed.

Lemma changeset_body_tops w cs tag_itr comment_itr :
  tops ["changeset"] (cs_calls (changeset_body B w cs tag_itr comment_itr)).
Proof.
  rewrite cs_calls_eq.
  destruct (changeset_attributes_split B (m_now w) (m_users w)
              (m_user_info_level w) cs) as (attrs & -> & Hattrs).
  rewrite <- !app_assoc.
  rewrite (app_assoc attrs (attribute_int _ _)).
  rewrite (app_assoc (fst _) (discussion_calls _ _ _ _)).
  apply tops_element.
  - rewrite all_attributes_app, Hattrs. reflexivity.
  - apply inner_app; [apply write_changeset_tags_inner|].
    unfold discussion_calls. destruct (count_comments _ _ _) as [count cci].
    destruct (_ && _); [|apply inner_nil].
    apply (inner_element "discussion" []); [reflexivity|].
    apply write_comments_inner.
Qed.

Lemma node_body_tops w n tag_itr :
  tops ["node"] (fst (node_body B w n tag_itr)).
Proof.
  unfold node_body.
  pose proof (write_tags_inner (node.id n) (node.version n) tag_itr) as Ht.
  destruct (write_tags B (node.id n) (node.version n) tag_itr) as [tags ti].
  cbn [fst] in Ht.
  assert (Hcommon := common_attributes_all B n (m_has_history w)
            (m_changesets w) (m_users w) (m_user_info_level w)).
  destruct (node.visible n); cbn [fst].
  - rewrite !(app_assoc (attribute_int _ _)), !(app_assoc (_ ++ _)
      (write_common_attributes _ _ _ _ _ _)).
    apply tops_element; [|exact Ht].
    rewrite !all_attributes_app, Hcommon. reflexivity.
  - rewrite !(app_assoc (attribute_int _ _)), !(app_assoc (_ ++ _)
      (write_common_attributes _ _ _ _ _ _)).
    apply tops_element; [|apply inner_nil].
    rewrite !all_attributes_app, Hcommon. reflexivity.
Qed.

Lemma way_body_tops w x nd_itr tag_itr :
  tops ["way"] (fst (fst (way_body B w x nd_itr tag_itr))).
Proof.
  unfold way_body.
  pose proof (write_tags_inner (way.id x) (way.version x) tag_itr) as Ht.
  pose proof (write_nds_inner (way.id x) (way.version x) nd_itr) as Hn.
  destruct (write_tags B (way.id x) (way.version x) tag_itr) as [tags ti].
  destruct (write_nds (way.id x) (way.version x) nd_itr) as [nds ni].
  cbn [fst] in Ht, Hn.
  assert (Hcommon := common_attributes_all B x (m_has_history w)
            (m_changesets w) (m_users w) (m_user_info_level w)).
  destruct (way.visible x); cbn [fst];
    rewrite (app_assoc (attribute_int _ _));
    (apply tops_element;
     [rewrite all_attributes_app, Hcommon; reflexivity|]).
  - apply inner_app; assumption.
  - apply inner_nil.
Qed.

Lemma relation_body_tops w r rm_itr tag_itr :
  tops ["relation"] (fst (fst (relation_body B w r rm_itr tag_itr))).
Proof.
  unfold relation_body.
  pose proof (write_tags_inner (relation.id r) (relation.version r) tag_itr)
    as Ht.
  pose proof (write_members_inner (relation.id r) (relation.version r) rm_itr)
    as Hm.
  destruct (write_tags B (relation.id r) (relation.version r) tag_itr)
    as [tags ti].
  destruct (write_members B (relation.id r) (relation.version r) rm_itr)
    as [members mi].
  cbn [fst] in Ht, Hm.
  assert (Hcommon := common_attributes_all B r (m_has_history w)
            (m_changesets w) (m_users w) (m_user_info_level w)).
  destruct (relation.visible r); cbn [fst];
    rewrite (app_assoc (attribute_int _ _));
    (apply tops_element;
     [rewrite all_attributes_app, Hcommon; reflexivity|]).
  - apply inner_app; assumption.
  - apply inner_nil.
Qed.

(** What a pass adds to the trace and to [std::cerr] aside, a loop adds
    one child of the root per record. *)
Definition adds (names : list string) (w w' : xml_writer) : Prop :=
  exists delta, written w' = written w ++ delta /\ tops names delta.

Lemma adds_step name names w calls diag cm w' :
  tops [name] calls ->
  adds names (emit w calls diag cm) w' ->
  adds (name :: names) w w'.
Proof.
  intros Hc (delta & Hw & Hd). exists (calls ++ delta). split.
  - rewrite Hw. cbn [written emit]. rewrite app_assoc. reflexivity.
  - apply (tops_app [name] names); assumption.
Qed.

Lemma adds_refl w : adds [] w w.
Proof. exists []. split; [rewrite app_nil_r; reflexivity | apply tops_nil]. Qed.

Lemma changesets_loop_adds css :
  forall w tag_itr comment_itr,
    adds (map (fun _ => "changeset") css)
         w (changesets_loop B w css tag_itr comment_itr).
Proof.
  induction css as [|cs css IH]; intros w tag_itr comment_itr;
    [apply adds_refl|].
  cbn [changesets_loop map].
  eapply adds_step; [apply changeset_body_tops | apply IH].
Qed.

Lemma nodes_loop_adds ns :
  forall w tag_itr,
    adds (map (fun _ => "node") ns) w (nodes_loop B w ns tag_itr).
Proof.
  induction ns as [|n ns IH]; intros w tag_itr; [apply adds_refl|].
  cbn [nodes_loop map].
  pose proof (node_body_tops w n tag_itr) as Hb.
  destruct (node_body B w n tag_itr) as [calls ti]. cbn [fst] in Hb.
  eapply adds_step; [exact Hb | apply IH].
Qed.

Lemma ways_loop_adds ws :
  forall w nd_itr tag_itr,
    adds (map (fun _ => "way") ws) w (ways_loop B w ws nd_itr tag_itr).
Proof.
  induction ws as [|x ws IH]; intros w nd_itr tag_itr; [apply adds_refl|].
  cbn [ways_loop map].
  pose proof (way_body_tops w x nd_itr tag_itr) as Hb.
  destruct (way_body B w x nd_itr tag_itr) as [[calls ni] ti].
  cbn [fst] in Hb.
  eapply adds_step; [exact Hb | apply IH].
Qed.

Lemma relations_loop_adds rs :
  forall w rm_itr tag_itr,
    adds (map (fun _ => "relation") rs)
         w (relations_loop B w rs rm_itr tag_itr).
Proof.
  induction rs as [|r rs IH]; intros w rm_itr tag_itr; [apply adds_refl|].
  cbn [relations_loop map].
  pose proof (relation_body_tops w r rm_itr tag_itr) as Hb.
  destruct (relation_body B w r rm_itr tag_itr) as [[calls mi] ti].
  cbn [fst] in Hb.
  eapply adds_step; [exact Hb | apply IH].
Qed.

Lemma run_adds ps :
  forall w, adds (flat_map pass_outline ps) w (run B w ps).
Proof.
  induction ps as [|p ps IH]; intros w; [apply adds_refl|].
  cbn [run fold_left flat_map].
  assert (Hp : adds (pass_outline p) w (run_pass B w p)).
  { destruct p; cbn [run_pass pass_outline].
    - apply changesets_loop_adds.
    - apply nodes_loop_adds.
    - apply ways_loop_adds.
    - apply relations_loop_adds. }
  destruct Hp as (d1 & Hw1 & Hd1).
  destruct (IH (run_pass B w p)) as (d2 & Hw2 & Hd2).
  exists (d1 ++ d2). split.
  - unfold run in Hw2. rewrite Hw2, Hw1, app_assoc. reflexivity.
  - apply tops_app; assumption.
Qed.

(** X14: whatever the passes are given, rows in any order included, the
    children of the root element of the document are the [bound]
    element and then, pass by pass in the order of the calls, exactly one
    [changeset], [node], [way] or [relation] element per record handed to
    the pass, in the order of the records; every other element is nested
    inside one of these. *)
Theorem root_children_follow_the_records (generator : string)
        (users : user_map_t) (max_time : pt.ptime) (uil : user_info_level.t)
        (hv : historical_versions.t) (cd : changeset_discussions.t)
        (ps : list pass) :
  root_children (document B generator users max_time uil hv cd ps)
  = "bound" :: flat_map pass_outline ps.
Proof.
  unfold root_children, document, finish. cbn [written emit].
  destruct (run_adds ps (xml_writer_new B generator users max_time uil hv cd))
    as (delta & -> & Hdelta).
  cbn [written xml_writer_new]. unfold begin, end_.
  cbn [app children_at attribute attribute_time Nat.eqb Nat.pred].
  rewrite Hdelta. cbn [app children_at]. rewrite app_nil_r. reflexivity.
Qed.

End RootChildren.

(* ===================================================================== *)
(** * The compression command *)
(* ===================================================================== *)

(** A call that returns a value or throws [std::runtime_error] with a
    message. *)
Inductive result (A : Type) :=
| ok (a : A)
| throw (what : string).

Arguments ok {A} a.
Arguments throw {A} what.

(** Library model of [boost::program_options::variables_map]: a map from
    option names to values holding a string or something else;
    [operator[]] gives an empty value for a name that is not there and
    [as<std::string>()] throws unless the value holds a string. *)
Module po.

Inductive variable_value :=
| holds_string (s : string)
| holds_other.

Definition variables_map := gmap string variable_value.

Definition as_string (v : option variable_value) : option string :=
  match v with
  | Some (holds_string s) => Some s
  | _ => None
  end.

End po.

Definition backslash : ascii := ascii_of_nat 92.
Definition dquote : ascii := ascii_of_nat 34.

(** [shell_escape_char::operator()]: a backslash before every character
    of the match. *)
Definition shell_escape_char (result : list ascii) : list ascii :=
  flat_map (fun c => [backslash; c]) result.

(** [boost::is_any_of]. *)
Definition is_any_of (set : list ascii) (c : ascii) : bool :=
  existsb (Ascii.eqb c) set.

(** Library model of [boost::find_format_all] with a [token_finder] that
    does not compress: every character that satisfies the predicate is a
    match of its own and is replaced by what the formatter returns for
    it; the search goes on after the replacement. *)
Definition find_format_all_token (pred : ascii -> bool)
           (formatter : list ascii -> list ascii) (input : list ascii)
  : list ascii :=
  flat_map (fun c => if pred c then formatter [c] else [c]) input.

Definition escaped_file_name (file_name : string) : string :=
  Str.of_list
    (find_format_all_token (is_any_of [backslash; dquote]) shell_escape_char
                           (Str.to_list file_name)).

(** [popen_command]. *)
Definition popen_command (file_name : string) (options : po.variables_map)
  : result string :=
  match po.as_string (options !! "compress-command") with
  | None =>
      throw ("Unable to get options for " +s+ String dquote file_name
             +s+ String dquote ".")
  | Some compress_command =>
      ok (compress_command +s+ " > " +s+ String dquote EmptyString
          +s+ escaped_file_name file_name +s+ String dquote EmptyString)
  end.

(** Specification side: reading the inside of a double-quoted word up to
    its closing quote, a backslash making the next character literal;
    gives the word and what follows the closing quote.  Substitutions
    that a shell performs inside double quotes are not modelled. *)
Fixpoint quoted_word (s : list ascii) : option (list ascii * list ascii) :=
  match s with
  | [] => None
  | c :: rest =>
      if Ascii.eqb c dquote then Some ([], rest)
      else if Ascii.eqb c backslash then
        match rest with
        | [] => None
        | c' :: rest' =>
            match quoted_word rest' with
            | Some (word, after) => Some (c' :: word, after)
            | None => None
            end
        end
      else
        match quoted_word rest with
        | Some (word, after) => Some (c :: word, after)
        | None => None
        end
  end.

Lemma to_list_app (a b : string) :
  Str.to_list (a +s+ b) = Str.to_list a ++ Str.to_list b.
Proof.
  unfold Str.to_list. induction a as [|c a IH]; [reflexivity|].
  change (cons c (list_ascii_of_string (a +s+ b))
          = cons c (list_ascii_of_string a ++ list_ascii_of_string b)).
  rewrite IH. reflexivity.
Qed.

Lemma quoted_word_escaped (name after : list ascii) :
  quoted_word
    (find_format_all_token (is_any_of [backslash; dquote]) shell_escape_char
                           name ++ dquote :: after)
  = Some (name, after).
Proof.
  unfold find_format_all_token, shell_escape_char.
  induction name as [|c name IH]; [reflexivity|].
  cbn [flat_map app] in IH |- *. unfold is_any_of at 1. cbn [existsb].
  destruct (Ascii.eqb c backslash) eqn:Hb.
  - cbn [orb shell_escape_char flat_map app quoted_word].
    replace (Ascii.eqb backslash dquote) with false by reflexivity.
    replace (Ascii.eqb backslash backslash) with true by reflexivity.
    cbv iota. rewrite IH. reflexivity.
  - destruct (Ascii.eqb c dquote) eqn:Hq.
    + cbn [orb shell_escape_char flat_map app quoted_word].
      replace (Ascii.eqb backslash dquote) with false by reflexivity.
      replace (Ascii.eqb backslash backslash) with true by reflexivity.
      cbv iota. rewrite IH. reflexivity.
    + cbn [orb app quoted_word]. rewrite Hq, Hb, IH. reflexivity.
Qed.

Lemma escaped_length (name : list ascii) :
  (length name
   <= length (find_format_all_token (is_any_of [backslash; dquote])
                                    shell_escape_char name)
   <= 2 * length name)%nat.
Proof.
  unfold find_format_all_token, shell_escape_char.
  induction name as [|c l IH]; [cbn; lia|].
  cbn [flat_map app] in IH |- *. rewrite length_app.
  destruct (is_any_of _ c); cbn [length]; lia.
Qed.

(** X15: [popen_command] throws, naming the file, exactly when the
    options hold no string under [compress-command]; otherwise the
    command is the compression command, [ > ], and the file name between
    double quotes with a backslash put before each of its backslashes and
    double quotes and every other character copied.  Read as a
    double-quoted word the quoted part ends at the quote the code appends
    and gives back the file name, whatever follows. *)
Theorem popen_command_quotes_the_file_name (file_name : string)
        (options : po.variables_map) :
  (po.as_string (options !! "compress-command") = None ->
   popen_command file_name options
   = throw ("Unable to get options for " +s+ String dquote file_name
            +s+ String dquote "."))
  /\ (forall compress_command,
         options !! "compress-command"
         = Some (po.holds_string compress_command) ->
         exists quoted,
           popen_command file_name options
           = ok (compress_command +s+ " > " +s+ String dquote quoted)
           /\ (forall after,
                  quoted_word (Str.to_list quoted ++ after)
                  = Some (Str.to_list file_name, after))
           /\ (forallb (fun c => negb (is_any_of [backslash; dquote] c))
                       (Str.to_list file_name) = true ->
               quoted = file_name +s+ String dquote EmptyString)
           /\ (String.length file_name <= String.length quoted - 1
               <= 2 * String.length file_name)%nat).
Proof.
  split.
  - intros Hnone. unfold popen_command. rewrite Hnone. reflexivity.
  - intros compress_command Hsome.
    exists (escaped_file_name file_name +s+ String dquote EmptyString).
    unfold popen_command. rewrite Hsome. cbn [po.as_string].
    split; [|split; [|split]].
    + reflexivity.
    + intros after. rewrite to_list_app. unfold escaped_file_name.
      rewrite to_list_of_list, <- app_assoc. cbn [Str.to_list
        list_ascii_of_string app].
      apply quoted_word_escaped.
    + intros Hclean. f_equal. unfold escaped_file_name.
      rewrite <- (string_of_list_ascii_of_string file_name) at 2.
      unfold Str.of_list. f_equal. unfold find_format_all_token.
      unfold Str.to_list in *.
      induction (list_ascii_of_string file_name) as [|c l IH];
        [reflexivity|].
      cbn [forallb] in Hclean. apply andb_true_iff in Hclean as [Hc Hl].
      apply negb_true_iff in Hc. cbn [flat_map]. rewrite Hc, IH by exact Hl.
      reflexivity.
    + assert (Hlen : String.length
                       (escaped_file_name file_name +s+ String dquote EmptyString)
                     = S (String.length (escaped_file_name file_name))).
      { rewrite <- !length_to_list, to_list_app, length_app. cbn. lia. }
      rewrite Hlen. unfold escaped_file_name.
      rewrite length_of_list, <- length_to_list.
      pose proof (escaped_length (Str.to_list file_name)). lia.
Qed.

Lemma popen_command_quotes_the_file_name_witness :
  let options : po.variables_map :=
    {[ "compress-command" := po.holds_string "gzip -c" ]} in
  let file_name := "planet" +s+ String dquote "-2023.osm" in
  options !! "compress-command" = Some (po.holds_string "gzip -c")
  /\ exists quoted,
      popen_command file_name options
      = ok ("gzip -c" +s+ " > " +s+ String dquote quoted)
      /\ quoted_word (Str.to_list quoted) = Some (Str.to_list file_name, []).
Proof.
  intros options file_name.
  assert (Hsome : options !! "compress-command"
                  = Some (po.holds_string "gzip -c")) by reflexivity.
  split; [exact Hsome|].
  destruct (proj2 (popen_command_quotes_the_file_name file_name options)
                  "gzip -c" Hsome) as (quoted & Hcmd & Hread & _).
  exists quoted. split; [exact Hcmd|].
  rewrite <- (app_nil_r (Str.to_list quoted)). apply Hread.
Defined.

(* ===================================================================== *)
(** * The output callbacks *)
(* ===================================================================== *)

(** The callbacks [wrap_write] and [wrap_close] that libxml is given see
    of the [pimpl] only [m_out]; a [FILE*] is [None] when NULL.  What
    [fwrite] and [pclose] return is the environment's choice and a
    parameter of the call; the calls made on the C library are
    recorded. *)
Module io.

Definition FILE := Z.

Inductive libc_call :=
| fwrite (size : Z) (stream : FILE)
| pclose (stream : FILE).

Record pimpl := { m_out : option FILE }.

End io.

(** [wrap_write]: [context] is [None] for a NULL pointer; [status] is what
    [fwrite] returns, a [size_t]. *)
Definition wrap_write (context : option io.pimpl) (len : Z) (status : N)
  : result Z * list io.libc_call :=
  match context with
  | None => (throw "State object NULL in wrap_write.", [])
  | Some impl =>
      match io.m_out impl with
      | None => (throw "Output pipe NULL in wrap_write.", [])
      | Some out =>
          if len <? 0 then (throw "Negative length in wrap_write.", [])
          else
            let slen := len in
            if Z.of_N status <? slen
            then (throw "Failed to write to output stream.",
                  [io.fwrite slen out])
            else (ok len, [io.fwrite slen out])
      end
  end.

(** [wrap_close]: [status] is what [pclose] returns; the [pimpl] after the
    call is returned with the result. *)
Definition wrap_close (context : option io.pimpl) (status : Z)
  : result Z * option io.pimpl * list io.libc_call :=
  match context with
  | None => (throw "State object NULL in wrap_close.", None, [])
  | Some impl =>
      match io.m_out impl with
      | None => (throw "Output pipe NULL in wrap_close.", Some impl, [])
      | Some out =>
          if status =? -1
          then (throw "Output pipe could not be closed in wrap_close.",
                Some impl, [io.pclose out])
          else (ok 0, Some {| io.m_out := None |}, [io.pclose out])
      end
  end.

(** A callback libxml makes on the [pimpl] it was given, with what the C
    library answers. *)
Inductive callback :=
| Write (len : Z) (fwrite_status : N)
| Close (pclose_status : Z).

(** One callback on a [pimpl]: the [pimpl] afterwards, the result and the
    calls made on the C library. *)
Definition call_back (impl : io.pimpl) (c : callback)
  : io.pimpl * (result Z * list io.libc_call) :=
  match c with
  | Write len status => (impl, wrap_write (Some impl) len status)
  | Close status =>
      let '(r, impl', calls) := wrap_close (Some impl) status in
      (match impl' with Some i => i | None => impl end, (r, calls))
  end.

(** Any sequence of callbacks, whether or not the caller goes on after
    one that throws. *)
Fixpoint call_backs (impl : io.pimpl) (cs : list callback)
  : io.pimpl * list (result Z * list io.libc_call) :=
  match cs with
  | [] => (impl, [])
  | c :: rest =>
      let '(impl', r) := call_back impl c in
      let '(impl'', rs) := call_backs impl' rest in
      (impl'', r :: rs)
  end.

Definition is_ok {A} (r : result A) : bool :=
  match r with ok _ => true | throw _ => false end.

Lemma call_backs_closed cs :
  forall impl,
    io.m_out impl = None ->
    io.m_out (fst (call_backs impl cs)) = None
    /\ Forall (fun r => is_ok (fst r) = false /\ snd r = [])
              (snd (call_backs impl cs)).
Proof.
  induction cs as [|c cs IH]; intros impl Hnone; [split; [exact Hnone|constructor]|].
  cbn [call_backs].
  destruct (call_back impl c) as [impl' r] eqn:Hc.
  destruct (call_backs impl' cs) as [impl'' rs] eqn:Hcs.
  assert (Hstep : io.m_out impl' = None /\ is_ok (fst r) = false /\ snd r = []).
  { destruct c; cbn [call_back wrap_write wrap_close] in Hc;
      rewrite Hnone in Hc; inversion Hc; subst; repeat split; exact Hnone. }
  destruct Hstep as (Hnone' & Hr).
  specialize (IH impl' Hnone'). rewrite Hcs in IH. cbn [fst snd] in *.
  split; [apply IH|]. constructor; [exact Hr | apply IH].
Qed.

Lemma call_backs_app impl a b :
  call_backs impl (a ++ b)
  = (fst (call_backs (fst (call_backs impl a)) b),
     snd (call_backs impl a) ++ snd (call_backs (fst (call_backs impl a)) b)).
Proof.
  revert impl. induction a as [|c a IH]; intros impl.
  - cbn [app call_backs fst snd]. destruct (call_backs impl b); reflexivity.
  - cbn [app call_backs]. destruct (call_back impl c) as [impl' r].
    rewrite IH. destruct (call_backs impl' a) as [impl'' rs].
    reflexivity.
Qed.

(** X16: [wrap_write] returns only [len], and exactly when the state
    object and the pipe are not NULL, [len] is not negative and [fwrite]
    wrote all [len] bytes; it calls [fwrite] only on the open pipe.  Over
    any sequence of callbacks on a [pimpl]: once a [wrap_close] has
    succeeded the pipe is NULL for good, every later callback throws and
    none of them calls [fwrite] or [pclose]; every call made on the C
    library is made on the stream the [pimpl] was given. *)
Theorem callbacks_never_use_a_closed_pipe :
  (forall context len status,
      match fst (wrap_write context len status) with
      | ok n =>
          n = len /\ 0 <= len <= Z.of_N status
          /\ exists impl out,
              context = Some impl /\ io.m_out impl = Some out
              /\ snd (wrap_write context len status) = [io.fwrite len out]
      | throw _ =>
          context = None
          \/ (exists impl, context = Some impl /\ io.m_out impl = None)
          \/ len < 0 \/ Z.of_N status < len
      end)
  /\ (forall impl before pclose_status after,
         is_ok (fst (snd (call_back (fst (call_backs impl before))
                                    (Close pclose_status)))) = true ->
         let run := call_backs impl (before ++ Close pclose_status :: after) in
         io.m_out (fst run) = None
         /\ Forall (fun r => is_ok (fst r) = false /\ snd r = [])
                   (drop (S (length before)) (snd run)))
  /\ (forall out cs,
         Forall (fun r =>
                   Forall (fun call =>
                             match call with
                             | io.fwrite _ stream | io.pclose stream =>
                                 stream = out
                             end) (snd r))
                (snd (call_backs {| io.m_out := Some out |} cs))).
Proof.
  split; [|split].
  - intros context len status. unfold wrap_write.
    destruct context as [impl|]; [|left; reflexivity].
    destruct (io.m_out impl) as [out|] eqn:Hout;
      [|right; left; exists impl; split; [reflexivity | exact Hout]].
    destruct (Z.ltb_spec len 0); [right; right; left; assumption|].
    cbv zeta. destruct (Z.ltb_spec (Z.of_N status) len); cbn [fst snd].
    + right; right; right; assumption.
    + split; [reflexivity|]. split; [lia|].
      exists impl, out. repeat split. exact Hout.
  - intros impl before pclose_status after Hok run. subst run.
    rewrite call_backs_app.
    set (impl1 := fst (call_backs impl before)) in *.
    cbn [call_backs fst snd].
    destruct (call_back impl1 (Close pclose_status)) as [impl2 r] eqn:Hc.
    cbn [fst snd] in Hok.
    assert (Hnone : io.m_out impl2 = None).
    { cbn [call_back wrap_close] in Hc.
      destruct (io.m_out impl1); [|inversion Hc; subst; discriminate Hok].
      destruct (pclose_status =? -1);
        inversion Hc; subst; [discriminate Hok | reflexivity]. }
    destruct (call_backs_closed after impl2 Hnone) as [Hfinal Hall].
    destruct (call_backs impl2 after) as [impl3 rs]. cbn [fst snd] in *.
    split; [exact Hfinal|].
    assert (Hlen : length (snd (call_backs impl before)) = length before).
    { clear. revert impl. induction before as [|c cs IH]; intros impl;
        [reflexivity|].
      cbn [call_backs]. destruct (call_back impl c) as [impl' r].
      specialize (IH impl'). destruct (call_backs impl' cs).
      cbn [snd length] in *. rewrite IH. reflexivity. }
    rewrite <- Hlen.
    change (snd (call_backs impl before) ++ r :: rs)
      with (snd (call_backs impl before) ++ [r] ++ rs).
    rewrite app_assoc.
    replace (S (length (snd (call_backs impl before))))
      with (length (snd (call_backs impl before) ++ [r]))
      by (rewrite length_app; cbn; lia).
    rewrite drop_app_length. exact Hall.
  - intros out cs.
    assert (H : forall impl,
               (io.m_out impl = Some out \/ io.m_out impl = None) ->
               Forall (fun r =>
                         Forall (fun call =>
                                   match call with
                                   | io.fwrite _ stream | io.pclose stream =>
                                       stream = out
                                   end) (snd r))
                      (snd (call_backs impl cs))).
    { induction cs as [|c cs IH]; intros impl Himpl; [constructor|].
      cbn [call_backs].
      destruct (call_back impl c) as [impl' r] eqn:Hc.
      assert (Hstep : (io.m_out impl' = Some out \/ io.m_out impl' = None)
                      /\ Forall (fun call =>
                                   match call with
                                   | io.fwrite _ stream | io.pclose stream =>
                                       stream = out
                                   end) (snd r)).
      { destruct c; cbn [call_back wrap_write wrap_close] in Hc.
        - destruct Himpl as [Ho|Ho]; rewrite Ho in Hc.
          + destruct (len <? 0); [inversion Hc; subst; split;
                                  [left; exact Ho | constructor]|].
            cbv zeta in Hc.
            destruct (Z.of_N fwrite_status <? len); inversion Hc; subst;
              (split; [left; exact Ho | repeat constructor]).
          + inversion Hc; subst. split; [right; exact Ho | constructor].
        - destruct Himpl as [Ho|Ho]; rewrite Ho in Hc.
          + destruct (pclose_status =? -1); inversion Hc; subst.
            * split; [left; exact Ho | repeat constructor].
            * split; [right; reflexivity | repeat constructor].
          + inversion Hc; subst. split; [right; exact Ho | constructor]. }
      destruct Hstep as [Himpl' Hr].
      specialize (IH impl' Himpl').
      destruct (call_backs impl' cs) as [impl'' rs]. cbn [snd] in *.
      constructor; assumption. }
    apply H. left. reflexivity.
Qed.

Lemma callbacks_never_use_a_closed_pipe_witness :
  let impl := {| io.m_out := Some 3 |} in
  let before := [Write 10 10; Write 4 2] in
  let after := [Write 5 5; Close 0] in
  is_ok (fst (snd (call_back (fst (call_backs impl before)) (Close 0)))) = true
  /\ io.m_out (fst (call_backs impl (before ++ Close 0 :: after))) = None
  /\ Forall (fun r => is_ok (fst r) = false /\ snd r = [])
            (drop (S (length before))
                  (snd (call_backs impl (before ++ Close 0 :: after)))).
Proof.
  intros impl before after.
  assert (Hok : is_ok (fst (snd (call_back (fst (call_backs impl before))
                                           (Close 0)))) = true)
    by reflexivity.
  split; [exact Hok|].
  exact (proj1 (proj2 callbacks_never_use_a_closed_pipe)
               impl before 0 after Hok).
Defined.

(* ===================================================================== *)
(** * One element on child rows in any order *)
(* ===================================================================== *)

Section AnyOrderBodies.

Variable B : build.

Lemma consumed_self {A} (l : list A) : consumed l l = [].
Proof. unfold consumed. rewrite Nat.sub_diag. reflexivity. Qed.

(** X17: whatever the order of the child rows, the element written for a
    way or a relation is its own attributes followed, when it is visible,
    by the node references (members) and then the tags taken from the rows
    its iterators passed in this step, those with exactly its (id,
    version) and no other; each iterator passes a prefix of what was ahead
    of it.  So no child is ever written under a parent with another key,
    and all [nd] or [member] children come before all [tag] children. *)
Theorem way_and_relation_children_any_order :
  (forall (w : xml_writer) (x : way.t) (nd_itr : list way_node.t)
          (tag_itr : list old_tag.t),
      let r := way_body B w x nd_itr tag_itr in
      fst (fst r)
      = way_element B w (consumed nd_itr (snd (fst r)))
                    (consumed tag_itr (snd r)) x
      /\ nd_itr = consumed nd_itr (snd (fst r)) ++ snd (fst r)
      /\ tag_itr = consumed tag_itr (snd r) ++ snd r)
  /\ (forall (w : xml_writer) (r : relation.t)
             (rm_itr : list relation_member.t) (tag_itr : list old_tag.t),
         let b := relation_body B w r rm_itr tag_itr in
         fst (fst b)
         = relation_element B w (consumed rm_itr (snd (fst b)))
                            (consumed tag_itr (snd b)) r
         /\ rm_itr = consumed rm_itr (snd (fst b)) ++ snd (fst b)
         /\ tag_itr = consumed tag_itr (snd b) ++ snd b).
Proof.
  split.
  - intros w x nd_itr tag_itr r. subst r.
    unfold way_body, way_element, way_key.
    rewrite write_nds_advance, write_tags_advance.
    pose proof (advance_to_emits_consumed nd_key nd_child
                  (way.id x) (way.version x) nd_itr) as Hn.
    pose proof (advance_to_emits_consumed tag_key (tag_child B)
                  (way.id x) (way.version x) tag_itr) as Ht.
    pose proof (advance_to_suffix nd_key nd_child
                  (way.id x) (way.version x) nd_itr) as [Hsn _].
    pose proof (advance_to_suffix tag_key (tag_child B)
                  (way.id x) (way.version x) tag_itr) as [Hst _].
    destruct (advance_to nd_key nd_child _ _ nd_itr) as [nds ni].
    destruct (advance_to tag_key (tag_child B) _ _ tag_itr) as [tags ti].
    cbn [fst snd] in *.
    destruct (way.visible x); cbn [fst snd].
    + rewrite Hn, Ht. repeat split; assumption.
    + rewrite !consumed_self. repeat split; reflexivity.
  - intros w r rm_itr tag_itr b. subst b.
    unfold relation_body, relation_element, relation_key.
    rewrite write_members_advance, write_tags_advance.
    pose proof (advance_to_emits_consumed member_key (member_child B)
                  (relation.id r) (relation.version r) rm_itr) as Hm.
    pose proof (advance_to_emits_consumed tag_key (tag_child B)
                  (relation.id r) (relation.version r) tag_itr) as Ht.
    pose proof (advance_to_suffix member_key (member_child B)
                  (relation.id r) (relation.version r) rm_itr) as [Hsm _].
    pose proof (advance_to_suffix tag_key (tag_child B)
                  (relation.id r) (relation.version r) tag_itr) as [Hst _].
    destruct (advance_to member_key (member_child B) _ _ rm_itr)
      as [members mi].
    destruct (advance_to tag_key (tag_child B) _ _ tag_itr) as [tags ti].
    cbn [fst snd] in *.
    destruct (relation.visible r); cbn [fst snd].
    + rewrite Hm, Ht. repeat split; assumption.
    + rewrite !consumed_self. repeat split; reflexivity.
Qed.

End AnyOrderBodies.
